(** * OCR identity-verification service: MRZ parsing, checksums and the
      two-engine fallback of [/verify-id]

    A shallow embedding of [src/server.js] (the Express service with the
    PassportEye / Tesseract fallback) and of the two n8n code nodes of
    [src/unnamed/part_000] (the outcome normaliser and the TD1 parser).

    JavaScript strings are sequences of code units; they are embedded as
    [list ascii], one [ascii] per code unit of the Latin-1 range
    U+0000..U+00FF.  That range holds every character the source tests for
    (the guillemets U+00AB / U+00BB, the degree sign U+00B0, the ordinal
    U+00BA, the no-break space U+00A0).  JavaScript numbers are embedded as
    [option Z], [None] being NaN; every number the embedded code computes
    is an integer far below 2^53, where doubles are exact. *)

From Stdlib Require Import ZArith List Ascii Bool Arith Lia.
From Stdlib Require String DecimalString.
Import ListNotations.
Import String.StringSyntax.
Delimit Scope string_scope with string.
Open Scope string_scope.
Set Warnings "-register-all".

Local Open Scope list_scope.

(* ------------------------------------------------------------------ *)
(** ** JavaScript strings and numbers *)

Module JS.

Definition jsstring : Type := list ascii.

(** String literals of the source. *)
Abbreviation js s := (String.list_ascii_of_string s%string).

(** A JavaScript number: [None] is NaN. *)
Definition jsnum : Type := option Z.

Definition code (c : ascii) : nat := nat_of_ascii c.

Definition in_range (lo hi : nat) (c : ascii) : bool :=
  (lo <=? code c)%nat && (code c <=? hi)%nat.

(** [\d] *)
Definition isDigit (c : ascii) : bool := in_range 48 57 c.
(** [[A-Z]] *)
Definition isUpper (c : ascii) : bool := in_range 65 90 c.
(** [[a-z]] *)
Definition isLower (c : ascii) : bool := in_range 97 122 c.
(** [\w] is [[A-Za-z0-9_]] *)
Definition isWord (c : ascii) : bool :=
  isUpper c || isLower c || isDigit c || (code c =? 95)%nat.
(** [\s] on the Latin-1 range: TAB, LF, VT, FF, CR, space, no-break space.
    [String.prototype.trim] strips the same set. *)
Definition isSpace (c : ascii) : bool :=
  in_range 9 13 c || (code c =? 32)%nat || (code c =? 160)%nat.

Definition chr (n : nat) : ascii := ascii_of_nat n.

Definition LT : ascii := "<"%char.
Definition NL : ascii := chr 10.

(** [s.length] *)
Definition len (s : jsstring) : nat := List.length s.

Fixpoint str_eqb (a b : jsstring) : bool :=
  match a, b with
  | [], [] => true
  | x :: a', y :: b' => Ascii.eqb x y && str_eqb a' b'
  | _, _ => false
  end.

(** [s.slice(a, b)] for non-negative indices. *)
Definition slice (a b : nat) (s : jsstring) : jsstring :=
  firstn (b - a) (skipn a s).

Fixpoint cycle_fill (fill cur : jsstring) (n : nat) : jsstring :=
  match n with
  | O => []
  | S n' =>
      match cur with
      | c :: cur' => c :: cycle_fill fill cur' n'
      | [] =>
          match fill with
          | [] => []
          | c :: cur' => c :: cycle_fill fill cur' n'
          end
      end
  end.

(** [s.padEnd(n, fill)] *)
Definition padEnd (n : nat) (fill : jsstring) (s : jsstring) : jsstring :=
  s ++ cycle_fill fill fill (n - len s).

(** [s.padStart(n, fill)] *)
Definition padStart (n : nat) (fill : jsstring) (s : jsstring) : jsstring :=
  cycle_fill fill fill (n - len s) ++ s.

(** [s.startsWith(p)] *)
Fixpoint startsWith (p s : jsstring) : bool :=
  match p, s with
  | [], _ => true
  | x :: p', y :: s' => Ascii.eqb x y && startsWith p' s'
  | _ :: _, [] => false
  end.

(** [s.includes(p)] *)
Fixpoint includes (p s : jsstring) : bool :=
  startsWith p s ||
  match s with
  | [] => false
  | _ :: s' => includes p s'
  end.

(** [table.indexOf(c)] for a one-character [c]; [-1] when absent. *)
Fixpoint indexOf_from (c : ascii) (table : jsstring) (i : Z) : Z :=
  match table with
  | [] => (-1)%Z
  | x :: t => if Ascii.eqb x c then i else indexOf_from c t (i + 1)%Z
  end.

Definition indexOf (c : ascii) (table : jsstring) : Z := indexOf_from c table 0%Z.

(** [s.split(sep)] for a one-character separator. *)
Fixpoint split_acc (sep : ascii) (s cur : jsstring) : list jsstring :=
  match s with
  | [] => [rev cur]
  | c :: s' =>
      if Ascii.eqb c sep then rev cur :: split_acc sep s' []
      else split_acc sep s' (c :: cur)
  end.

Definition split (sep : ascii) (s : jsstring) : list jsstring :=
  split_acc sep s [].

(** [s.replace(/[cls]/g, "")]: every character of the class is dropped. *)
Definition removeAll (cls : ascii -> bool) (s : jsstring) : jsstring :=
  filter (fun c => negb (cls c)) s.

(** [s.replace(/[cls]/g, r)] for a one-character replacement. *)
Definition replaceAll (cls : ascii -> bool) (r : ascii) (s : jsstring) : jsstring :=
  map (fun c => if cls c then r else c) s.

Fixpoint dropWhile (p : ascii -> bool) (s : jsstring) : jsstring :=
  match s with
  | [] => []
  | c :: s' => if p c then dropWhile p s' else s
  end.

(** [s.trim()] *)
Definition trim (s : jsstring) : jsstring :=
  rev (dropWhile isSpace (rev (dropWhile isSpace s))).

(** [c.toUpperCase()] of one code unit.  [a-z] and the accented Latin-1
    letters move down by 32, the sharp s becomes [SS]; the micro sign and
    [y] with diaeresis upper-case outside Latin-1 and are kept as they
    are, which leaves them outside every class the source tests. *)
Definition upperChar (c : ascii) : jsstring :=
  if isLower c then [chr (code c - 32)]
  else if (code c =? 223)%nat then js "SS"
  else if in_range 224 254 c && negb (code c =? 247)%nat then [chr (code c - 32)]
  else [c].

(** [s.toUpperCase()] *)
Definition toUpperCase (s : jsstring) : jsstring := flat_map upperChar s.

(** Value of a decimal digit character. *)
Definition digitVal (c : ascii) : Z := Z.of_nat (code c - 48).

Fixpoint parseDigits (s : jsstring) (acc : option Z) : option Z :=
  match s with
  | [] => acc
  | c :: s' =>
      if isDigit c
      then parseDigits s' (Some (match acc with
                                 | Some a => a * 10 + digitVal c
                                 | None => digitVal c
                                 end)%Z)
      else acc
  end.

(** [parseInt(s, 10)]: leading white space is skipped, one sign is read,
    then the longest run of decimal digits; NaN when that run is empty. *)
Definition parseInt (s : jsstring) : jsnum :=
  match dropWhile isSpace s with
  | c :: s' =>
      if Ascii.eqb c "-"%char then option_map Z.opp (parseDigits s' None)
      else if Ascii.eqb c "+"%char then parseDigits s' None
      else parseDigits (c :: s') None
  | [] => None
  end.

(** [String(n)] for an integer or NaN. *)
Definition numToString (n : jsnum) : jsstring :=
  match n with
  | Some z => String.list_ascii_of_string
              (DecimalString.NilZero.string_of_int (Z.to_int z))
  | None => js "NaN"
  end.

(** Arithmetic propagates NaN; comparisons with NaN are false. *)
Definition num_add (a b : jsnum) : jsnum :=
  match a, b with Some x, Some y => Some (x + y)%Z | _, _ => None end.
Definition num_mul (a b : jsnum) : jsnum :=
  match a, b with Some x, Some y => Some (x * y)%Z | _, _ => None end.
(** [a % b]: the remainder has the sign of the dividend; [x % 0] is NaN. *)
Definition num_rem (a b : jsnum) : jsnum :=
  match a, b with
  | Some x, Some y => if (y =? 0)%Z then None else Some (Z.rem x y)
  | _, _ => None
  end.
Definition num_lt (a b : jsnum) : bool :=
  match a, b with Some x, Some y => (x <? y)%Z | _, _ => false end.
Definition num_gt (a b : jsnum) : bool := num_lt b a.
(** [a === b] on numbers. *)
Definition num_eq (a b : jsnum) : bool :=
  match a, b with Some x, Some y => (x =? y)%Z | _, _ => false end.

(** [s[i]] read where a string is expected: the one-character string, or
    the text of [undefined] when [i] is out of range. *)
Definition at_index (s : jsstring) (i : nat) : jsstring :=
  match nth_error s i with
  | Some c => [c]
  | None => js "undefined"
  end.

End JS.
Import JS.

(* ------------------------------------------------------------------ *)
(** ** Checksum engine ([mrzChecksum], [checksumOk]) *)

Module Checksum.

Definition weights : list Z := [7; 3; 1]%Z.
Definition table : jsstring := js "0123456789ABCDEFGHIJKLMNOPQRSTUVWXYZ".

(** [weights[i % 3]]: out of range reads give [undefined], NaN in a product. *)
Definition weight_at (i : nat) : jsnum := nth_error weights (i mod 3).

(** The value given to one character by the loop body. *)
Definition charValue (c : ascii) : jsnum :=
  let val :=
    if Ascii.eqb c LT then Some 0%Z
    else if isDigit c then parseInt [c]
    else Some (indexOf c table) in
  if num_lt val (Some 0%Z) then Some 0%Z else val.

Fixpoint mrzChecksum_loop (str : jsstring) (i : nat) (total : jsnum) : jsnum :=
  match str with
  | [] => total
  | c :: rest =>
      mrzChecksum_loop rest (S i) (num_add total (num_mul (charValue c) (weight_at i)))
  end.

Definition mrzChecksum (str : jsstring) : jsnum :=
  num_rem (mrzChecksum_loop str 0 (Some 0%Z)) (Some 10%Z).

Definition checksumOk (data check : jsstring) : bool :=
  num_eq (mrzChecksum data) (parseInt check).

End Checksum.
Import Checksum.

(* ------------------------------------------------------------------ *)
(** ** Date conversion ([parseMrzDate]) *)

Module MrzDate.

(** [null] is [None]. *)
Definition parseMrzDate (yymmdd : jsstring) : option jsstring :=
  if (len yymmdd =? 0)%nat || negb (len yymmdd =? 6)%nat then None
  else
    let yy := parseInt (slice 0 2 yymmdd) in
    let mm := slice 2 4 yymmdd in
    let dd := slice 4 6 yymmdd in
    let yyyy :=
      if num_gt yy (Some 30%Z)
      then js "19" ++ padStart 2 (js "0") (numToString yy)
      else js "20" ++ padStart 2 (js "0") (numToString yy) in
    Some (yyyy ++ js "-" ++ mm ++ js "-" ++ dd).

End MrzDate.
Import MrzDate.

(* ------------------------------------------------------------------ *)
(** ** Regular expressions

    The source's patterns are sequences of character classes under a
    greedy bounded quantifier, with the assertions [^], [$] and [\b].  The
    matcher below is the backtracking search of the language: a quantified
    class first takes as many characters as it can and gives them back one
    at a time while the rest of the pattern fails.  A match is reported as
    the list of the segments consumed by each item, so a capture group is
    the segment of the item it encloses. *)

Module Regex.

Inductive item : Type :=
| Cls (p : ascii -> bool) (lo : nat) (hi : option nat)
| Bol
| Eol
| WordB.

Definition regex : Type := list item.

Fixpoint run_length (p : ascii -> bool) (s : jsstring) : nat :=
  match s with
  | c :: s' => if p c then S (run_length p s') else 0
  | [] => 0
  end.

Definition cap (hi : option nat) (n : nat) : nat :=
  match hi with
  | Some h => Nat.min h n
  | None => n
  end.

(** The character before the current position once [seg] is consumed. *)
Definition last_of (prev : option ascii) (seg : jsstring) : option ascii :=
  fold_left (fun _ c => Some c) seg prev.

Definition word_at (c : option ascii) : bool :=
  match c with
  | Some x => isWord x
  | None => false
  end.

(** Tries the counts [k], [k-1], ..., [lo] in this order. *)
Fixpoint try_down {A : Type} (f : nat -> option A) (lo k : nat) : option A :=
  if (k <? lo)%nat then None
  else
    match f k with
    | Some r => Some r
    | None =>
        match k with
        | O => None
        | S k' => try_down f lo k'
        end
    end.

Fixpoint match_items (its : regex) (prev : option ascii) (s : jsstring)
  : option (list jsstring) :=
  match its with
  | [] => Some []
  | Cls p lo hi :: its' =>
      try_down
        (fun k =>
           option_map (cons (firstn k s))
             (match_items its' (last_of prev (firstn k s)) (skipn k s)))
        lo (cap hi (run_length p s))
  | Bol :: its' =>
      match prev with
      | None => option_map (cons []) (match_items its' prev s)
      | Some _ => None
      end
  | Eol :: its' =>
      match s with
      | [] => option_map (cons []) (match_items its' prev s)
      | _ :: _ => None
      end
  | WordB :: its' =>
      if xorb (word_at prev) (word_at (hd_error s))
      then option_map (cons []) (match_items its' prev s)
      else None
  end.

(** Leftmost match: index of the match and its segments. *)
Fixpoint exec_from (re : regex) (prev : option ascii) (s : jsstring) (i : nat)
  : option (nat * list jsstring) :=
  match match_items re prev s with
  | Some segs => Some (i, segs)
  | None =>
      match s with
      | [] => None
      | c :: s' => exec_from re (Some c) s' (S i)
      end
  end.

(** [re.exec(s)] / [s.match(re)] without the [g] flag. *)
Definition exec (re : regex) (s : jsstring) : option (nat * list jsstring) :=
  exec_from re None s 0.

(** [re.test(s)] *)
Definition test (re : regex) (s : jsstring) : bool :=
  match exec re s with
  | Some _ => true
  | None => false
  end.

(** The text of a whole match, [m[0]]. *)
Definition whole (segs : list jsstring) : jsstring := concat segs.

(** [[...s.matchAll(re)]] with the [g] flag, each match given by [m[0]]:
    the search resumes where the last match ended, one further on after an
    empty match. *)
Fixpoint matchAll_from (fuel : nat) (re : regex) (prev : option ascii) (s : jsstring)
  : list jsstring :=
  match fuel with
  | O => []
  | S fuel' =>
      match exec_from re prev s 0 with
      | None => []
      | Some (i, segs) =>
          let m := whole segs in
          let adv := i + (if (len m =? 0)%nat then 1 else len m) in
          m :: (if (adv <=? len s)%nat
                then matchAll_from fuel' re (last_of prev (firstn adv s)) (skipn adv s)
                else [])
      end
  end.

Definition matchAll (re : regex) (s : jsstring) : list jsstring :=
  matchAll_from (S (len s)) re None s.

(** Capture group carried by the [n]-th item. *)
Definition group (n : nat) (segs : list jsstring) : jsstring := nth n segs [].

End Regex.
Import Regex.

(* ------------------------------------------------------------------ *)
(** ** TD1 parser of the n8n node ([normalizeLine], [parseMrzTD1]) *)

Module Mrz.

Definition is_char (x : ascii) (c : ascii) : bool := Ascii.eqb c x.

(** [[A-Z0-9<]] *)
Definition isMrzChar (c : ascii) : bool := isUpper c || isDigit c || is_char LT c.
(** [[A-Z<]] *)
Definition isNameChar (c : ascii) : bool := isUpper c || is_char LT c.
(** [.]: anything but a line terminator. *)
Definition isDot (c : ascii) : bool := negb (is_char NL c || is_char (chr 13) c).

Definition normalizeLine (line : jsstring) : jsstring :=
  removeAll (fun c => negb (isWord c || is_char LT c))
    (replaceAll (fun c => is_char (chr 171) c || is_char (chr 187) c) LT
       (replaceAll (is_char "O"%char) "0"%char
          (removeAll isSpace (toUpperCase line)))).

(** [/^[A-Z0-9<]+$/] *)
Definition re_mrz_line : regex := [Bol; Cls isMrzChar 1 None; Eol].

(** The pattern of the name line: [^], group 1 [[A-Z<]+], the text [<<],
    group 2 [[A-Z<]] starred, then any run of [.]. *)
Definition re_names : regex :=
  [Bol; Cls isNameChar 1 None; Cls (is_char LT) 2 (Some 2);
   Cls isNameChar 0 None; Cls isDot 0 None].

Record Checksums : Type := {
  cs_date_of_birth : bool;
  cs_expiration_date : bool;
  cs_composite : bool;
  cs_all_ok : bool
}.

Record MrzRecord : Type := {
  mrz_line1 : jsstring;
  mrz_line2 : jsstring;
  mrz_line3 : jsstring;
  card_number : jsstring;
  nationality : jsstring;
  date_of_birth : option jsstring;
  expiration_date : option jsstring;
  sex : jsstring;
  surname : jsstring;
  names : jsstring;
  checksums : Checksums
}.

(** [l3.replace(re_names, "$1|$2")] *)
Definition namePart_of (l3 : jsstring) : jsstring :=
  match exec re_names l3 with
  | Some (i, segs) =>
      firstn i l3 ++ (group 1 segs ++ js "|" ++ group 3 segs)
      ++ skipn (i + len (whole segs)) l3
  | None => l3
  end.

(** The input of the composite check, as the loop body builds it. *)
Definition compositeData (l1 l2 : jsstring) : jsstring :=
  slice 5 30 l1 ++ slice 0 7 l2 ++ slice 8 15 l2 ++ slice 18 29 l2.

(** One iteration of the loop on the candidates [c1], [c2], [c3]; [None]
    is the [continue]. *)
Definition decode_triplet (c1 c2 c3 : jsstring) : option MrzRecord :=
  let l1 := padEnd 30 (js "<") (slice 0 30 c1) in
  let l2 := padEnd 30 (js "<") (slice 0 30 c2) in
  let l3 := padEnd 30 (js "<") (slice 0 30 c3) in
  if negb (startsWith (js "ID") l1) then None
  else
    let dobRaw := slice 0 6 l2 in
    let dobCheck := at_index l2 6 in
    let expRaw := slice 8 14 l2 in
    let expCheck := at_index l2 14 in
    let dobOk := checksumOk dobRaw dobCheck in
    let expOk := checksumOk expRaw expCheck in
    let namePart := namePart_of l3 in
    let parts :=
      if includes (js "|") namePart then split "|"%char namePart
      else [namePart; []] in
    let rawSurname := nth 0 parts [] in
    let rawNames := nth 1 parts [] in
    let surname := trim (replaceAll (is_char LT) " "%char rawSurname) in
    let names := trim (replaceAll (is_char LT) " "%char rawNames) in
    let cardNumber := removeAll (is_char LT) (slice 5 14 l1) in
    let compositeCheck := at_index l2 29 in
    let compositeOk := checksumOk (compositeData l1 l2) compositeCheck in
    Some {|
      mrz_line1 := l1;
      mrz_line2 := l2;
      mrz_line3 := l3;
      card_number := cardNumber;
      nationality := removeAll (is_char LT) (slice 2 5 l1);
      date_of_birth := parseMrzDate dobRaw;
      expiration_date := parseMrzDate expRaw;
      sex := if str_eqb (at_index l2 7) (js "M") then js "M"
             else if str_eqb (at_index l2 7) (js "F") then js "F"
             else js "X";
      surname := surname;
      names := names;
      checksums := {|
        cs_date_of_birth := dobOk;
        cs_expiration_date := expOk;
        cs_composite := compositeOk;
        cs_all_ok := dobOk && expOk && compositeOk
      |}
    |}.

(** The [for] loop over [i], seen from [candidates[i]] on. *)
Fixpoint scan_triplets (candidates : list jsstring) : option MrzRecord :=
  match candidates with
  | c1 :: ((c2 :: c3 :: _) as tl) =>
      match decode_triplet c1 c2 c3 with
      | Some r => Some r
      | None => scan_triplets tl
      end
  | _ => None
  end.

Definition candidates_of (rawText : jsstring) : list jsstring :=
  filter (fun l => (25 <=? len l)%nat && test re_mrz_line l)
    (map normalizeLine (split NL rawText)).

Definition parseMrzTD1 (rawText : jsstring) : option MrzRecord :=
  scan_triplets (candidates_of rawText).

End Mrz.
Import Mrz.

(* ------------------------------------------------------------------ *)
(** ** Helpers of the Tesseract fallback ([server.js]) *)

Module Fallback.

Definition normalizeMrz (str : jsstring) : jsstring :=
  replaceAll (is_char "B"%char) "8"%char
    (replaceAll (is_char "I"%char) "1"%char
       (replaceAll (is_char "O"%char) "0"%char
          (removeAll isSpace (toUpperCase str)))).

Definition one_of (l : jsstring) (c : ascii) : bool := existsb (Ascii.eqb c) l.

(** [[0-9A-Z]] *)
Definition isAlnumUpper (c : ascii) : bool := isDigit c || isUpper c.

(** [/n[o°º s][s°]?\s*:?\s*([0-9]{12})/i]; the degree sign is code 176 and
    the ordinal indicator code 186. *)
Definition re_label : regex :=
  [Cls (one_of (js "nN")) 1 (Some 1);
   Cls (fun c => one_of (js "oO sS") c || is_char (chr 176) c || is_char (chr 186) c)
       1 (Some 1);
   Cls (fun c => one_of (js "sS") c || is_char (chr 176) c) 0 (Some 1);
   Cls isSpace 0 None;
   Cls (is_char ":"%char) 0 (Some 1);
   Cls isSpace 0 None;
   Cls isDigit 12 (Some 12)].

(** [/\b([0-9]{12})\b/] *)
Definition re_twelve : regex := [WordB; Cls isDigit 12 (Some 12); WordB].

(** [/^[0-9]{9,12}/] *)
Definition re_digits_head : regex := [Bol; Cls isDigit 9 (Some 12)].

(** [/^[0-9A-Z<]+$/] *)
Definition re_mrz_only : regex := [Bol; Cls isMrzChar 1 None; Eol].

(** [/([0-9]{9,12}[0-9A-Z]{5,}[<][0-9A-Z<]{10,})/g] *)
Definition re_line2_shape : regex :=
  [Cls isDigit 9 (Some 12); Cls isAlnumUpper 5 None;
   Cls (is_char LT) 1 (Some 1); Cls isMrzChar 10 None].

(** The [for] loop over the lines that hold no [<]. *)
Fixpoint first_unlabelled (lines : list jsstring) : option jsstring :=
  match lines with
  | [] => None
  | line :: rest =>
      if includes (js "<") line then first_unlabelled rest
      else
        match exec re_twelve line with
        | Some (_, segs) => Some (group 1 segs)
        | None => first_unlabelled rest
        end
  end.

Definition extractCardNumberFromText (text : jsstring) : option jsstring :=
  match exec re_label text with
  | Some (_, segs) => Some (group 6 segs)
  | None =>
      match first_unlabelled (split NL text) with
      | Some m => Some m
      | None =>
          match exec re_twelve text with
          | Some (_, segs) => Some (group 1 segs)
          | None => None
          end
      end
  end.

(** [line.replace(/\s/g, "").toUpperCase()] *)
Definition clean_of (line : jsstring) : jsstring :=
  toUpperCase (removeAll isSpace line).

Definition line2_ok (clean : jsstring) : bool :=
  test re_digits_head clean && includes (js "<") clean
  && (27 <=? len clean)%nat && test re_mrz_only clean.

Fixpoint first_line2 (lines : list jsstring) : option jsstring :=
  match lines with
  | [] => None
  | line :: rest =>
      let clean := clean_of line in
      if line2_ok clean then Some clean else first_line2 rest
  end.

(** Stable insertion for [Array.prototype.sort] with the comparator
    [(a, b) => b.length - a.length]. *)
Fixpoint insert_desc (x : jsstring) (l : list jsstring) : list jsstring :=
  match l with
  | [] => [x]
  | y :: l' =>
      if (Z.of_nat (len y) - Z.of_nat (len x) <=? 0)%Z then x :: l
      else y :: insert_desc x l'
  end.

Definition sort_desc (l : list jsstring) : list jsstring :=
  fold_right insert_desc [] l.

Definition extractMrzLine2FromText (text : jsstring) : option jsstring :=
  match first_line2 (split NL text) with
  | Some clean => Some clean
  | None =>
      let fullClean := clean_of text in
      let mrzMatches := matchAll re_line2_shape fullClean in
      if (0 <? List.length mrzMatches)%nat then hd_error (sort_desc mrzMatches)
      else None
  end.

End Fallback.
Import Fallback.

(* ------------------------------------------------------------------ *)
(** ** JavaScript values and JSON bodies *)

Module Json.

(** Values read from and written to JSON bodies.  Object keys are the
    field names of the source; a key may hold [undefined], which
    serialisation drops. *)
Inductive jsval : Type :=
| JUndefined
| JNull
| JBool (b : bool)
| JNum (n : Z)
| JStr (s : jsstring)
| JArr (l : list jsval)
| JObj (fields : list (String.string * jsval)).

Fixpoint assoc (k : String.string) (fields : list (String.string * jsval))
  : option jsval :=
  match fields with
  | [] => None
  | (k', v) :: rest => if String.eqb k k' then Some v else assoc k rest
  end.

(** [v.k], also [v?.k]: a missing key and a receiver that is no object
    both read as [undefined]. *)
Definition get (v : jsval) (k : String.string) : jsval :=
  match v with
  | JObj fields =>
      match assoc k fields with
      | Some x => x
      | None => JUndefined
      end
  | _ => JUndefined
  end.

(** Truthiness: [undefined], [null], [false], [0] and the empty string are
    falsy. *)
Definition truthy (v : jsval) : bool :=
  match v with
  | JUndefined | JNull => false
  | JBool b => b
  | JNum n => negb (n =? 0)%Z
  | JStr s => negb (len s =? 0)%nat
  | JArr _ | JObj _ => true
  end.

(** [a || b] *)
Definition js_or (a b : jsval) : jsval := if truthy a then a else b.

(** [v === "lit"] *)
Definition is_str (v : jsval) (lit : jsstring) : bool :=
  match v with
  | JStr s => str_eqb s lit
  | _ => false
  end.

(** A string or [null]. *)
Definition of_opt (o : option jsstring) : jsval :=
  match o with
  | Some s => JStr s
  | None => JNull
  end.

(** What [JSON.parse(JSON.stringify(v))] gives back: keys holding
    [undefined] are dropped, [undefined] array entries become [null]. *)
Fixpoint to_json (v : jsval) : jsval :=
  match v with
  | JArr l =>
      JArr (map (fun x => match to_json x with
                          | JUndefined => JNull
                          | y => y
                          end) l)
  | JObj fields =>
      JObj ((fix go (fs : list (String.string * jsval)) :=
               match fs with
               | [] => []
               | (k, x) :: rest =>
                   match to_json x with
                   | JUndefined => go rest
                   | y => (k, y) :: go rest
                   end
               end) fields)
  | _ => v
  end.

(** [...(cond && { fields })] inside an object literal. *)
Definition spread_if (cond : bool) (fields : list (String.string * jsval))
  : list (String.string * jsval) :=
  if cond then fields else [].

End Json.
Import Json.

(* ------------------------------------------------------------------ *)
(** ** The [/verify-id] handler

    The handler talks to the outside through child processes and the file
    system.  Each such call is answered by the [World], which sees the
    events so far, and is appended to the trace; a rejected promise or a
    thrown error is the left summand.  Logging and the random request id
    are left out; the semaphore is seen through its two events only. *)

Module Handler.

(** [e.message] of a thrown [Error]. *)
Definition Error : Type := jsstring.

(** How a spawned child ends: [close] with an exit code ([null] when
    killed by a signal), the timer firing first, or the [error] event. *)
Inductive ProcOutcome : Type :=
| Exited (code : option Z) (out err : jsstring)
| TimedOut
| SpawnFailed (msg : jsstring).

Inductive Event : Type :=
| EvSpawn (cmd : jsstring) (args : list jsstring) (timeoutMs : Z)
| EvMkdtemp (prefix : jsstring)
| EvWriteFile (path : jsstring)
| EvAccess (path : jsstring)
| EvReaddir (path : jsstring)
| EvReadFile (path : jsstring)
| EvRm (path : jsstring)
| EvAcquire
| EvRelease.

Definition Trace : Type := list Event.

Record World : Type := {
  spawn_outcome : Trace -> jsstring -> list jsstring -> Z -> ProcOutcome;
  mkdtemp_result : Trace -> jsstring -> Error + jsstring;
  writeFile_result : Trace -> jsstring -> jsstring -> Error + unit;
  access_result : Trace -> jsstring -> bool;
  readdir_result : Trace -> jsstring -> Error + list jsstring;
  readFile_result : Trace -> jsstring -> Error + jsstring;
  (** [JSON.parse]; [None] when it throws. *)
  JSON_parse : jsstring -> option jsval;
  os_tmpdir : jsstring;
  (** [pythonScriptPath], set once by [initPythonScript] at startup. *)
  pythonScriptPath : jsstring;
  OCR_TIMEOUT_MS : Z
}.

Definition M (A : Type) : Type := World -> Trace -> (Error + A) * Trace.

Definition ret {A : Type} (a : A) : M A := fun _ tr => (inr a, tr).

Definition bind {A B : Type} (m : M A) (k : A -> M B) : M B :=
  fun w tr =>
    match m w tr with
    | (inr a, tr') => k a w tr'
    | (inl e, tr') => (inl e, tr')
    end.

Definition throw {A : Type} (e : Error) : M A := fun _ tr => (inl e, tr).

(** [try { m } catch (e) { h e }] *)
Definition try_catch {A : Type} (m : M A) (h : Error -> M A) : M A :=
  fun w tr =>
    match m w tr with
    | (inr a, tr') => (inr a, tr')
    | (inl e, tr') => h e w tr'
    end.

(** [try { m } finally { f }], for an [f] that cannot throw. *)
Definition finally {A : Type} (m : M A) (f : Trace -> Trace) : M A :=
  fun w tr => let (r, tr') := m w tr in (r, f tr').

Definition ask {A : Type} (proj : World -> A) : M A := fun w tr => (inr (proj w), tr).

Declare Scope handler_scope.
Delimit Scope handler_scope with handler.
Notation "x <- m ;; k" := (bind m (fun x => k))
  (at level 100, m at next level, right associativity) : handler_scope.
Notation "m ;;; k" := (bind m (fun _ => k))
  (at level 100, right associativity) : handler_scope.
Local Open Scope handler_scope.

Definition emit (e : Event) : M unit := fun _ tr => (inr tt, tr ++ [e]).

Definition code_text (code : option Z) : jsstring :=
  match code with
  | Some c => numToString (Some c)
  | None => js "null"
  end.

(** [run(cmd, args, { timeoutMs })] *)
Definition run (cmd : jsstring) (args : list jsstring) (timeoutMs : Z)
  : M (jsstring * jsstring) :=
  fun w tr =>
    let tr' := tr ++ [EvSpawn cmd args timeoutMs] in
    match spawn_outcome w tr cmd args timeoutMs with
    | Exited code out err =>
        match code with
        | Some 0%Z => (inr (out, err), tr')
        | _ =>
            (inl (cmd ++ js " exited " ++ code_text code ++ js ": "
                  ++ slice 0 500 (if (len err =? 0)%nat then out else err)), tr')
        end
    | TimedOut =>
        (inl (cmd ++ js " timed out after " ++ numToString (Some timeoutMs) ++ js "ms"),
         tr')
    | SpawnFailed msg => (inl (cmd ++ js " spawn error: " ++ msg), tr')
    end.

Definition fs_mkdtemp (prefix : jsstring) : M jsstring :=
  fun w tr => (mkdtemp_result w tr prefix, tr ++ [EvMkdtemp prefix]).
Definition fs_writeFile (path data : jsstring) : M unit :=
  fun w tr => (writeFile_result w tr path data, tr ++ [EvWriteFile path]).
(** [fs.access(path)] inside [try]: [true] when it resolves. *)
Definition fs_access (path : jsstring) : M bool :=
  fun w tr => (inr (access_result w tr path), tr ++ [EvAccess path]).
Definition fs_readdir (path : jsstring) : M (list jsstring) :=
  fun w tr => (readdir_result w tr path, tr ++ [EvReaddir path]).
Definition fs_readFile (path : jsstring) : M jsstring :=
  fun w tr => (readFile_result w tr path, tr ++ [EvReadFile path]).

(** [path.join(dir, name)] on a directory path and a plain name. *)
Definition path_join (dir name : jsstring) : jsstring := dir ++ js "/" ++ name.

Definition endsWith (p s : jsstring) : bool := startsWith (rev p) (rev s).

Definition PDF_MAGIC : jsstring := [chr 37; chr 80; chr 68; chr 70].

Definition isPdfBuffer (buf : jsstring) : bool :=
  (4 <=? len buf)%nat && str_eqb (slice 0 4 buf) PDF_MAGIC.

(** The loop over the three names [pdftoppm] may give the first page. *)
Fixpoint first_accessible (tmpDir : jsstring) (candidates : list jsstring)
  : M (option jsstring) :=
  match candidates with
  | [] => ret None
  | c :: rest =>
      ok <- fs_access (path_join tmpDir c) ;;
      if ok then ret (Some (path_join tmpDir c))
      else first_accessible tmpDir rest
  end.

Definition readMrzWithPassportEye (pdfPath tmpDir : jsstring) : M jsval :=
  let imgBase := path_join tmpDir (js "page") in
  run (js "pdftoppm")
      [js "-r"; js "300"; js "-png"; js "-f"; js "1"; js "-l"; js "1"; pdfPath; imgBase]
      30000 ;;;
  found <- first_accessible tmpDir [js "page-1.png"; js "page-01.png"; js "page-001.png"] ;;
  imgPath <-
    match found with
    | Some p => ret p
    | None =>
        files <- fs_readdir tmpDir ;;
        match find (fun f => startsWith (js "page") f && endsWith (js ".png") f) files with
        | None => throw (js "pdftoppm n'a produit aucun fichier PNG")
        | Some png => ret (path_join tmpDir png)
        end
    end ;;
  script <- ask pythonScriptPath ;;
  res <- run (js "python3") [script; imgPath] 60000 ;;
  parse <- ask JSON_parse ;;
  match parse (trim (fst res)) with
  | Some v => ret v
  | None => throw (js "PassportEye output non-JSON: " ++ slice 0 200 (fst res))
  end.

Record Response : Type := {
  status : Z;
  (** The object handed to [res.json]. *)
  body : jsval
}.

Record Request : Type := {
  (** [req.file.buffer], when the upload is there. *)
  req_file : option jsstring;
  (** [req.query.debug === "true"] *)
  req_debug : bool
}.

Definition e_acute : ascii := chr 233.
Definition e_grave : ascii := chr 232.

Definition METHOD_PEYE : jsstring := js "passporteye".
Definition METHOD_TESS : jsstring := js "tesseract_fallback".

(** The response of the branch taken when PassportEye succeeded. *)
Definition primary_response (peyeResult : jsval) : Response :=
  {| status := 200;
     body := JObj [
       ("valid", JBool true);
       ("method", JStr METHOD_PEYE);
       ("card_number", get peyeResult "number");
       ("mrz_line1", get peyeResult "mrz_line1");
       ("mrz_line2", get peyeResult "mrz_line2");
       ("surname", get peyeResult "surname");
       ("names", get peyeResult "names");
       ("date_of_birth", get peyeResult "date_of_birth");
       ("expiration_date", get peyeResult "expiration_date");
       ("nationality", get peyeResult "nationality");
       ("sex", get peyeResult "sex");
       ("all_checksums_ok", get peyeResult "all_checksums_ok");
       ("valid_score", get peyeResult "valid_score")
     ]  |}.

(** [!s] for a string or [null]. *)
Definition falsy_opt (o : option jsstring) : bool :=
  match o with
  | Some s => (len s =? 0)%nat
  | None => true
  end.

Definition text_of (o : option jsstring) : jsstring :=
  match o with
  | Some s => s
  | None => js "null"
  end.

(** The tail of the handler once Tesseract gave its text: the section
    headed [Parse Tesseract]. *)
Definition secondary_response (text : jsstring) (debug : bool) : Response :=
  let cardNumber := extractCardNumberFromText text in
  let mrzLine2 := extractMrzLine2FromText text in
  if falsy_opt cardNumber then
    {| status := 422;
       body := JObj ([
         ("valid", JBool false);
         ("reason", JStr (js "card_number_not_found"));
         ("message", JStr (js "Impossible d'extraire le num" ++ [e_acute]
                           ++ js "ro de carte (PassportEye + Tesseract)."));
         ("method", JStr METHOD_TESS)
       ]  ++ spread_if debug [("raw_text", JStr text)]) |}
  else if falsy_opt mrzLine2 then
    {| status := 422;
       body := JObj ([
         ("valid", JBool false);
         ("reason", JStr (js "mrz_line2_not_found"));
         ("message", JStr (js "Impossible d'extraire la 2" ++ [e_grave]
                           ++ js "me ligne MRZ."));
         ("method", JStr METHOD_TESS);
         ("card_number", of_opt cardNumber)
       ]  ++ spread_if debug [("raw_text", JStr text)]) |}
  else
    let mrzMatch :=
      includes (normalizeMrz (text_of cardNumber)) (normalizeMrz (text_of mrzLine2)) in
    if negb mrzMatch then
      {| status := 422;
         body := JObj ([
           ("valid", JBool false);
           ("reason", JStr (js "card_number_mrz_mismatch"));
           ("message", JStr (js "Num" ++ [e_acute] ++ js "ro (" ++ text_of cardNumber
                             ++ js ") absent de la MRZ (" ++ text_of mrzLine2 ++ js ")."));
           ("method", JStr METHOD_TESS);
           ("card_number", of_opt cardNumber);
           ("mrz_line2", of_opt mrzLine2)
         ]  ++ spread_if debug [("raw_text", JStr text)]) |}
    else
      {| status := 200;
         body := JObj [
           ("valid", JBool true);
           ("method", JStr METHOD_TESS);
           ("card_number", of_opt cardNumber);
           ("mrz_line2", of_opt mrzLine2);
           ("all_checksums_ok", JNull);
           ("valid_score", JNull)
         ]  |}.

(** The Tesseract attempt: [ocrmypdf], then [pdftotext] with the sidecar
    file as a second source of the text. *)
Definition tesseract_text (inPdf tmpDir : jsstring) : M jsstring :=
  let outPdf := path_join tmpDir (js "output_ocr.pdf") in
  let outTxt := path_join tmpDir (js "output.txt") in
  timeout <- ask OCR_TIMEOUT_MS ;;
  run (js "ocrmypdf")
      [js "--force-ocr"; js "--rotate-pages"; js "--deskew";
       js "--oversample"; js "300"; js "--optimize"; js "0";
       js "--language"; js "fra";
       js "--sidecar"; outTxt;
       inPdf; outPdf]
      timeout ;;;
  try_catch
    (run (js "pdftotext") [js "-layout"; outPdf; outTxt] 30000 ;;;
     fs_readFile outTxt)
    (fun _ => try_catch (fs_readFile outTxt) (fun _ => ret [])).

Definition ocr_failed_response (peyeResult : jsval) (e : Error) (debug : bool)
  : Response :=
  {| status := 500;
     body := JObj ([
       ("valid", JBool false);
       ("reason", JStr (js "ocr_failed"));
       ("message", JStr (js "PassportEye et Tesseract ont tous les deux "
                         ++ [e_acute] ++ js "chou" ++ [e_acute] ++ js "."))
     ]  ++ spread_if debug [
       ("passporteye_error", get peyeResult "error");
       ("tesseract_error", JStr e)
     ] ) |}.

(** The body of the outer [try]. *)
Definition verify_id_body (buffer : jsstring) (debug : bool) (tmpDir : jsstring)
  : M Response :=
  let inPdf := path_join tmpDir (js "input.pdf") in
  fs_writeFile inPdf buffer ;;;
  peyeResult <- try_catch (readMrzWithPassportEye inPdf tmpDir) (fun _ => ret JNull) ;;
  if truthy (get peyeResult "ok") && truthy (get peyeResult "number")
  then ret (primary_response peyeResult)
  else
    r <- try_catch
           (text <- tesseract_text inPdf tmpDir ;; ret (inr text))
           (fun e => ret (inl (ocr_failed_response peyeResult e debug))) ;;
    match r with
    | inl resp => ret resp
    | inr text => ret (secondary_response text debug)
    end.

Definition json_error (st : Z) (msg : jsstring) : Response :=
  {| status := st; body := JObj [("error", JStr msg)] |}.

(** [app.post("/verify-id", ...)]: the response sent, or the error that
    escapes the handler. *)
Definition verify_id (req : Request) : M Response :=
  match req_file req with
  | None => ret (json_error 400 (js "Missing field 'file'"))
  | Some buffer =>
      if negb (isPdfBuffer buffer)
      then ret (json_error 415 (js "File does not appear to be a valid PDF"))
      else
        let debug := req_debug req in
        emit EvAcquire ;;;
        tmp <- ask os_tmpdir ;;
        tmpDir <- fs_mkdtemp (path_join tmp (js "verifid-")) ;;
        finally
          (try_catch (verify_id_body buffer debug tmpDir)
             (fun e => ret (json_error 500 e)))
          (fun tr => tr ++ [EvRelease; EvRm tmpDir])
  end.

End Handler.
Import Handler.

(* ------------------------------------------------------------------ *)
(** ** Outcome normaliser (n8n node fed by [/verify-id]) *)

Module Normalizer.

(** The [json] of the single item the node returns, from [items[0].json],
    for an item that is no [null]: the body of a response. *)
Definition normalize (input : jsval) : jsval :=
  if truthy (get input "error") then
    JObj [
      ("valid", JBool false);
      ("reason", JStr (js "microservice_error"));
      ("message", get input "error")
    ] 
  else if truthy (get input "valid") && is_str (get input "method") METHOD_PEYE then
    JObj [
      ("valid", JBool true);
      ("method", JStr METHOD_PEYE);
      ("confidence", get input "valid_score");
      ("all_checksums_ok", get input "all_checksums_ok");
      ("card_number", get input "card_number");
      ("surname", get input "surname");
      ("names", get input "names");
      ("date_of_birth", get input "date_of_birth");
      ("expiration_date", get input "expiration_date");
      ("nationality", get input "nationality");
      ("sex", get input "sex");
      ("mrz_line1", get input "mrz_line1");
      ("mrz_line2", get input "mrz_line2")
    ] 
  else if truthy (get input "valid") && is_str (get input "method") METHOD_TESS then
    JObj [
      ("valid", JBool true);
      ("method", JStr METHOD_TESS);
      ("confidence", JNull);
      ("all_checksums_ok", JNull);
      ("card_number", get input "card_number");
      ("mrz_line2", get input "mrz_line2");
      ("surname", JNull);
      ("names", JNull);
      ("date_of_birth", JNull);
      ("expiration_date", JNull);
      ("nationality", JNull);
      ("sex", JNull)
    ] 
  else
    JObj [
      ("valid", JBool false);
      ("reason", js_or (get input "reason") (JStr (js "unknown")));
      ("message", js_or (get input "message")
                    (JStr (js "Validation " ++ [e_acute] ++ js "chou" ++ [e_acute] ++ js "e")));
      ("card_number", js_or (get input "card_number") JNull);
      ("mrz_line2", js_or (get input "mrz_line2") JNull)
    ] .

End Normalizer.
Import Normalizer.

(* ------------------------------------------------------------------ *)
(** ** The n8n node fed by the Doctr [/ocr] endpoint *)

Module DoctrNode.

Definition checksums_json (c : Checksums) : jsval :=
  JObj [
    ("date_of_birth", JBool (cs_date_of_birth c));
    ("expiration_date", JBool (cs_expiration_date c));
    ("composite", JBool (cs_composite c));
    ("all_ok", JBool (cs_all_ok c))
  ].

(** [a ?? null] *)
Definition or_null (a : jsval) : jsval :=
  match a with
  | JUndefined | JNull => JNull
  | _ => a
  end.

(** What the node returns.  The first three outcomes are given by their
    JSON.  The last one, [mrz_not_found], is a constructor of its own with
    the two fields that vary: beside [valid: false] and its reason it
    carries a fixed message whose dash is U+2014, beyond the code units
    embedded here. *)
Inductive DoctrItem : Type :=
| DoctrJson (json : jsval)
| DoctrMrzNotFound (page_count : jsval) (raw_text : jsstring).

(** The single item the node returns from [items[0].json]; [None] when the
    script throws a TypeError: [input.error] is read on [null] or
    [undefined], or [(input.text || "").trim()] is called on a text that
    is no string. *)
Definition doctr_main (input : jsval) : option DoctrItem :=
  match input with
  | JUndefined | JNull => None
  | _ =>
      if truthy (get input "error") then
        Some (DoctrJson (JObj [
          ("valid", JBool false);
          ("reason", JStr (js "ocr_service_error"));
          ("message", get input "error")
        ]))
      else
        match js_or (get input "text") (JStr []) with
        | JStr t =>
            let rawText := trim t in
            let pageCount := or_null (get input "page_count") in
            if (len rawText =? 0)%nat then
              Some (DoctrJson (JObj [
                ("valid", JBool false);
                ("reason", JStr (js "empty_ocr_output"));
                ("message", JStr (js "Aucun texte extrait par le moteur OCR"));
                ("page_count", pageCount)
              ]))
            else
              match parseMrzTD1 rawText with
              | Some mrz =>
                  Some (DoctrJson (JObj [
                    ("valid", JBool true);
                    ("method", JStr (js "doctr_mrz"));
                    ("all_checksums_ok", JBool (cs_all_ok (checksums mrz)));
                    ("confidence",
                     JStr (if cs_all_ok (checksums mrz) then js "high" else js "medium"));
                    ("card_number", JStr (card_number mrz));
                    ("surname", JStr (surname mrz));
                    ("names", JStr (names mrz));
                    ("date_of_birth", of_opt (date_of_birth mrz));
                    ("expiration_date", of_opt (expiration_date mrz));
                    ("nationality", JStr (nationality mrz));
                    ("sex", JStr (sex mrz));
                    ("mrz_line1", JStr (mrz_line1 mrz));
                    ("mrz_line2", JStr (mrz_line2 mrz));
                    ("mrz_line3", JStr (mrz_line3 mrz));
                    ("checksums", checksums_json (checksums mrz));
                    ("page_count", pageCount);
                    ("raw_text", JStr rawText)
                  ]))
              | None => Some (DoctrMrzNotFound pageCount rawText)
              end
        | _ => None
        end
  end.

End DoctrNode.
Import DoctrNode.

(* ------------------------------------------------------------------ *)
(** ** Reference definitions, written from the specification *)

Module Reference.

(** The alphabet of the checksum: [A-Z], [0-9] and the filler. *)
Definition in_alphabet (c : ascii) : bool := isUpper c || isDigit c || Ascii.eqb c LT.

(** ICAO value of a character: a digit is worth itself, the filler 0, a
    letter 10 plus its rank in the alphabet, anything else 0. *)
Definition icao_value (c : ascii) : Z :=
  if isDigit c then Z.of_nat (code c) - 48
  else if Ascii.eqb c LT then 0
  else if isUpper c then 10 + (Z.of_nat (code c) - 65)
  else 0.

(** The weights 7, 3, 1 cycling by position. *)
Definition icao_weight (i : nat) : Z :=
  match (i mod 3)%nat with
  | 0%nat => 7
  | 1%nat => 3
  | _ => 1
  end.

(** The weighted products of the characters of [s], the first of which
    stands at position [i]. *)
Definition icao_terms (i : nat) (s : jsstring) : list Z :=
  map (fun ic => icao_value (snd ic) * icao_weight (fst ic))%Z
      (combine (seq i (len s)) s).

Definition zsum (l : list Z) : Z := fold_right Z.add 0%Z l.

Definition icao_checksum (s : jsstring) : Z := (zsum (icao_terms 0 s) mod 10)%Z.

(** A single check character read as an integer; nothing when it is no
    decimal digit. *)
Definition check_digit (c : ascii) : option Z :=
  if isDigit c then Some (Z.of_nat (code c) - 48)%Z else None.

(** The two-digit year of a six-digit date. *)
Definition year2 (s : jsstring) : Z :=
  (digitVal (nth 0 s "0"%char) * 10 + digitVal (nth 1 s "0"%char))%Z.

(** Century heuristic of the specification: above 30 the 1900s, else the
    2000s. *)
Definition century (yy : Z) : jsstring := if (30 <? yy)%Z then js "19" else js "20".

(** The composite input in the order the specification lists it. *)
Definition compositeData_spec (l1 l2 : jsstring) : jsstring :=
  slice 18 29 l2 ++ slice 5 30 l1 ++ slice 0 7 l2 ++ slice 8 15 l2.

(** What it means for a segment to be consumed by a pattern item. *)
Inductive seg_ok : item -> jsstring -> Prop :=
| seg_cls (p : ascii -> bool) (lo : nat) (hi : option nat) (seg : jsstring) :
    forallb p seg = true ->
    lo <= len seg ->
    (forall h, hi = Some h -> len seg <= h) ->
    seg_ok (Cls p lo hi) seg
| seg_bol : seg_ok Bol []
| seg_eol : seg_ok Eol []
| seg_wordb : seg_ok WordB [].

(** A pattern made of quantified classes only. *)
Definition is_cls (it : item) : Prop :=
  match it with
  | Cls _ _ _ => True
  | _ => False
  end.

(** [u] occurs in [t]. *)
Definition substring_of (u t : jsstring) : Prop :=
  exists pre post, t = pre ++ u ++ post.

(** White space as the specification strips it: TAB, LF, VT, FF, CR, the
    space and the no-break space. *)
Definition whitespace : jsstring :=
  [chr 9; chr 10; chr 11; chr 12; chr 13; chr 32; chr 160].

Definition is_whitespace (c : ascii) : bool := existsb (Ascii.eqb c) whitespace.

(** The small letters that have their capital among the code units
    embedded here, and these capitals in the same order: the 26 letters
    and the accented letters on both sides of the multiplication and the
    division sign. *)
Definition small_letters : jsstring :=
  js "abcdefghijklmnopqrstuvwxyz" ++ map chr (seq 224 23) ++ map chr (seq 248 7).

Definition capital_letters : jsstring :=
  js "ABCDEFGHIJKLMNOPQRSTUVWXYZ" ++ map chr (seq 192 23) ++ map chr (seq 216 7).

(** The capital standing in [capitals] where [c] stands in [smalls]. *)
Fixpoint capital_in (smalls capitals : jsstring) (c : ascii) : option ascii :=
  match smalls, capitals with
  | x :: smalls', y :: capitals' =>
      if Ascii.eqb c x then Some y else capital_in smalls' capitals' c
  | _, _ => None
  end.

(** A character in upper case: a small letter becomes its capital, the
    sharp s becomes [SS], anything else stays.  So do the y with
    diaeresis and the micro sign, whose capitals lie beyond these code
    units: neither they nor their capitals belong to the MRZ alphabet. *)
Definition uppercased (c : ascii) : jsstring :=
  match capital_in small_letters capital_letters c with
  | Some y => [y]
  | None => if Ascii.eqb c (chr 223) then js "SS" else [c]
  end.

(** A text normalised as the specification says for the fallback: white
    space stripped, what is left in upper case. *)
Definition normalized (s : jsstring) : jsstring :=
  flat_map (fun c => if is_whitespace c then [] else uppercased c) s.

(** The shape of the second MRZ line: 9 to 12 digits, at least 5 digits
    or capitals, a filler, at least 10 characters of the MRZ alphabet. *)
Definition line2_shape (u : jsstring) : Prop :=
  exists a b c,
    u = a ++ b ++ [LT] ++ c /\
    forallb isDigit a = true /\ 9 <= len a <= 12 /\
    forallb isAlnumUpper b = true /\ 5 <= len b /\
    forallb isMrzChar c = true /\ 10 <= len c.

(** A cleaned line that may be the second MRZ line: at least 27
    characters, all of the MRZ alphabet, 9 to 12 digits in front, and a
    filler somewhere. *)
Definition line2_candidate (clean : jsstring) : Prop :=
  27 <= len clean /\
  forallb isMrzChar clean = true /\
  (exists k, 9 <= k <= 12 /\ k <= len clean /\ forallb isDigit (firstn k clean) = true) /\
  In LT clean.

(** The processes of the fallback engine. *)
Definition is_fallback_spawn (e : Event) : bool :=
  match e with
  | EvSpawn cmd _ _ => str_eqb cmd (js "ocrmypdf") || str_eqb cmd (js "pdftotext")
  | _ => false
  end.

(** What the primary attempt may do: rasterise the page, look for the
    image, run the Python reader. *)
Definition primary_event (e : Event) : Prop :=
  match e with
  | EvSpawn cmd _ _ => cmd = js "pdftoppm" \/ cmd = js "python3"
  | EvAccess _ | EvReaddir _ => True
  | _ => False
  end.

(** Every run of [m] only appends events that satisfy [P]. *)
Definition appends {A : Type} (P : Event -> Prop) (m : M A) : Prop :=
  forall w tr r tr', m w tr = (r, tr') -> exists evs, tr' = tr ++ evs /\ Forall P evs.

(** Every value [m] returns satisfies [Q]. *)
Definition returns {A : Type} (Q : A -> Prop) (m : M A) : Prop :=
  forall w tr a tr', m w tr = (inr a, tr') -> Q a.

(** The responses [/verify-id] can send for a given debug flag. *)
Inductive verify_id_response (debug : bool) : Response -> Prop :=
| resp_missing : verify_id_response debug (json_error 400 (js "Missing field 'file'"))
| resp_not_pdf :
    verify_id_response debug (json_error 415 (js "File does not appear to be a valid PDF"))
| resp_fatal (e : Error) : verify_id_response debug (json_error 500 e)
| resp_primary (peye : jsval) :
    truthy (get peye "ok") = true -> truthy (get peye "number") = true ->
    verify_id_response debug (primary_response peye)
| resp_ocr_failed (peye : jsval) (e : Error) :
    verify_id_response debug (ocr_failed_response peye e debug)
| resp_secondary (text : jsstring) :
    verify_id_response debug (secondary_response text debug).

Definition reason_of (resp : Response) : jsval := get (body resp) "reason".

(** The body of a verified fallback outcome. *)
Definition verified_secondary_body (cn l2 : jsstring) : jsval :=
  JObj [("valid", JBool true); ("method", JStr METHOD_TESS);
        ("card_number", JStr cn); ("mrz_line2", JStr l2);
        ("all_checksums_ok", JNull); ("valid_score", JNull)].

(** The body as it travels: what the client parses back. *)
Definition wire (resp : Response) : jsval := to_json (body resp).

(** The primary attempt of a request: the workspace is made, the upload
    written, and PassportEye's reader returns [peye], the trace then
    being [tr1]. *)
Definition primary_returns (w : World) (tr0 : Trace) (buffer tmpDir : jsstring)
           (peye : jsval) (tr1 : Trace) : Prop :=
  let prefix := path_join (os_tmpdir w) (js "verifid-") in
  let inPdf := path_join tmpDir (js "input.pdf") in
  mkdtemp_result w (tr0 ++ [EvAcquire]) prefix = inr tmpDir /\
  writeFile_result w (tr0 ++ [EvAcquire; EvMkdtemp prefix]) inPdf buffer = inr tt /\
  readMrzWithPassportEye inPdf tmpDir w
    (tr0 ++ [EvAcquire; EvMkdtemp prefix; EvWriteFile inPdf]) = (inr peye, tr1).







(** A candidate cut or filled with [<] to 30 characters. *)
Definition fit30 (c : jsstring) : jsstring := firstn 30 (c ++ repeat LT 30).

End Reference.
Import Reference.

(* ------------------------------------------------------------------ *)
(** ** Sample inputs *)

Module Samples.

Definition sample_td1 : jsstring :=
  js "IDFRAX4RTBPFW46<<<<<<<<<<<<<<<" ++ [NL] ++
  js "9007138F3002119FRA<<<<<<<<<<<6" ++ [NL] ++
  js "MARTIN<<MAELYS<GAELLE<MARIE<<<".

(** A block whose first line starts with the marker but holds digits
    where the issuing country is expected. *)
Definition td1_without_country : jsstring :=
  js "ID1234567890123456789012345678" ++ [NL] ++
  js "9007138F3002119FRA<<<<<<<<<<<6" ++ [NL] ++
  js "MARTIN<<MAELYS<GAELLE<MARIE<<<".

(** A text whose second line is a candidate for the second MRZ line. *)
Definition text_with_line2 : jsstring :=
  js "CARTE NATIONALE" ++ [NL] ++ js "8806923102858CORINNE<<<<<<<6512068F6".

(** The same line as a scan may give it, with blanks and small letters. *)
Definition spaced_line2 : jsstring :=
  js " 880692310 2858corinne<<<<<<<6512068f6 ".

Definition text_with_spaced_line2 : jsstring :=
  js "Carte nationale" ++ [NL] ++ spaced_line2.

(** A text with the shape inside a line that is no candidate. *)
Definition text_with_shape : jsstring :=
  js "xx 8806923102858CORINNE<<<<<<<6512068F6 yy".


Definition dq : ascii := chr 34.

(** Output of the Python reader on a readable card. *)
Definition peye_stdout_ok : jsstring :=
  js "{" ++ [dq] ++ js "ok" ++ [dq] ++ js ": true, " ++ [dq] ++ js "number" ++ [dq]
  ++ js ": " ++ [dq] ++ js "X4RTBPFW4" ++ [dq] ++ js "}".

Definition peye_value_ok : jsval :=
  JObj [("ok", JBool true); ("number", JStr (js "X4RTBPFW4"))].

(** Output of the Python reader when it sees no MRZ. *)
Definition peye_stdout_none : jsstring :=
  js "{" ++ [dq] ++ js "ok" ++ [dq] ++ js ": false, " ++ [dq] ++ js "error" ++ [dq]
  ++ js ": " ++ [dq] ++ js "no_mrz_detected" ++ [dq] ++ js "}".

Definition peye_value_none : jsval :=
  JObj [("ok", JBool false); ("error", JStr (js "no_mrz_detected"))].

(** [JSON.parse] on the two outputs above. *)
Definition sample_parse (s : jsstring) : option jsval :=
  if str_eqb s peye_stdout_ok then Some peye_value_ok
  else if str_eqb s peye_stdout_none then Some peye_value_none
  else None.

(** Text read back from Tesseract: a labelled card number and the second
    MRZ line that holds it. *)
Definition tesseract_text_ok : jsstring :=
  js "Carte N" ++ [chr 176] ++ js " 880692310285" ++ [NL]
  ++ js "8806923102858CORINNE<<<<<<<6512068F6".

(** A world where every tool runs, the Python reader printing [out]. *)
Definition sample_world (out : jsstring) : World := {|
  spawn_outcome := fun _ cmd _ _ =>
    if str_eqb cmd (js "python3") then Exited (Some 0%Z) out []
    else Exited (Some 0%Z) [] [];
  mkdtemp_result := fun _ prefix => inr (prefix ++ js "a1b2c3");
  writeFile_result := fun _ _ _ => inr tt;
  access_result := fun _ path => endsWith (js "page-1.png") path;
  readdir_result := fun _ _ => inr [js "page-1.png"];
  readFile_result := fun _ _ => inr tesseract_text_ok;
  JSON_parse := sample_parse;
  os_tmpdir := js "/tmp";
  pythonScriptPath := js "/tmp/mrz_reader.py";
  OCR_TIMEOUT_MS := 180000
|}.

Definition sample_request : Request := {|
  req_file := Some (PDF_MAGIC ++ js "-1.7 scan");
  req_debug := false
|}.

End Samples.
Import Samples.

(* ------------------------------------------------------------------ *)
(** ** The semaphore of [server.js]

    The event loop runs [acquire] and the release handles one at a time,
    so the semaphore is a state machine.  A pending [acquire] is named by
    a number; [sem_resolved] lists, in order, the calls whose promise has
    been resolved. *)

Module Semaphore.

Record Sem : Type := {
  sem_queue : list nat;
  sem_running : Z;
  sem_max : Z;
  sem_resolved : list nat
}.

(** [new Semaphore(max)] *)
Definition new_sem (max : Z) : Sem :=
  {| sem_queue := []; sem_running := 0; sem_max := max; sem_resolved := [] |}.

(** The closure [tryRun] of the call [id]. *)
Definition tryRun (id : nat) (s : Sem) : Sem :=
  if (sem_running s <? sem_max s)%Z then
    {| sem_queue := sem_queue s;
       sem_running := sem_running s + 1;
       sem_max := sem_max s;
       sem_resolved := sem_resolved s ++ [id] |}
  else
    {| sem_queue := sem_queue s ++ [id];
       sem_running := sem_running s;
       sem_max := sem_max s;
       sem_resolved := sem_resolved s |}.

(** [sem.acquire()] for the call [id]. *)
Definition acquire (id : nat) (s : Sem) : Sem := tryRun id s.

(** The handle a resolved [acquire] hands out. *)
Definition release (s : Sem) : Sem :=
  let running := (sem_running s - 1)%Z in
  match sem_queue s with
  | [] =>
      {| sem_queue := [];
         sem_running := running;
         sem_max := sem_max s;
         sem_resolved := sem_resolved s |}
  | next :: rest =>
      tryRun next
        {| sem_queue := rest;
           sem_running := running;
           sem_max := sem_max s;
           sem_resolved := sem_resolved s |}
  end.

Inductive sem_op : Type :=
| Acquire (id : nat)
| Release.

(** Runs the calls in order.  A handle exists only once its [acquire] is
    resolved and the callers use it once: a [Release] with no resolved
    call left to release is refused ([None]).  [released] counts the
    handles used so far. *)
Fixpoint sem_run (s : Sem) (released : nat) (ops : list sem_op) : option (Sem * nat) :=
  match ops with
  | [] => Some (s, released)
  | Acquire id :: rest => sem_run (acquire id s) released rest
  | Release :: rest =>
      if (released <? List.length (sem_resolved s))%nat
      then sem_run (release s) (S released) rest
      else None
  end.

(** The calls of [acquire], in order of arrival. *)
Fixpoint arrivals (ops : list sem_op) : list nat :=
  match ops with
  | [] => []
  | Acquire id :: rest => id :: arrivals rest
  | Release :: rest => arrivals rest
  end.

End Semaphore.
Import Semaphore.

(* ------------------------------------------------------------------ *)
(** ** Language check ([sanitizeLang]) *)

Module Lang.

(** [c.toLowerCase()] of one code unit of the Latin-1 range. *)
Definition lowerChar (c : ascii) : ascii :=
  if isUpper c then chr (code c + 32)
  else if in_range 192 222 c && negb (code c =? 215)%nat then chr (code c + 32)
  else c.

(** [s.toLowerCase()] *)
Definition toLowerCase (s : jsstring) : jsstring := map lowerChar s.

Definition SUPPORTED_LANGS : list jsstring :=
  [js "fra"; js "eng"; js "deu"; js "spa"; js "ita"; js "por"; js "nld";
   js "ara"; js "chi_sim"; js "chi_tra"; js "jpn"; js "kor"; js "rus"].

(** [SUPPORTED_LANGS.has(lang)] *)
Definition has_lang (lang : jsstring) : bool := existsb (str_eqb lang) SUPPORTED_LANGS.

(** [l.join(sep)] *)
Fixpoint join (sep : jsstring) (l : list jsstring) : jsstring :=
  match l with
  | [] => []
  | [x] => x
  | x :: rest => x ++ sep ++ join sep rest
  end.

(** An [Error] that carries a [status]. *)
Record HttpError : Type := {
  err_message : jsstring;
  err_status : Z
}.

Definition sanitizeLang (raw : jsstring) : HttpError + jsstring :=
  let lang := trim (toLowerCase raw) in
  if negb (has_lang lang) then
    inl {| err_message :=
             js "Unsupported lang: '" ++ lang ++ js "'. Supported: "
             ++ join (js ", ") SUPPORTED_LANGS;
           err_status := 400 |}
  else inr lang.

End Lang.
Import Lang.

(* ------------------------------------------------------------------ *)
(** ** The [/ocr] endpoint of [server.js] ([runOcr] and its handler) *)

Module Ocr.

Definition PDFINFO_TIMEOUT_MS : Z := 20000.

(** 2^53: up to it every integer is a double. *)
Definition MAX_EXACT : Z := 9007199254740992.

(** What [runOcr] returns: [page_count] is [null] ([None]) or a number,
    NaN included; [pdf_base64] is there only on demand. *)
Record OcrResult : Type := {
  ocr_text : jsstring;
  ocr_page_count : option jsnum;
  ocr_pdf_base64 : option jsstring
}.

(** The page count read from the output of [pdfinfo]: the first line that
    starts with [pages:] in any case, cut at its colons, the second piece
    trimmed and parsed.  [parseInt] is embedded with exact integers: it is
    the source's up to [MAX_EXACT], above which the source rounds to a
    double. *)
Definition page_count_of (out : jsstring) : option jsnum :=
  match find (fun l => startsWith (js "pages:") (toLowerCase l)) (split NL out) with
  | Some line =>
      if (len line =? 0)%nat then None
      else Some (parseInt (trim (nth 1 (split ":"%char line) [])))
  | None => None
  end.

(** The arguments of the [ocrmypdf] call of [runOcr]. *)
Definition ocr_args (lang tmpDir : jsstring) : list jsstring :=
  [js "--force-ocr"; js "--rotate-pages"; js "--deskew";
   js "--oversample"; js "300"; js "--optimize"; js "0";
   js "--language"; lang;
   js "--sidecar"; path_join tmpDir (js "output.txt");
   path_join tmpDir (js "input.pdf"); path_join tmpDir (js "output_ocr.pdf")].

(** The body of the [try] of [runOcr]; [toBase64] is
    [buf.toString("base64")]. *)
Definition runOcr_body (toBase64 : jsstring -> jsstring)
           (buffer lang : jsstring) (returnPdf : bool) (tmpDir : jsstring)
  : M OcrResult :=
  (let inPdf := path_join tmpDir (js "input.pdf") in
   let outPdf := path_join tmpDir (js "output_ocr.pdf") in
   let outTxt := path_join tmpDir (js "output.txt") in
   fs_writeFile inPdf buffer ;;;
   timeout <- ask OCR_TIMEOUT_MS ;;
   run (js "ocrmypdf") (ocr_args lang tmpDir) timeout ;;;
   text <- try_catch
             (run (js "pdftotext") [js "-layout"; outPdf; outTxt] 30000 ;;;
              fs_readFile outTxt)
             (fun _ => try_catch (fs_readFile outTxt) (fun _ => ret [])) ;;
   page_count <- try_catch
                   (res <- run (js "pdfinfo") [outPdf] PDFINFO_TIMEOUT_MS ;;
                    ret (page_count_of (fst res)))
                   (fun _ => ret None) ;;
   if returnPdf then
     pdfBuf <- fs_readFile outPdf ;;
     ret {| ocr_text := trim text;
            ocr_page_count := page_count;
            ocr_pdf_base64 := Some (toBase64 pdfBuf) |}
   else
     ret {| ocr_text := trim text;
            ocr_page_count := page_count;
            ocr_pdf_base64 := None |})%handler.

(** [runOcr({ buffer, lang, returnPdf })] *)
Definition runOcr (toBase64 : jsstring -> jsstring)
           (buffer lang : jsstring) (returnPdf : bool) : M OcrResult :=
  (tmp <- ask os_tmpdir ;;
   tmpDir <- fs_mkdtemp (path_join tmp (js "ocr-")) ;;
   finally (runOcr_body toBase64 buffer lang returnPdf tmpDir)
     (fun tr => tr ++ [EvRm tmpDir]))%handler.

(** A number or [null] in a JSON body; NaN is written as [null]. *)
Definition count_json (c : option jsnum) : jsval :=
  match c with
  | Some (Some n) => JNum n
  | _ => JNull
  end.

(** The body [res.json(result)] sends. *)
Definition result_json (r : OcrResult) : jsval :=
  JObj ([("text", JStr (ocr_text r)); ("page_count", count_json (ocr_page_count r))]
        ++ match ocr_pdf_base64 r with
           | Some b => [("pdf_base64", JStr b)]
           | None => []
           end).

Record OcrRequest : Type := {
  (** [req.file.buffer], when the upload is there. *)
  ocr_file : option jsstring;
  (** [req.query.lang], when given as one string. *)
  ocr_lang : option jsstring;
  (** [req.query.return_pdf === "true"] *)
  ocr_return_pdf : bool
}.

(** [req.query.lang || "fra"] *)
Definition lang_or_default (l : option jsstring) : jsstring :=
  match l with
  | Some x => if (len x =? 0)%nat then js "fra" else x
  | None => js "fra"
  end.

(** [e.status || 400] *)
Definition status_or_400 (st : Z) : Z := if (st =? 0)%Z then 400%Z else st.

(** [app.post("/ocr", ...)] *)
Definition ocr_handler (toBase64 : jsstring -> jsstring) (req : OcrRequest) : M Response :=
  match ocr_file req with
  | None => ret (json_error 400 (js "Missing field 'file'"))
  | Some buffer =>
      if negb (isPdfBuffer buffer)
      then ret (json_error 415 (js "File does not appear to be a valid PDF"))
      else
        match sanitizeLang (lang_or_default (ocr_lang req)) with
        | inl e => ret (json_error (status_or_400 (err_status e)) (err_message e))
        | inr lang =>
            (emit EvAcquire ;;;
             finally
               (try_catch
                  (result <- runOcr toBase64 buffer lang (ocr_return_pdf req) ;;
                   ret {| status := 200; body := result_json result |})
                  (fun e => ret (json_error 500 e)))
               (fun tr => tr ++ [EvRelease]))%handler
        end
  end.

End Ocr.
Import Ocr.

(* ------------------------------------------------------------------ *)
(** ** Notions used by the further properties *)

Module Notions.

(** The characters [normalizeLine] can leave: digits, capitals other than
    the letter O, the underscore and the filler. *)
Definition isNormChar (c : ascii) : bool :=
  (isUpper c && negb (Ascii.eqb c "O"%char)) || isDigit c
  || Ascii.eqb c "_"%char || Ascii.eqb c LT.

(** The characters of a candidate line: the MRZ alphabet less the letter
    O, which [normalizeLine] turns into a zero. *)
Definition isLineChar (c : ascii) : bool :=
  isMrzChar c && negb (Ascii.eqb c "O"%char).

(** The characters whose upper case is one of the code units embedded
    here: all but the y with diaeresis and the micro sign, which
    [toUpperCase] sends to U+0178 and U+039C. *)
Definition upper_in_range (c : ascii) : bool :=
  negb (code c =? 255)%nat && negb (code c =? 181)%nat.

(** The letters [toUpperCase] changes: [a] to [z], the micro sign, the
    sharp s, the accented small letters and the y with diaeresis. *)
Definition hasCapital (c : ascii) : bool :=
  isLower c || (code c =? 181)%nat
  || (in_range 223 255 c && negb (code c =? 247)%nat).

(** The characters [normalizeMrz] can leave: no white space, no letter
    that has a capital, none of the letters O, I and B. *)
Definition isMrzNormChar (c : ascii) : bool :=
  negb (isSpace c) && negb (hasCapital c)
  && negb (Ascii.eqb c "O"%char) && negb (Ascii.eqb c "I"%char)
  && negb (Ascii.eqb c "B"%char).

(** The events the body of [/verify-id] may add once the slot is taken
    and the workspace made. *)
Definition body_event (e : Event) : Prop :=
  match e with
  | EvSpawn _ _ _ | EvWriteFile _ | EvAccess _ | EvReaddir _ | EvReadFile _ => True
  | _ => False
  end.

(** A spawn of the command [cmd]. *)
Definition is_spawn_of (cmd : jsstring) (e : Event) : bool :=
  match e with
  | EvSpawn c _ _ => str_eqb c cmd
  | _ => false
  end.

Definition spawn_count (cmd : jsstring) (tr : Trace) : nat :=
  List.length (filter (is_spawn_of cmd) tr).

(** Every run of [m] spawns [cmd] at most [n] times. *)
Definition spawns_le {A : Type} (cmd : jsstring) (n : nat) (m : M A) : Prop :=
  forall w tr r tr', m w tr = (r, tr') ->
    exists evs, tr' = tr ++ evs /\ spawn_count cmd evs <= n.

(** [m] never throws. *)
Definition never_throws {A : Type} (m : M A) : Prop :=
  forall w tr, exists a tr', m w tr = (inr a, tr').

(** The three reasons of a 422. *)
Definition rejection_reasons : list jsstring :=
  [js "card_number_not_found"; js "mrz_line2_not_found"; js "card_number_mrz_mismatch"].

(** The keys that only a debug request may see. *)
Definition debug_keys : list String.string :=
  ["raw_text"; "passporteye_error"; "tesseract_error"].

(** The primary attempt of a request did not succeed: the workspace is
    made and the upload written, and PassportEye's reader throws or returns
    a value without a truthy [ok] and [number]; [tr1] is the trace then. *)
Definition primary_fails (w : World) (tr0 : Trace) (buffer tmpDir : jsstring)
           (peye : jsval) (tr1 : Trace) : Prop :=
  let prefix := path_join (os_tmpdir w) (js "verifid-") in
  let inPdf := path_join tmpDir (js "input.pdf") in
  mkdtemp_result w (tr0 ++ [EvAcquire]) prefix = inr tmpDir /\
  writeFile_result w (tr0 ++ [EvAcquire; EvMkdtemp prefix]) inPdf buffer = inr tt /\
  try_catch (readMrzWithPassportEye inPdf tmpDir) (fun _ => ret JNull) w
    (tr0 ++ [EvAcquire; EvMkdtemp prefix; EvWriteFile inPdf]) = (inr peye, tr1) /\
  truthy (get peye "ok") && truthy (get peye "number") = false.

(** The arguments of the [ocrmypdf] call of [/verify-id]. *)
Definition ocrmypdf_args (tmpDir : jsstring) : list jsstring :=
  [js "--force-ocr"; js "--rotate-pages"; js "--deskew";
   js "--oversample"; js "300"; js "--optimize"; js "0";
   js "--language"; js "fra";
   js "--sidecar"; path_join tmpDir (js "output.txt");
   path_join tmpDir (js "input.pdf"); path_join tmpDir (js "output_ocr.pdf")].

(** The commands the two endpoints may spawn. *)
Definition verify_id_commands : list jsstring :=
  [js "pdftoppm"; js "python3"; js "ocrmypdf"; js "pdftotext"].
Definition ocr_commands : list jsstring :=
  [js "ocrmypdf"; js "pdftotext"; js "pdfinfo"].

(** One for a command of the list, zero for any other. *)
Definition once_if_in (cmds : list jsstring) (cmd : jsstring) : nat :=
  if existsb (fun c => str_eqb c cmd) cmds then 1 else 0.

(** The number a run of decimal digits writes. *)
Definition decimal_value (ds : jsstring) : Z :=
  fold_left (fun a c => (a * 10 + digitVal c)%Z) ds 0%Z.

(** The lines of an output, each closed by a line feed. *)
Definition unlines (ls : list jsstring) : jsstring :=
  flat_map (fun l => l ++ [NL]) ls.

End Notions.
Import Notions.

(* ------------------------------------------------------------------ *)
(** ** Further sample inputs *)

Module MoreSamples.

(** The sample world with a disk that refuses the workspace. *)
Definition world_no_workspace : World := {|
  spawn_outcome := spawn_outcome (sample_world peye_stdout_none);
  mkdtemp_result := fun _ _ => inl (js "ENOSPC: no space left on device");
  writeFile_result := writeFile_result (sample_world peye_stdout_none);
  access_result := access_result (sample_world peye_stdout_none);
  readdir_result := readdir_result (sample_world peye_stdout_none);
  readFile_result := readFile_result (sample_world peye_stdout_none);
  JSON_parse := sample_parse;
  os_tmpdir := js "/tmp";
  pythonScriptPath := js "/tmp/mrz_reader.py";
  OCR_TIMEOUT_MS := 180000
|}.

(** The sample world where [ocrmypdf] exits with code 2. *)
Definition world_ocr_fails : World := {|
  spawn_outcome := fun _ cmd _ _ =>
    if str_eqb cmd (js "python3") then Exited (Some 0%Z) peye_stdout_none []
    else if str_eqb cmd (js "ocrmypdf") then Exited (Some 2%Z) [] (js "InputFileError")
    else Exited (Some 0%Z) [] [];
  mkdtemp_result := fun _ prefix => inr (prefix ++ js "a1b2c3");
  writeFile_result := fun _ _ _ => inr tt;
  access_result := fun _ path => endsWith (js "page-1.png") path;
  readdir_result := fun _ _ => inr [js "page-1.png"];
  readFile_result := fun _ _ => inr tesseract_text_ok;
  JSON_parse := sample_parse;
  os_tmpdir := js "/tmp";
  pythonScriptPath := js "/tmp/mrz_reader.py";
  OCR_TIMEOUT_MS := 180000
|}.

(** The sample world where [pdftotext] and [pdfinfo] time out. *)
Definition world_side_tools_fail : World := {|
  spawn_outcome := fun _ cmd _ _ =>
    if str_eqb cmd (js "pdftotext") || str_eqb cmd (js "pdfinfo") then TimedOut
    else Exited (Some 0%Z) [] [];
  mkdtemp_result := fun _ prefix => inr (prefix ++ js "a1b2c3");
  writeFile_result := fun _ _ _ => inr tt;
  access_result := fun _ _ => false;
  readdir_result := fun _ _ => inr [];
  readFile_result := fun _ _ => inr tesseract_text_ok;
  JSON_parse := sample_parse;
  os_tmpdir := js "/tmp";
  pythonScriptPath := js "/tmp/mrz_reader.py";
  OCR_TIMEOUT_MS := 180000
|}.

(** The sample world where the upload is on the disk and readable, and
    [pdftoppm] leaves no image. *)
Definition world_no_image : World := {|
  spawn_outcome := fun _ _ _ _ => Exited (Some 0%Z) [] [];
  mkdtemp_result := fun _ prefix => inr (prefix ++ js "a1b2c3");
  writeFile_result := fun _ _ _ => inr tt;
  access_result := fun _ path => endsWith (js "input.pdf") path;
  readdir_result := fun _ _ => inr [js "input.pdf"; js "pages.txt"];
  readFile_result := fun _ _ => inr tesseract_text_ok;
  JSON_parse := sample_parse;
  os_tmpdir := js "/tmp";
  pythonScriptPath := js "/tmp/mrz_reader.py";
  OCR_TIMEOUT_MS := 180000
|}.

Definition sample_ocr_request : OcrRequest := {|
  ocr_file := Some (PDF_MAGIC ++ js "-1.7 scan");
  ocr_lang := Some (js " FRA ");
  ocr_return_pdf := false
|}.

(** A stand-in for [buf.toString("base64")]. *)
Definition sample_base64 (b : jsstring) : jsstring := js "JVBERi0=".

End MoreSamples.
Import MoreSamples.

(* ================================================================== *)
(** * Properties *)

(** ** Characters *)

(** Case analysis over the 256 code units. *)
Ltac ascii_cases c :=
  destruct c as [[] [] [] [] [] [] [] []].

(** Splits a list of segments along the items of a concrete pattern. *)
Ltac invert_segs :=
  repeat match goal with
         | H : Forall2 seg_ok (_ :: _) _ |- _ => inversion H; clear H; subst
         | H : Forall2 seg_ok [] _ |- _ => inversion H; clear H; subst
         end.

Lemma charValue_icao (c : ascii) : charValue c = Some (icao_value c).
Proof. ascii_cases c; reflexivity. Qed.

Lemma icao_value_nonneg (c : ascii) : (0 <= icao_value c <= 35)%Z.
Proof. ascii_cases c; vm_compute; split; discriminate. Qed.

Lemma icao_value_outside (c : ascii) : in_alphabet c = false -> icao_value c = 0%Z.
Proof. ascii_cases c; vm_compute; intro H; try reflexivity; discriminate H. Qed.

Lemma isDigit_cases (c : ascii) :
  isDigit c = true -> In c (js "0123456789").
Proof. ascii_cases c; vm_compute; intro H; try discriminate H; tauto. Qed.

Lemma parseInt_single (c : ascii) : parseInt [c] = check_digit c.
Proof. ascii_cases c; reflexivity. Qed.

(** ** Checksum engine *)

Lemma weight_at_icao (i : nat) : weight_at i = Some (icao_weight i).
Proof.
  unfold weight_at, icao_weight.
  pose proof (Nat.mod_upper_bound i 3 ltac:(discriminate)) as Hlt.
  destruct (i mod 3) as [|[|[|k]]]; try reflexivity; lia.
Qed.

Lemma icao_weight_pos (i : nat) : (0 < icao_weight i)%Z.
Proof. unfold icao_weight; destruct (i mod 3) as [|[|k]]; lia. Qed.

Lemma icao_terms_cons (i : nat) (c : ascii) (s : jsstring) :
  icao_terms i (c :: s) = (icao_value c * icao_weight i)%Z :: icao_terms (S i) s.
Proof. reflexivity. Qed.

Lemma mrzChecksum_loop_sum (s : jsstring) :
  forall i t, mrzChecksum_loop s i (Some t) = Some (t + zsum (icao_terms i s))%Z.
Proof.
  induction s as [|c s IH]; intros i t.
  - simpl. f_equal. unfold zsum, icao_terms. simpl. lia.
  - cbn [mrzChecksum_loop]. rewrite charValue_icao, weight_at_icao.
    cbn [num_mul num_add]. rewrite IH, icao_terms_cons.
    f_equal. unfold zsum. simpl. lia.
Qed.

Lemma zsum_icao_terms_nonneg (s : jsstring) : forall i, (0 <= zsum (icao_terms i s))%Z.
Proof.
  induction s as [|c s IH]; intro i.
  - unfold zsum, icao_terms; simpl; lia.
  - rewrite icao_terms_cons. unfold zsum in *. simpl.
    pose proof (icao_value_nonneg c). pose proof (icao_weight_pos i).
    specialize (IH (S i)). nia.
Qed.

Lemma mrzChecksum_icao (s : jsstring) : mrzChecksum s = Some (icao_checksum s).
Proof.
  unfold mrzChecksum, icao_checksum.
  rewrite mrzChecksum_loop_sum. cbn [num_rem Z.eqb]. f_equal.
  rewrite Z.add_0_l. apply Z.rem_mod_nonneg; [apply zsum_icao_terms_nonneg | lia].
Qed.

Lemma icao_checksum_range (s : jsstring) : (0 <= icao_checksum s <= 9)%Z.
Proof.
  unfold icao_checksum.
  pose proof (Z.mod_pos_bound (zsum (icao_terms 0 s)) 10 ltac:(lia)). lia.
Qed.

Lemma checksumOk_single (data : jsstring) (c : ascii) :
  checksumOk data [c] = true <-> check_digit c = Some (icao_checksum data).
Proof.
  unfold checksumOk. rewrite mrzChecksum_icao, parseInt_single.
  destruct (check_digit c) as [d|]; cbn [num_eq].
  - rewrite Z.eqb_eq. split; [intros -> | intros [= ->]]; reflexivity.
  - split; discriminate.
Qed.

Example mrzChecksum_930430 : mrzChecksum (js "930430") = Some 9%Z.
Proof. reflexivity. Qed.

Example checksumOk_900713 : checksumOk (js "900713") (js "8") = true.
Proof. reflexivity. Qed.

(** C1: [mrzChecksum] is the ICAO 7-3-1 modulo-10 computation of the
    specification on every string, a character outside [A-Z], [0-9], [<]
    is given the value 0, and [checksumOk] holds exactly when the check
    character, read as an integer, is the computed digit. *)
Theorem C1_checksum_is_icao_731 :
  (forall s, mrzChecksum s = Some (icao_checksum s)) /\
  (forall c, in_alphabet c = false -> charValue c = Some 0%Z) /\
  (forall data c, checksumOk data [c] = true <-> mrzChecksum data = check_digit c).
Proof.
  split; [exact mrzChecksum_icao | split].
  - intros c Hc. rewrite charValue_icao, (icao_value_outside c Hc). reflexivity.
  - intros data c. rewrite checksumOk_single, mrzChecksum_icao.
    split; intro H; symmetry; exact H.
Qed.

Lemma C1_witness :
  in_alphabet "a"%char = false /\ charValue "a"%char = Some 0%Z.
Proof.
  split; [reflexivity | apply (proj1 (proj2 C1_checksum_is_icao_731)); reflexivity].
Defined.

(** C10: [mrzChecksum] returns a digit between 0 and 9 on every string,
    and [checksumOk] is false whenever the check character is no decimal
    digit. *)
Theorem C10_checksum_total_and_digit_only :
  (forall s, exists d, mrzChecksum s = Some d /\ (0 <= d <= 9)%Z) /\
  (forall data c, isDigit c = false -> checksumOk data [c] = false).
Proof.
  split.
  - intro s. exists (icao_checksum s). split.
    + apply mrzChecksum_icao.
    + apply icao_checksum_range.
  - intros data c Hc. unfold checksumOk.
    rewrite parseInt_single. unfold check_digit. rewrite Hc.
    destruct (mrzChecksum data); reflexivity.
Qed.

Lemma C10_witness :
  isDigit LT = false /\ checksumOk (js "930430") [LT] = false.
Proof.
  split; [reflexivity | apply (proj2 C10_checksum_total_and_digit_only); reflexivity].
Defined.

(** ** Date conversion *)

Lemma list_len6 (s : jsstring) :
  len s = 6 -> exists a b c d e f, s = [a; b; c; d; e; f].
Proof.
  destruct s as [|a [|b [|c [|d [|e [|f [|g s]]]]]]]; try discriminate.
  intros _. now exists a, b, c, d, e, f.
Qed.

Lemma parseMrzDate_digits (a b c d e f : ascii) :
  isDigit a = true -> isDigit b = true ->
  parseMrzDate [a; b; c; d; e; f]
  = Some (century (year2 [a; b; c; d; e; f]) ++ [a; b] ++ js "-" ++ [c; d] ++ js "-" ++ [e; f]).
Proof.
  intros Ha Hb.
  apply isDigit_cases in Ha. apply isDigit_cases in Hb.
  cbn [In String.list_ascii_of_string] in Ha, Hb.
  repeat (destruct Ha as [<- | Ha]; [| ]); try contradiction;
    repeat (destruct Hb as [<- | Hb]; [| ]); try contradiction; reflexivity.
Qed.

(** C6: on a six-digit date the year above 30 goes to the 1900s and any
    other year to the 2000s; 05 gives 2005, 95 gives 1995, 30 gives 2030
    and 31 gives 1931. *)
Theorem C6_century_heuristic :
  (forall s, len s = 6 -> forallb isDigit s = true ->
     parseMrzDate s
     = Some (century (year2 s) ++ slice 0 2 s ++ js "-" ++ slice 2 4 s
             ++ js "-" ++ slice 4 6 s)) /\
  parseMrzDate (js "050607") = Some (js "2005-06-07") /\
  parseMrzDate (js "950607") = Some (js "1995-06-07") /\
  parseMrzDate (js "300607") = Some (js "2030-06-07") /\
  parseMrzDate (js "310607") = Some (js "1931-06-07").
Proof.
  split; [| repeat split; reflexivity].
  intros s Hlen Hdig.
  destruct (list_len6 s Hlen) as (a & b & c & d & e & f & ->).
  cbn [forallb] in Hdig.
  apply andb_prop in Hdig as [Ha Hdig]. apply andb_prop in Hdig as [Hb _].
  rewrite (parseMrzDate_digits a b c d e f Ha Hb). reflexivity.
Qed.

Lemma C6_witness :
  parseMrzDate (js "310607")
  = Some (century (year2 (js "310607")) ++ slice 0 2 (js "310607") ++ js "-"
          ++ slice 2 4 (js "310607") ++ js "-" ++ slice 4 6 (js "310607")).
Proof.
  apply (proj1 C6_century_heuristic); reflexivity.
Defined.

(** ** TD1 parser *)

Lemma cycle_fill_one (x : ascii) (n : nat) :
  cycle_fill [x] [] n = repeat x n /\ cycle_fill [x] [x] n = repeat x n.
Proof.
  assert (H : forall k, cycle_fill [x] [] k = repeat x k).
  { induction k as [|k IH]; [reflexivity | simpl; now rewrite IH]. }
  split; [apply H | destruct n as [|n]; [reflexivity | simpl; now rewrite H]].
Qed.

Lemma firstn_repeat_min (x : ascii) (k n : nat) :
  firstn k (repeat x n) = repeat x (Nat.min k n).
Proof.
  revert n; induction k as [|k IH]; intros [|n]; simpl; try reflexivity.
  now rewrite IH.
Qed.

Lemma pad_is_fit30 (c : jsstring) :
  padEnd 30 (js "<") (slice 0 30 c) = fit30 c.
Proof.
  unfold padEnd, slice, fit30, len.
  change (js "<") with [LT]. rewrite (proj2 (cycle_fill_one LT _)).
  rewrite Nat.sub_0_r, skipn_O, firstn_app, firstn_repeat_min, length_firstn.
  f_equal. f_equal. lia.
Qed.

Lemma fit30_length (c : jsstring) : len (fit30 c) = 30.
Proof.
  unfold fit30, len. rewrite length_firstn, length_app, repeat_length. lia.
Qed.

Lemma fit30_fixed (l : jsstring) : len l = 30 -> fit30 l = l.
Proof.
  intro H. unfold fit30. rewrite firstn_app. unfold len in H. rewrite H.
  rewrite Nat.sub_diag, firstn_O, app_nil_r. apply firstn_all2. lia.
Qed.

Lemma at_index_in_range (s : jsstring) (i : nat) :
  i < len s -> at_index s i = [nth i s LT].
Proof.
  intro H. unfold at_index.
  destruct (nth_error s i) as [c|] eqn:E.
  - now rewrite (nth_error_nth s i LT E).
  - apply nth_error_None in E. unfold len in H. lia.
Qed.

(** The record built from three 30-character lines. *)
Lemma decode_triplet_inv (c1 c2 c3 : jsstring) (r : MrzRecord) :
  decode_triplet c1 c2 c3 = Some r ->
  startsWith (js "ID") (fit30 c1) = true /\
  mrz_line1 r = fit30 c1 /\ mrz_line2 r = fit30 c2 /\ mrz_line3 r = fit30 c3 /\
  card_number r = removeAll (is_char LT) (slice 5 14 (fit30 c1)) /\
  nationality r = removeAll (is_char LT) (slice 2 5 (fit30 c1)) /\
  date_of_birth r = parseMrzDate (slice 0 6 (fit30 c2)) /\
  expiration_date r = parseMrzDate (slice 8 14 (fit30 c2)) /\
  sex r = (if str_eqb (at_index (fit30 c2) 7) (js "M") then js "M"
           else if str_eqb (at_index (fit30 c2) 7) (js "F") then js "F"
           else js "X") /\
  cs_date_of_birth (checksums r)
  = checksumOk (slice 0 6 (fit30 c2)) (at_index (fit30 c2) 6) /\
  cs_expiration_date (checksums r)
  = checksumOk (slice 8 14 (fit30 c2)) (at_index (fit30 c2) 14) /\
  cs_composite (checksums r)
  = checksumOk (compositeData (fit30 c1) (fit30 c2)) (at_index (fit30 c2) 29) /\
  cs_all_ok (checksums r)
  = cs_date_of_birth (checksums r) && cs_expiration_date (checksums r)
    && cs_composite (checksums r).
Proof.
  unfold decode_triplet. rewrite !pad_is_fit30.
  destruct (startsWith (js "ID") (fit30 c1)); cbn [negb]; [| discriminate].
  intros [= <-]. cbn. repeat split; reflexivity.
Qed.

Lemma decode_triplet_accepts (c1 c2 c3 : jsstring) :
  startsWith (js "ID") (fit30 c1) = true ->
  exists r, decode_triplet c1 c2 c3 = Some r.
Proof.
  intro H. unfold decode_triplet. rewrite !pad_is_fit30, H. cbn [negb].
  eexists; reflexivity.
Qed.

Lemma fit30_idem (c : jsstring) : fit30 (fit30 c) = fit30 c.
Proof. apply fit30_fixed, fit30_length. Qed.

Lemma decode_triplet_fit30 (c1 c2 c3 : jsstring) :
  decode_triplet (fit30 c1) (fit30 c2) (fit30 c3) = decode_triplet c1 c2 c3.
Proof.
  unfold decode_triplet. rewrite !pad_is_fit30, !fit30_idem. reflexivity.
Qed.

(** The loop returns the record of the first window the body accepts. *)
Lemma scan_triplets_inv (cs : list jsstring) (r : MrzRecord) :
  scan_triplets cs = Some r ->
  exists pre c1 c2 c3 post,
    cs = pre ++ c1 :: c2 :: c3 :: post /\ decode_triplet c1 c2 c3 = Some r.
Proof.
  induction cs as [|c1 cs IH]; [discriminate |].
  destruct cs as [|c2 [|c3 rest]]; try discriminate.
  cbn [scan_triplets].
  destruct (decode_triplet c1 c2 c3) as [r'|] eqn:E.
  - intros [= <-]. now exists [], c1, c2, c3, rest.
  - intro H. destruct (IH H) as (pre & a & b & c & post & Hcs & Hd).
    exists (c1 :: pre), a, b, c, post. split; [now rewrite Hcs | exact Hd].
Qed.

(** C9: in every parse result the three lines are candidates cut or
    filled with [<] to exactly 30 characters, and the fields are slices at
    fixed offsets of these 30-character lines. *)
Theorem C9_lines_are_30_chars (rawText : jsstring) (r : MrzRecord) :
  parseMrzTD1 rawText = Some r ->
  (exists pre c1 c2 c3 post,
      candidates_of rawText = pre ++ c1 :: c2 :: c3 :: post /\
      mrz_line1 r = fit30 c1 /\ mrz_line2 r = fit30 c2 /\ mrz_line3 r = fit30 c3) /\
  len (mrz_line1 r) = 30 /\ len (mrz_line2 r) = 30 /\ len (mrz_line3 r) = 30 /\
  card_number r = removeAll (is_char LT) (slice 5 14 (mrz_line1 r)) /\
  nationality r = removeAll (is_char LT) (slice 2 5 (mrz_line1 r)) /\
  date_of_birth r = parseMrzDate (slice 0 6 (mrz_line2 r)) /\
  expiration_date r = parseMrzDate (slice 8 14 (mrz_line2 r)) /\
  sex r = (if str_eqb (slice 7 8 (mrz_line2 r)) (js "M") then js "M"
           else if str_eqb (slice 7 8 (mrz_line2 r)) (js "F") then js "F"
           else js "X") /\
  cs_date_of_birth (checksums r)
  = checksumOk (slice 0 6 (mrz_line2 r)) (slice 6 7 (mrz_line2 r)) /\
  cs_expiration_date (checksums r)
  = checksumOk (slice 8 14 (mrz_line2 r)) (slice 14 15 (mrz_line2 r)) /\
  decode_triplet (mrz_line1 r) (mrz_line2 r) (mrz_line3 r) = Some r.
Proof.
  unfold parseMrzTD1. intro H.
  destruct (scan_triplets_inv _ _ H) as (pre & c1 & c2 & c3 & post & Hcs & Hd).
  destruct (decode_triplet_inv _ _ _ _ Hd)
    as (Hid & H1 & H2 & H3 & Hcard & Hnat & Hdob & Hexp & Hsex & Hc1 & Hc2 & Hc3 & Hall).
  assert (L2 : len (fit30 c2) = 30) by apply fit30_length.
  assert (Hat : forall i, i < 30 -> at_index (fit30 c2) i = slice i (S i) (fit30 c2)).
  { intros i Hi. rewrite at_index_in_range by lia.
    unfold slice. replace (S i - i) with 1 by lia.
    unfold len in L2.
    destruct (skipn i (fit30 c2)) as [|x tl] eqn:E.
    - apply (f_equal (@List.length ascii)) in E. rewrite length_skipn in E.
      simpl in E. lia.
    - cbn [firstn]. f_equal.
      rewrite <- (firstn_skipn i (fit30 c2)) at 1. rewrite E.
      rewrite app_nth2; rewrite length_firstn; [| lia].
      replace (i - Nat.min i (List.length (fit30 c2))) with 0 by lia. reflexivity. }
  rewrite H1, H2, H3.
  split; [exists pre, c1, c2, c3, post; now repeat split |].
  rewrite !fit30_length.
  rewrite <- !Hat by lia.
  repeat split; try assumption.
  rewrite decode_triplet_fit30. exact Hd.
Qed.

Lemma C9_witness :
  exists r, parseMrzTD1 sample_td1 = Some r /\ len (mrz_line2 r) = 30.
Proof.
  eexists. split; [reflexivity |].
  eapply (proj1 (proj2 (proj2 (C9_lines_are_30_chars sample_td1 _ _)))).
  Unshelve. reflexivity.
Defined.

(** C5 (as the code has it): the composite check digit, line 2 position
    29, is verified against line 1 [5:30], then line 2 [0:7], line 2
    [8:15] and line 2 [18:29], in this order. *)
Theorem C5_composite_order (rawText : jsstring) (r : MrzRecord) :
  parseMrzTD1 rawText = Some r ->
  cs_composite (checksums r)
  = checksumOk
      (slice 5 30 (mrz_line1 r) ++ slice 0 7 (mrz_line2 r)
       ++ slice 8 15 (mrz_line2 r) ++ slice 18 29 (mrz_line2 r))
      [nth 29 (mrz_line2 r) LT] /\
  (cs_composite (checksums r) = true <->
   check_digit (nth 29 (mrz_line2 r) LT)
   = Some (icao_checksum
             (slice 5 30 (mrz_line1 r) ++ slice 0 7 (mrz_line2 r)
              ++ slice 8 15 (mrz_line2 r) ++ slice 18 29 (mrz_line2 r)))).
Proof.
  unfold parseMrzTD1. intro H.
  destruct (scan_triplets_inv _ _ H) as (pre & c1 & c2 & c3 & post & _ & Hd).
  destruct (decode_triplet_inv _ _ _ _ Hd)
    as (_ & H1 & H2 & _ & _ & _ & _ & _ & _ & _ & _ & Hc3 & _).
  rewrite Hc3, H1, H2.
  rewrite at_index_in_range by (rewrite fit30_length; lia).
  split; [reflexivity | apply checksumOk_single].
Qed.

Lemma C5_witness :
  exists r, parseMrzTD1 sample_td1 = Some r /\
    cs_composite (checksums r)
    = checksumOk
        (slice 5 30 (mrz_line1 r) ++ slice 0 7 (mrz_line2 r)
         ++ slice 8 15 (mrz_line2 r) ++ slice 18 29 (mrz_line2 r))
        [nth 29 (mrz_line2 r) LT].
Proof.
  eexists. split; [reflexivity |].
  eapply (proj1 (C5_composite_order sample_td1 _ _)).
  Unshelve. reflexivity.
Defined.

(** C5, as the specification words it, fails on the specimen card: the
    composite check holds there, and would not with line 2 [18:29] put
    first. *)
Lemma C5_counterexample :
  exists r, parseMrzTD1 sample_td1 = Some r /\
    cs_composite (checksums r) = true /\
    checksumOk (compositeData_spec (mrz_line1 r) (mrz_line2 r))
      [nth 29 (mrz_line2 r) LT] = false.
Proof. eexists. repeat split; reflexivity. Qed.

(** C4 (what the code does on the failing input): a first line that
    starts with [ID] is accepted although digits stand where the issuing
    country is expected. *)
Theorem C4_country_code_not_checked :
  exists r, parseMrzTD1 td1_without_country = Some r /\
    mrz_line1 r = js "ID1234567890123456789012345678" /\
    nationality r = js "123" /\
    forallb isUpper (slice 2 5 (mrz_line1 r)) = false.
Proof. eexists. repeat split; reflexivity. Qed.

(** ** The backtracking matcher *)

Lemma try_down_some {A : Type} (f : nat -> option A) (lo k : nat) (r : A) :
  try_down f lo k = Some r ->
  exists j, lo <= j <= k /\ f j = Some r /\ forall j', j < j' <= k -> f j' = None.
Proof.
  induction k as [|k IH]; cbn [try_down].
  - destruct (0 <? lo) eqn:E; [discriminate |]. apply Nat.ltb_ge in E.
    destruct (f 0) as [x|] eqn:F; [| discriminate]. intros [= ->].
    exists 0. split; [lia |]. split; [assumption |]. intros j' Hj'. lia.
  - destruct (S k <? lo) eqn:E; [discriminate |]. apply Nat.ltb_ge in E.
    destruct (f (S k)) as [x|] eqn:F.
    + intros [= ->]. exists (S k). split; [lia |]. split; [assumption |].
      intros j' Hj'. lia.
    + intro H. destruct (IH H) as (j & Hj & Hfj & Hnone).
      exists j. split; [lia |]. split; [assumption |].
      intros j' Hj'. destruct (Nat.eq_dec j' (S k)) as [-> | Hne]; [assumption |].
      apply Hnone. lia.
Qed.

Lemma try_down_found {A : Type} (f : nat -> option A) (lo k j : nat) :
  lo <= j <= k -> f j <> None -> try_down f lo k <> None.
Proof.
  induction k as [|k IH]; intros Hj Hf; cbn [try_down].
  - assert (j = 0) by lia. subst j.
    destruct (0 <? lo) eqn:E; [apply Nat.ltb_lt in E; lia |].
    destruct (f 0); [discriminate | contradiction].
  - destruct (S k <? lo) eqn:E; [apply Nat.ltb_lt in E; lia |].
    destruct (f (S k)) eqn:F; [discriminate |].
    apply IH; [| assumption].
    destruct (Nat.eq_dec j (S k)) as [-> | Hne]; [congruence | lia].
Qed.

Lemma try_down_ext {A : Type} (f g : nat -> option A) (lo k : nat) :
  (forall j, f j = g j) -> try_down f lo k = try_down g lo k.
Proof.
  intro H. induction k as [|k IH]; cbn [try_down]; rewrite H; [reflexivity |].
  now rewrite IH.
Qed.

Lemma try_down_first {A : Type} (f : nat -> option A) (lo k : nat) (r : A) :
  lo <= k -> f k = Some r -> try_down f lo k = Some r.
Proof.
  intros Hk Hf. destruct k as [|k]; cbn [try_down].
  - destruct (0 <? lo) eqn:E; [apply Nat.ltb_lt in E; lia | now rewrite Hf].
  - destruct (S k <? lo) eqn:E; [apply Nat.ltb_lt in E; lia | now rewrite Hf].
Qed.

Lemma try_down_below {A : Type} (f : nat -> option A) (lo k : nat) :
  k < lo -> try_down f lo k = None.
Proof.
  intro H. apply Nat.ltb_lt in H. destruct k; cbn [try_down]; now rewrite H.
Qed.

Lemma run_length_le (p : ascii -> bool) (s : jsstring) : run_length p s <= len s.
Proof.
  induction s as [|c s IH]; [apply Nat.le_refl |].
  cbn [run_length]. unfold len in *. destruct (p c); simpl; lia.
Qed.

Lemma run_length_firstn (p : ascii -> bool) (s : jsstring) :
  forall j, j <= run_length p s -> forallb p (firstn j s) = true.
Proof.
  induction s as [|c s IH]; intros j Hj.
  - now rewrite firstn_nil.
  - destruct j as [|j]; [reflexivity |].
    cbn [run_length] in Hj. destruct (p c) eqn:E; [| lia].
    cbn [firstn forallb]. rewrite E. apply IH. lia.
Qed.

Lemma run_length_app (p : ascii -> bool) (a b : jsstring) :
  forallb p a = true -> run_length p (a ++ b) = len a + run_length p b.
Proof.
  induction a as [|c a IH]; [reflexivity |].
  cbn [forallb]. intro H. apply andb_prop in H as [Hc Ha].
  cbn [app run_length]. rewrite Hc, (IH Ha). reflexivity.
Qed.

Lemma run_length_all (p : ascii -> bool) (s : jsstring) :
  forallb p s = true -> run_length p s = len s.
Proof.
  intro H. rewrite <- (app_nil_r s) at 1. rewrite run_length_app by assumption.
  simpl. lia.
Qed.

Lemma run_covers_prefix (p : ascii -> bool) (x r : jsstring) :
  len x <= run_length p (x ++ r) -> forallb p x = true.
Proof.
  intro H. pose proof (run_length_firstn p (x ++ r) (len x) H) as F.
  unfold len in F. rewrite firstn_app, Nat.sub_diag, firstn_O, app_nil_r in F.
  now rewrite firstn_all in F.
Qed.

Lemma whole_cons (seg : jsstring) (segs : list jsstring) :
  whole (seg :: segs) = seg ++ whole segs.
Proof. reflexivity. Qed.

Lemma match_cls_inv (p : ascii -> bool) (lo : nat) (hi : option nat) (its : regex)
      (prev : option ascii) (s : jsstring) (segs : list jsstring) :
  match_items (Cls p lo hi :: its) prev s = Some segs ->
  exists j segs',
    segs = firstn j s :: segs' /\ lo <= j <= cap hi (run_length p s) /\
    match_items its (last_of prev (firstn j s)) (skipn j s) = Some segs'.
Proof.
  cbn [match_items]. intro H.
  apply try_down_some in H as (j & Hj & Hf & _).
  destruct (match_items its (last_of prev (firstn j s)) (skipn j s)) as [segs'|] eqn:E;
    [| discriminate].
  injection Hf as <-. now exists j, segs'.
Qed.

Lemma match_assert_inv (it : item) (its : regex) (prev : option ascii)
      (s : jsstring) (segs : list jsstring) :
  ~ is_cls it ->
  match_items (it :: its) prev s = Some segs ->
  exists segs', segs = [] :: segs' /\ match_items its prev s = Some segs'.
Proof.
  intros Hit H. destruct it as [p lo hi| | |]; [exfalso; now apply Hit | | |];
    cbn [match_items] in H.
  - destruct prev; [discriminate |].
    destruct (match_items its None s) as [segs'|]; [| discriminate].
    injection H as <-. now exists segs'.
  - destruct s; [| discriminate].
    destruct (match_items its prev []) as [segs'|]; [| discriminate].
    injection H as <-. now exists segs'.
  - destruct (xorb (word_at prev) (word_at (hd_error s))); [| discriminate].
    destruct (match_items its prev s) as [segs'|]; [| discriminate].
    injection H as <-. now exists segs'.
Qed.

(** Soundness: the segments of a match are consumed by their items, and
    together they are a prefix of the text. *)
Lemma match_items_sound (re : regex) :
  forall prev s segs,
    match_items re prev s = Some segs ->
    Forall2 seg_ok re segs /\ s = whole segs ++ skipn (len (whole segs)) s.
Proof.
  induction re as [|it re IH]; intros prev s segs H.
  - injection H as <-. split; [constructor | reflexivity].
  - destruct it as [p lo hi| | |].
    + apply match_cls_inv in H as (j & segs' & -> & Hj & Hm).
      destruct (IH _ _ _ Hm) as [Hok Hpre].
      assert (Hjr : j <= run_length p s).
      { destruct hi as [h|]; cbn [cap] in Hj; lia. }
      pose proof (run_length_le p s) as Hle.
      assert (Hlen : len (firstn j s) = j).
      { unfold len in *. rewrite length_firstn. lia. }
      split.
      * constructor; [| assumption]. constructor.
        -- now apply run_length_firstn.
        -- lia.
        -- intros h ->. cbn [cap] in Hj. lia.
      * rewrite whole_cons. unfold len in *. rewrite length_app, Hlen.
        rewrite <- app_assoc, (Nat.add_comm j), <- skipn_skipn, <- Hpre.
        now rewrite firstn_skipn.
    + apply match_assert_inv in H as (segs' & -> & Hm); [| now intros []].
      destruct (IH _ _ _ Hm). split; [constructor; [constructor | assumption] | assumption].
    + apply match_assert_inv in H as (segs' & -> & Hm); [| now intros []].
      destruct (IH _ _ _ Hm). split; [constructor; [constructor | assumption] | assumption].
    + apply match_assert_inv in H as (segs' & -> & Hm); [| now intros []].
      destruct (IH _ _ _ Hm). split; [constructor; [constructor | assumption] | assumption].
Qed.

(** Without assertions the character before the position is not read. *)
Lemma match_items_prev (re : regex) :
  Forall is_cls re ->
  forall p1 p2 s, match_items re p1 s = match_items re p2 s.
Proof.
  induction 1 as [|it re Hit Hre IH]; intros p1 p2 s; [reflexivity |].
  destruct it as [p lo hi| | |]; try contradiction.
  cbn [match_items]. apply try_down_ext. intro j.
  now rewrite (IH (last_of p1 (firstn j s)) (last_of p2 (firstn j s))).
Qed.

(** Completeness: a text that starts with segments the items consume is
    matched. *)
Lemma match_items_complete (re : regex) (segs : list jsstring) :
  Forall2 seg_ok re segs -> Forall is_cls re ->
  forall prev rest, match_items re prev (whole segs ++ rest) <> None.
Proof.
  induction 1 as [|it seg re segs Hseg Hrest IH]; intros Hcls prev rest;
    [discriminate |].
  inversion Hcls as [|? ? Hit Hre]; subst.
  destruct Hseg as [p lo hi seg Hall Hlo Hhi| | |]; try contradiction.
  cbn [match_items]. rewrite whole_cons, <- app_assoc.
  apply (try_down_found _ lo _ (len seg)).
  - split; [assumption |].
    pose proof (run_length_app p seg (whole segs ++ rest) Hall) as Hrun.
    destruct hi as [h|]; cbn [cap]; [specialize (Hhi h eq_refl) |]; lia.
  - unfold len. rewrite firstn_app, Nat.sub_diag, firstn_O, app_nil_r, firstn_all.
    rewrite skipn_app, Nat.sub_diag, skipn_all. cbn [skipn app].
    specialize (IH Hre (last_of prev seg) rest).
    destruct (match_items re (last_of prev seg) (whole segs ++ rest)); [discriminate |].
    contradiction.
Qed.

(** The leftmost search. *)
Lemma exec_from_some (re : regex) :
  Forall is_cls re ->
  forall s prev i i' segs,
    exec_from re prev s i = Some (i', segs) ->
    exists k, i' = i + k /\ k <= len s /\
      match_items re None (skipn k s) = Some segs /\
      forall k', k' < k -> match_items re None (skipn k' s) = None.
Proof.
  intros Hcls. induction s as [|c s IH]; intros prev i i' segs H; cbn [exec_from] in H.
  - destruct (match_items re prev []) as [x|] eqn:E; [| discriminate].
    injection H as <- <-. exists 0. rewrite Nat.add_0_r.
    rewrite (match_items_prev re Hcls None prev). repeat split; auto. intros; lia.
  - destruct (match_items re prev (c :: s)) as [x|] eqn:E.
    + injection H as <- <-. exists 0. rewrite Nat.add_0_r.
      rewrite (match_items_prev re Hcls None prev). cbn [skipn].
      repeat split; auto; [unfold len; simpl; lia | intros; lia].
    + destruct (IH _ _ _ _ H) as (k & -> & Hk & Hm & Hnone).
      exists (S k). repeat split; [lia | unfold len in *; simpl; lia | exact Hm |].
      intros [|k'] Hk'.
      * cbn [skipn]. now rewrite (match_items_prev re Hcls None prev).
      * cbn [skipn]. apply Hnone. lia.
Qed.

Lemma exec_from_none (re : regex) :
  Forall is_cls re ->
  forall s prev i,
    exec_from re prev s i = None ->
    forall k, k <= len s -> match_items re None (skipn k s) = None.
Proof.
  intros Hcls. induction s as [|c s IH]; intros prev i H k Hk; cbn [exec_from] in H.
  - destruct (match_items re prev []) eqn:E; [discriminate |].
    rewrite skipn_nil. now rewrite (match_items_prev re Hcls None prev).
  - destruct (match_items re prev (c :: s)) eqn:E; [discriminate |].
    destruct k as [|k]; cbn [skipn].
    + now rewrite (match_items_prev re Hcls None prev).
    + apply (IH _ _ H). unfold len in *. simpl in Hk. lia.
Qed.

(** With [^] in front only the start of the text is tried. *)
Lemma exec_from_bol (re : regex) (s : jsstring) :
  forall c i, exec_from (Bol :: re) (Some c) s i = None.
Proof.
  induction s as [|x s IH]; intros c i; cbn [exec_from match_items]; [reflexivity |].
  apply IH.
Qed.

Lemma test_bol (re : regex) (s : jsstring) :
  test (Bol :: re) s = match match_items re None s with Some _ => true | None => false end.
Proof.
  unfold test, exec. destruct s as [|c s]; cbn [exec_from match_items].
  - destruct (match_items re None []); reflexivity.
  - destruct (match_items re None (c :: s)); cbn [option_map]; [reflexivity |].
    now rewrite exec_from_bol.
Qed.

(** ** Second-line extractor *)

Lemma forallb_impl (p q : ascii -> bool) (l : jsstring) :
  (forall c, p c = true -> q c = true) -> forallb p l = true -> forallb q l = true.
Proof.
  intros Hpq. induction l as [|c l IH]; [reflexivity |].
  cbn [forallb]. intro H. apply andb_prop in H as [Hc Hl].
  now rewrite (Hpq c Hc), (IH Hl).
Qed.

Lemma digit_is_mrz (c : ascii) : isDigit c = true -> isMrzChar c = true.
Proof. ascii_cases c; vm_compute; intro H; try reflexivity; discriminate H. Qed.

Lemma alnum_is_mrz (c : ascii) : isAlnumUpper c = true -> isMrzChar c = true.
Proof. ascii_cases c; vm_compute; intro H; try reflexivity; discriminate H. Qed.

Lemma filler_is_mrz (c : ascii) : is_char LT c = true -> isMrzChar c = true.
Proof. ascii_cases c; vm_compute; intro H; try reflexivity; discriminate H. Qed.

Lemma is_char_eq (x c : ascii) : is_char x c = true <-> c = x.
Proof. unfold is_char. apply Ascii.eqb_eq. Qed.

Lemma line2_cls : Forall is_cls re_line2_shape.
Proof. repeat constructor. Qed.

Lemma match_last_cls (p : ascii -> bool) (lo : nat) (prev : option ascii)
      (s : jsstring) (segs : list jsstring) :
  match_items [Cls p lo None] prev s = Some segs ->
  segs = [firstn (run_length p s) s] /\ lo <= run_length p s.
Proof.
  cbn [match_items cap option_map]. intro H.
  destruct (Nat.lt_ge_cases (run_length p s) lo) as [Hlt | Hge].
  - rewrite try_down_below in H by assumption. discriminate.
  - rewrite (try_down_first _ lo _ [firstn (run_length p s) s]) in H
      by (assumption || reflexivity).
    injection H as <-. now split.
Qed.

(** A match of the line-2 pattern has the shape of the specification and
    runs to the end of the MRZ characters that follow its start. *)
Lemma line2_match_inv (prev : option ascii) (s : jsstring) (segs : list jsstring) :
  match_items re_line2_shape prev s = Some segs ->
  line2_shape (whole segs) /\
  whole segs = firstn (run_length isMrzChar s) s.
Proof.
  intro H. unfold re_line2_shape in H.
  apply match_cls_inv in H as (j1 & segs1 & -> & Hj1 & H).
  apply match_cls_inv in H as (j2 & segs2 & -> & Hj2 & H).
  apply match_cls_inv in H as (j3 & segs3 & -> & Hj3 & H).
  apply match_last_cls in H as [-> Hj4].
  cbn [cap] in Hj1, Hj2, Hj3.
  set (s1 := skipn j1 s) in *. set (s2 := skipn j2 s1) in *.
  set (s3 := skipn j3 s2) in *.
  pose proof (run_length_le isDigit s) as L1.
  pose proof (run_length_le isAlnumUpper s1) as L2.
  pose proof (run_length_le (is_char LT) s2) as L3.
  pose proof (run_length_le isMrzChar s3) as L4.
  assert (A1 : forallb isDigit (firstn j1 s) = true) by (apply run_length_firstn; lia).
  assert (A2 : forallb isAlnumUpper (firstn j2 s1) = true) by (apply run_length_firstn; lia).
  assert (A3 : forallb (is_char LT) (firstn j3 s2) = true) by (apply run_length_firstn; lia).
  assert (A4 : forallb isMrzChar (firstn (run_length isMrzChar s3) s3) = true)
    by (apply run_length_firstn; lia).
  assert (N1 : len (firstn j1 s) = j1) by (unfold len in *; rewrite length_firstn; lia).
  assert (N2 : len (firstn j2 s1) = j2) by (unfold len in *; rewrite length_firstn; lia).
  assert (N3 : len (firstn j3 s2) = j3) by (unfold len in *; rewrite length_firstn; lia).
  assert (N4 : len (firstn (run_length isMrzChar s3) s3) = run_length isMrzChar s3)
    by (unfold len in *; rewrite length_firstn; lia).
  assert (j3 = 1) by lia. subst j3.
  assert (E3 : firstn 1 s2 = [LT]).
  { destruct s2 as [|c t]; [discriminate N3 |]. cbn [firstn forallb] in A3 |- *.
    apply andb_prop in A3 as [Hc _]. apply is_char_eq in Hc. now subst c. }
  rewrite !whole_cons. change (whole []) with (@nil ascii). rewrite app_nil_r.
  split.
  - exists (firstn j1 s), (firstn j2 s1), (firstn (run_length isMrzChar s3) s3).
    rewrite E3, N1, N2, N4. repeat split; try assumption; lia.
  - assert (M1 : forallb isMrzChar (firstn j1 s) = true)
      by (apply (forallb_impl isDigit); [apply digit_is_mrz | assumption]).
    assert (M2 : forallb isMrzChar (firstn j2 s1) = true)
      by (apply (forallb_impl isAlnumUpper); [apply alnum_is_mrz | assumption]).
    assert (M3 : forallb isMrzChar (firstn 1 s2) = true)
      by (apply (forallb_impl (is_char LT)); [apply filler_is_mrz | assumption]).
    rewrite <- (firstn_skipn j1 s) at 2 3. fold s1.
    rewrite (run_length_app _ _ _ M1), N1.
    rewrite <- N1 at 2. unfold len at 1. rewrite firstn_app_2. f_equal.
    rewrite <- (firstn_skipn j2 s1) at 2 3. fold s2.
    rewrite (run_length_app _ _ _ M2), N2.
    rewrite <- N2 at 2. unfold len at 1. rewrite firstn_app_2. f_equal.
    rewrite <- (firstn_skipn 1 s2) at 2 3. fold s3.
    rewrite (run_length_app _ _ _ M3), N3.
    rewrite <- N3 at 2. unfold len at 1. rewrite firstn_app_2. reflexivity.
Qed.

Lemma line2_shape_mrz (u : jsstring) : line2_shape u -> forallb isMrzChar u = true.
Proof.
  intros (a & b & c & -> & Ha & _ & Hb & _ & Hc & _).
  rewrite !forallb_app.
  rewrite (forallb_impl _ _ _ digit_is_mrz Ha), (forallb_impl _ _ _ alnum_is_mrz Hb), Hc.
  reflexivity.
Qed.

Lemma line2_shape_length (u : jsstring) : line2_shape u -> 25 <= len u.
Proof.
  intros (a & b & c & -> & _ & Ha & _ & Hb & _ & Hc).
  unfold len in *. rewrite !length_app. simpl. lia.
Qed.

Lemma line2_shape_matched (u rest : jsstring) (prev : option ascii) :
  line2_shape u -> match_items re_line2_shape prev (u ++ rest) <> None.
Proof.
  intros (a & b & c & -> & Ha & La & Hb & Lb & Hc & Lc).
  replace (a ++ b ++ [LT] ++ c) with (whole [a; b; [LT]; c])
    by (unfold whole; simpl; now rewrite app_nil_r).
  apply match_items_complete; [| apply line2_cls].
  unfold re_line2_shape.
  repeat constructor; try assumption; try lia; try (intros h [= <-]; simpl; lia).
Qed.

(** The matches collected with the [g] flag: each occurs in the text and
    has the shape, and every occurrence of the shape is no longer than
    one of them. *)
Lemma matchAll_line2 (fuel : nat) :
  forall prev s, len s < fuel ->
    (forall m, In m (matchAll_from fuel re_line2_shape prev s) ->
               substring_of m s /\ line2_shape m) /\
    (forall pre u post, s = pre ++ u ++ post -> line2_shape u ->
       exists m, In m (matchAll_from fuel re_line2_shape prev s) /\ len u <= len m).
Proof.
  induction fuel as [|fuel IH]; intros prev s Hfuel; [lia |].
  cbn [matchAll_from].
  destruct (exec_from re_line2_shape prev s 0) as [[i segs]|] eqn:E.
  - apply (exec_from_some _ line2_cls) in E as (k & -> & Hk & Hm & Hnone).
    cbn [Nat.add].
    destruct (line2_match_inv _ _ _ Hm) as [Hshape Hrun].
    destruct (match_items_sound _ _ _ _ Hm) as [_ Hpre].
    pose proof (line2_shape_length _ Hshape) as Hlen.
    set (m := whole segs) in *.
    assert (Hs : s = firstn k s ++ m ++ skipn (len m) (skipn k s)).
    { rewrite <- Hpre. symmetry. apply firstn_skipn. }
    assert (Hadv : k + len m <= len s).
    { apply (f_equal (@List.length ascii)) in Hpre.
      unfold len in *. rewrite length_app, length_skipn in Hpre.
      rewrite length_skipn in Hpre. lia. }
    destruct (len m =? 0) eqn:Z; [apply Nat.eqb_eq in Z; lia |].
    apply Nat.leb_le in Hadv as Hadvb. rewrite Hadvb.
    set (adv := k + len m) in *.
    assert (Hrest : len (skipn adv s) < fuel).
    { unfold len in *. rewrite length_skipn. lia. }
    destruct (IH (last_of prev (firstn adv s)) (skipn adv s) Hrest) as [IH1 IH2].
    split.
    + intros m' [<- | Hin].
      * split; [now exists (firstn k s), (skipn (len m) (skipn k s)) | assumption].
      * destruct (IH1 m' Hin) as [(pre & post & Hsub) Hsh].
        split; [| assumption].
        exists (firstn adv s ++ pre), post.
        rewrite <- app_assoc, <- Hsub. symmetry. apply firstn_skipn.
    + intros pre u post Hu Hsh.
      assert (Hkpre : k <= len pre).
      { apply Nat.le_ngt. intro Hlt.
        specialize (Hnone (len pre) Hlt).
        rewrite Hu in Hnone. unfold len in Hnone.
        rewrite skipn_app, Nat.sub_diag, skipn_all in Hnone. cbn [skipn app] in Hnone.
        now apply (line2_shape_matched u post None Hsh). }
      assert (Hskip : forall n, n <= len pre -> skipn n s = skipn n pre ++ u ++ post).
      { intros n Hn. rewrite Hu at 1. rewrite skipn_app.
        unfold len in Hn. replace (n - List.length pre) with 0 by lia. reflexivity. }
      destruct (Nat.lt_ge_cases (len pre) adv) as [Hin | Hout].
      * exists m. split; [now left |].
        assert (Hm_len : len m = run_length isMrzChar (skipn k s)).
        { rewrite Hrun. unfold len. rewrite length_firstn.
          pose proof (run_length_le isMrzChar (skipn k s)). unfold len in *. lia. }
        rewrite (Hskip k Hkpre) in Hm_len.
        assert (Hx : len (skipn k pre) = len pre - k)
          by (unfold len; apply length_skipn).
        assert (Hcov : forallb isMrzChar (skipn k pre) = true).
        { apply (run_covers_prefix _ _ (u ++ post)). unfold adv in Hin. lia. }
        rewrite app_assoc in Hm_len.
        rewrite run_length_app in Hm_len
          by (rewrite forallb_app, Hcov; now apply line2_shape_mrz).
        unfold len in *. rewrite length_app in Hm_len. lia.
      * destruct (IH2 (skipn adv pre) u post (Hskip adv Hout) Hsh) as (m' & Hin & Hle).
        exists m'. split; [now right | assumption].
  - split; [intros m [] |].
    intros pre u post Hu Hsh. exfalso.
    pose proof (exec_from_none _ line2_cls _ _ _ E (len pre)) as Hnone.
    assert (Hle : len pre <= len s).
    { rewrite Hu. unfold len. rewrite length_app. lia. }
    specialize (Hnone Hle). rewrite Hu in Hnone. unfold len in Hnone.
    rewrite skipn_app, Nat.sub_diag, skipn_all in Hnone. cbn [skipn app] in Hnone.
    now apply (line2_shape_matched u post None Hsh).
Qed.

Lemma insert_desc_head (x : jsstring) (l : list jsstring) :
  hd_error (insert_desc x l)
  = match hd_error l with
    | None => Some x
    | Some y => if len y <=? len x then Some x else Some y
    end.
Proof.
  destruct l as [|y l]; [reflexivity |]. cbn [insert_desc hd_error].
  destruct (Z.of_nat (len y) - Z.of_nat (len x) <=? 0)%Z eqn:E.
  - apply Z.leb_le in E. assert (H : len y <= len x) by lia.
    apply Nat.leb_le in H. now rewrite H.
  - apply Z.leb_gt in E. assert (H : len x < len y) by lia.
    apply Nat.leb_gt in H. now rewrite H.
Qed.

(** After the sort the first element is a longest one. *)
Lemma sort_desc_head (l : list jsstring) :
  l <> [] ->
  exists m, hd_error (sort_desc l) = Some m /\ In m l /\
            forall x, In x l -> len x <= len m.
Proof.
  induction l as [|x l IH]; [congruence |]. intros _.
  change (sort_desc (x :: l)) with (insert_desc x (sort_desc l)).
  rewrite insert_desc_head.
  destruct l as [|y l'].
  - exists x. cbn. split; [reflexivity |]. split; [now left |].
    intros z [<- | []]. apply Nat.le_refl.
  - destruct (IH ltac:(discriminate)) as (m & Hhd & Hin & Hmax).
    rewrite Hhd. destruct (len m <=? len x) eqn:E.
    + apply Nat.leb_le in E. exists x. split; [reflexivity |]. split; [now left |].
      intros z [<- | Hz]; [apply Nat.le_refl |]. specialize (Hmax z Hz). lia.
    + apply Nat.leb_gt in E. exists m. split; [reflexivity |]. split; [now right |].
      intros z [<- | Hz]; [lia | now apply Hmax].
Qed.

Lemma includes_one (x : ascii) (s : jsstring) :
  includes [x] s = true <-> In x s.
Proof.
  induction s as [|c s IH]; cbn [includes startsWith In].
  - split; [discriminate | intros []].
  - rewrite orb_true_iff, andb_true_r, Ascii.eqb_eq, IH.
    split; intros [H | H]; auto.
Qed.

Lemma test_digits_head (s : jsstring) :
  test re_digits_head s = true <-> 9 <= run_length isDigit s.
Proof.
  unfold re_digits_head. rewrite test_bol. cbn [match_items cap option_map].
  destruct (Nat.lt_ge_cases (Nat.min 12 (run_length isDigit s)) 9) as [Hlt | Hge].
  - rewrite try_down_below by assumption. split; [discriminate | lia].
  - rewrite (try_down_first _ 9 _ [firstn (Nat.min 12 (run_length isDigit s)) s])
      by (assumption || reflexivity).
    split; [lia | reflexivity].
Qed.

Lemma test_mrz_only (s : jsstring) :
  test re_mrz_only s = true <-> 1 <= len s /\ forallb isMrzChar s = true.
Proof.
  unfold re_mrz_only. rewrite test_bol.
  pose proof (run_length_le isMrzChar s) as Hle.
  split.
  - destruct (match_items [Cls isMrzChar 1 None; Eol] None s) as [segs|] eqn:E;
      [intros _ | discriminate].
    apply match_cls_inv in E as (j & segs' & _ & Hj & Hm). cbn [cap] in Hj.
    cbn [match_items] in Hm.
    destruct (skipn j s) eqn:Hs; [| discriminate].
    apply (f_equal (@List.length ascii)) in Hs. rewrite length_skipn in Hs.
    simpl in Hs. unfold len in *.
    split; [lia |].
    rewrite <- (firstn_all s). apply run_length_firstn. lia.
  - intros [Hlen Hall]. cbn [match_items cap].
    rewrite (try_down_first _ 1 _ [firstn (run_length isMrzChar s) s; []]);
      [reflexivity | rewrite (run_length_all _ _ Hall); assumption |].
    rewrite (run_length_all _ _ Hall). unfold len. rewrite skipn_all.
    reflexivity.
Qed.

Lemma digits_head_iff (s : jsstring) :
  9 <= run_length isDigit s <->
  exists k, 9 <= k <= 12 /\ k <= len s /\ forallb isDigit (firstn k s) = true.
Proof.
  pose proof (run_length_le isDigit s) as Hle.
  split.
  - intro H. exists 9. repeat split; try lia. apply run_length_firstn. assumption.
  - intros (k & Hk & Hks & Hall).
    rewrite <- (firstn_skipn k s). rewrite run_length_app by assumption.
    unfold len in *. rewrite length_firstn. lia.
Qed.

(** The test of the loop is the candidate test of the specification. *)
Lemma line2_ok_iff (clean : jsstring) :
  line2_ok clean = true <-> line2_candidate clean.
Proof.
  unfold line2_ok, line2_candidate.
  rewrite !andb_true_iff, test_digits_head, test_mrz_only, Nat.leb_le.
  change (js "<") with [LT]. rewrite includes_one, digits_head_iff.
  split.
  - intros [[[Hd Hin] Hlen] [_ Hall]]. auto.
  - intros (Hlen & Hall & Hd & Hin). repeat split; auto. lia.
Qed.

Lemma first_line2_some (lines : list jsstring) (m : jsstring) :
  first_line2 lines = Some m <->
  exists pre line post,
    lines = pre ++ line :: post /\ m = clean_of line /\
    line2_ok (clean_of line) = true /\
    forall l, In l pre -> line2_ok (clean_of l) = false.
Proof.
  induction lines as [|l lines IH]; cbn [first_line2].
  - split; [discriminate |]. intros ([|? ?] & ? & ? & H & _); discriminate H.
  - destruct (line2_ok (clean_of l)) eqn:E.
    + split.
      * intros [= <-]. exists [], l, lines. repeat split; auto. intros ? [].
      * intros ([|l0 pre] & line & post & Hl & -> & Hok & Hpre).
        -- injection Hl as <- _. reflexivity.
        -- injection Hl as <- _. rewrite (Hpre l (or_introl eq_refl)) in E. discriminate.
    + rewrite IH. split.
      * intros (pre & line & post & -> & -> & Hok & Hpre).
        exists (l :: pre), line, post. repeat split; auto.
        intros l0 [<- | Hin]; auto.
      * intros ([|l0 pre] & line & post & Hl & -> & Hok & Hpre).
        -- injection Hl as <- _. rewrite Hok in E. discriminate.
        -- injection Hl as <- ->. exists pre, line, post. repeat split; auto.
           intros l1 Hin. apply Hpre. now right.
Qed.

Lemma first_line2_none (lines : list jsstring) :
  first_line2 lines = None <->
  forall l, In l lines -> line2_ok (clean_of l) = false.
Proof.
  induction lines as [|l lines IH]; cbn [first_line2].
  - split; [intros _ ? [] | reflexivity].
  - destruct (line2_ok (clean_of l)) eqn:E.
    + split; [discriminate |]. intro H. rewrite (H l (or_introl eq_refl)) in E.
      discriminate.
    + rewrite IH. split.
      * intros H l0 [<- | Hin]; auto.
      * intros H l0 Hin. apply H. now right.
Qed.

Lemma not_ok_iff (clean : jsstring) :
  line2_ok clean = false <-> ~ line2_candidate clean.
Proof.
  rewrite <- line2_ok_iff. destruct (line2_ok clean); split; congruence.
Qed.

(** The whole-text search of the extractor. *)
Lemma line2_fallback (text : jsstring) :
  first_line2 (split NL text) = None ->
  (forall m, extractMrzLine2FromText text = Some m ->
     substring_of m (clean_of text) /\ line2_shape m /\
     forall u, substring_of u (clean_of text) -> line2_shape u -> len u <= len m) /\
  (extractMrzLine2FromText text = None <->
   forall u, substring_of u (clean_of text) -> ~ line2_shape u).
Proof.
  intro Hnone. unfold extractMrzLine2FromText. rewrite Hnone.
  cbv zeta. unfold matchAll.
  destruct (matchAll_line2 (S (len (clean_of text))) None (clean_of text)
              (Nat.lt_succ_diag_r _)) as [P1 P2].
  set (ms := matchAll_from (S (len (clean_of text))) re_line2_shape None (clean_of text)) in *.
  destruct ms as [|m0 ms'] eqn:Ems.
  - cbn. split; [discriminate |]. split; [intros _ | reflexivity].
    intros u (pre & post & Hu) Hsh.
    destruct (P2 pre u post Hu Hsh) as (m & [] & _).
  - cbn [List.length Nat.ltb Nat.leb].
    destruct (sort_desc_head (m0 :: ms') ltac:(discriminate)) as (m & Hhd & Hin & Hmax).
    rewrite Hhd. split.
    + intros m' [= <-]. destruct (P1 m Hin) as [Hsub Hsh].
      repeat split; try assumption.
      intros u (pre & post & Hu) Hu_sh.
      destruct (P2 pre u post Hu Hu_sh) as (m1 & Hin1 & Hle).
      specialize (Hmax m1 Hin1). lia.
    + split; [discriminate |]. intro H. exfalso.
      destruct (P1 m Hin) as [Hsub Hsh]. exact (H m Hsub Hsh).
Qed.

Lemma is_whitespace_isSpace (c : ascii) : is_whitespace c = isSpace c.
Proof. ascii_cases c; reflexivity. Qed.

Lemma uppercased_upperChar (c : ascii) : uppercased c = upperChar c.
Proof. ascii_cases c; reflexivity. Qed.

(** The cleaning of the code is the normalisation of the specification. *)
Lemma clean_of_normalized (s : jsstring) : clean_of s = normalized s.
Proof.
  unfold clean_of, normalized, toUpperCase, removeAll.
  induction s as [|c s IH]; [reflexivity |].
  cbn [filter flat_map]. rewrite is_whitespace_isSpace.
  destruct (isSpace c); cbn [negb flat_map app].
  - exact IH.
  - now rewrite IH, uppercased_upperChar.
Qed.

(** The extractor in terms of the cleaning of the code. *)
Lemma line2_extractor_cleaned (text : jsstring) :
  (forall pre line post,
      split NL text = pre ++ line :: post ->
      (forall l, In l pre -> ~ line2_candidate (clean_of l)) ->
      line2_candidate (clean_of line) ->
      extractMrzLine2FromText text = Some (clean_of line)) /\
  ((forall l, In l (split NL text) -> ~ line2_candidate (clean_of l)) ->
   (forall m, extractMrzLine2FromText text = Some m ->
      substring_of m (clean_of text) /\ line2_shape m /\
      forall u, substring_of u (clean_of text) -> line2_shape u -> len u <= len m) /\
   ((exists u, substring_of u (clean_of text) /\ line2_shape u) ->
    exists m, extractMrzLine2FromText text = Some m)) /\
  (extractMrzLine2FromText text = None <->
   (forall l, In l (split NL text) -> ~ line2_candidate (clean_of l)) /\
   (forall u, substring_of u (clean_of text) -> ~ line2_shape u)).
Proof.
  split; [| split].
  - intros pre line post Hsplit Hpre Hline.
    unfold extractMrzLine2FromText.
    assert (H : first_line2 (split NL text) = Some (clean_of line)).
    { apply first_line2_some. exists pre, line, post. repeat split; auto.
      - now apply line2_ok_iff.
      - intros l Hl. apply not_ok_iff. now apply Hpre. }
    now rewrite H.
  - intro Hno.
    assert (Hnone : first_line2 (split NL text) = None).
    { apply first_line2_none. intros l Hl. apply not_ok_iff. now apply Hno. }
    destruct (line2_fallback text Hnone) as [Hsome Hiff].
    split; [exact Hsome |].
    intros (u & Hsub & Hsh).
    destruct (extractMrzLine2FromText text) as [m|] eqn:E; [now exists m |].
    exfalso. exact (proj1 Hiff eq_refl u Hsub Hsh).
  - split.
    + intro Hres.
      assert (Hnone : first_line2 (split NL text) = None).
      { unfold extractMrzLine2FromText in Hres.
        destruct (first_line2 (split NL text)); [discriminate | reflexivity]. }
      split.
      * intros l Hl. apply not_ok_iff. revert l Hl. now apply first_line2_none.
      * now apply (proj2 (line2_fallback text Hnone)).
    + intros [Hno Hshape].
      assert (Hnone : first_line2 (split NL text) = None).
      { apply first_line2_none. intros l Hl. apply not_ok_iff. now apply Hno. }
      now apply (proj2 (line2_fallback text Hnone)).
Qed.

(** C7: the extractor returns the first input line whose normalisation
    (white space stripped, upper case) is a candidate (at least 27
    characters of [0-9A-Z<], 9 to 12 digits in front, a filler somewhere),
    normalised; with no such line it returns a longest occurrence of the
    line-2 shape in the normalised text; it returns [null] only when there
    is neither. *)
Theorem C7_line2_extractor (text : jsstring) :
  (forall pre line post,
      split NL text = pre ++ line :: post ->
      (forall l, In l pre -> ~ line2_candidate (normalized l)) ->
      line2_candidate (normalized line) ->
      extractMrzLine2FromText text = Some (normalized line)) /\
  ((forall l, In l (split NL text) -> ~ line2_candidate (normalized l)) ->
   (forall m, extractMrzLine2FromText text = Some m ->
      substring_of m (normalized text) /\ line2_shape m /\
      forall u, substring_of u (normalized text) -> line2_shape u -> len u <= len m) /\
   ((exists u, substring_of u (normalized text) /\ line2_shape u) ->
    exists m, extractMrzLine2FromText text = Some m)) /\
  (extractMrzLine2FromText text = None <->
   (forall l, In l (split NL text) -> ~ line2_candidate (normalized l)) /\
   (forall u, substring_of u (normalized text) -> ~ line2_shape u)).
Proof.
  destruct (line2_extractor_cleaned text) as (H1 & H2 & H3).
  assert (Hlines : forall ls : list jsstring,
             (forall l, In l ls -> ~ line2_candidate (normalized l)) ->
             forall l, In l ls -> ~ line2_candidate (clean_of l)).
  { intros ls H l Hl. rewrite clean_of_normalized. now apply H. }
  split; [| split].
  - intros pre line post Hsplit Hpre Hline.
    rewrite <- clean_of_normalized in Hline |- *.
    exact (H1 pre line post Hsplit (Hlines pre Hpre) Hline).
  - intro Hno. rewrite <- clean_of_normalized.
    exact (H2 (Hlines _ Hno)).
  - rewrite H3, <- clean_of_normalized. split; intros [Hno Hsh]; split; try exact Hsh.
    + intros l Hl. rewrite <- clean_of_normalized. now apply Hno.
    + now apply Hlines.
Qed.

Lemma C7_witness :
  extractMrzLine2FromText text_with_spaced_line2
  = Some (js "8806923102858CORINNE<<<<<<<6512068F6") /\
  (forall m, extractMrzLine2FromText text_with_shape = Some m ->
     substring_of m (normalized text_with_shape) /\ line2_shape m /\
     forall u, substring_of u (normalized text_with_shape) -> line2_shape u ->
               len u <= len m).
Proof.
  split.
  - apply (proj1 (C7_line2_extractor text_with_spaced_line2)
             [js "Carte nationale"] spaced_line2 []).
    + reflexivity.
    + intros l [<- | []]. rewrite <- clean_of_normalized. apply not_ok_iff. reflexivity.
    + rewrite <- clean_of_normalized. apply line2_ok_iff. reflexivity.
  - apply (proj1 (proj2 (C7_line2_extractor text_with_shape))).
    intros l [<- | []]. rewrite <- clean_of_normalized. apply not_ok_iff. reflexivity.
Defined.

Example extract_text_with_shape :
  extractMrzLine2FromText text_with_shape
  = Some (js "8806923102858CORINNE<<<<<<<6512068F6YY").
Proof. reflexivity. Qed.

(** ** Card-number extractor *)

Lemma exec_from_sound (re : regex) :
  forall s prev i i' segs,
    exec_from re prev s i = Some (i', segs) -> Forall2 seg_ok re segs.
Proof.
  induction s as [|c s IH]; intros prev i i' segs H; cbn [exec_from] in H.
  - destruct (match_items re prev []) as [x|] eqn:E; [| discriminate].
    injection H as _ <-. exact (proj1 (match_items_sound _ _ _ _ E)).
  - destruct (match_items re prev (c :: s)) as [x|] eqn:E.
    + injection H as _ <-. exact (proj1 (match_items_sound _ _ _ _ E)).
    + exact (IH _ _ _ _ H).
Qed.

Lemma twelve_digits (seg : jsstring) :
  seg_ok (Cls isDigit 12 (Some 12)) seg -> len seg = 12 /\ forallb isDigit seg = true.
Proof.
  inversion 1 as [p lo hi seg' Hall Hlo Hhi| | |]; subst.
  specialize (Hhi 12 eq_refl). split; [lia | assumption].
Qed.

Lemma re_label_group (segs : list jsstring) :
  Forall2 seg_ok re_label segs ->
  len (group 6 segs) = 12 /\ forallb isDigit (group 6 segs) = true.
Proof.
  unfold re_label. intro H. invert_segs. cbn [group nth]. now apply twelve_digits.
Qed.

Lemma re_twelve_group (segs : list jsstring) :
  Forall2 seg_ok re_twelve segs ->
  len (group 1 segs) = 12 /\ forallb isDigit (group 1 segs) = true.
Proof.
  unfold re_twelve. intro H. invert_segs. cbn [group nth]. now apply twelve_digits.
Qed.

Lemma first_unlabelled_digits (lines : list jsstring) (cn : jsstring) :
  first_unlabelled lines = Some cn -> len cn = 12 /\ forallb isDigit cn = true.
Proof.
  induction lines as [|line rest IH]; cbn [first_unlabelled]; [discriminate |].
  destruct (includes (js "<") line); [exact IH |].
  destruct (exec re_twelve line) as [[i segs]|] eqn:E; [| exact IH].
  intros [= <-]. apply re_twelve_group. exact (exec_from_sound _ _ _ _ _ _ E).
Qed.

(** Whatever the extractor returns is a run of 12 digits. *)
Lemma extractCardNumber_digits (text cn : jsstring) :
  extractCardNumberFromText text = Some cn ->
  len cn = 12 /\ forallb isDigit cn = true.
Proof.
  unfold extractCardNumberFromText.
  destruct (exec re_label text) as [[i segs]|] eqn:E.
  - intros [= <-]. apply re_label_group. exact (exec_from_sound _ _ _ _ _ _ E).
  - destruct (first_unlabelled (split NL text)) as [m|] eqn:F.
    + intros [= <-]. exact (first_unlabelled_digits _ _ F).
    + destruct (exec re_twelve text) as [[i segs]|] eqn:G; [| discriminate].
      intros [= <-]. apply re_twelve_group. exact (exec_from_sound _ _ _ _ _ _ G).
Qed.

(** Whatever the second-line extractor returns has 25 characters or more. *)
Lemma extractMrzLine2_length (text l2 : jsstring) :
  extractMrzLine2FromText text = Some l2 -> 25 <= len l2.
Proof.
  intro H. destruct (first_line2 (split NL text)) as [m|] eqn:E.
  - unfold extractMrzLine2FromText in H. rewrite E in H. injection H as <-.
    apply first_line2_some in E as (pre & line & post & _ & -> & Hok & _).
    apply line2_ok_iff in Hok as [Hlen _]. lia.
  - apply line2_shape_length. exact (proj1 (proj2 (proj1 (line2_fallback text E) l2 H))).
Qed.

(** ** The Tesseract path of the handler *)

(** C3: on the Tesseract path the checks run in this order: no card
    number gives [card_number_not_found]; else no second MRZ line gives
    [mrz_line2_not_found], the card number still reported; else a card
    number absent from the normalised line gives
    [card_number_mrz_mismatch]; else the outcome is verified with the
    fallback method.  An extracted card number is a run of 12 digits. *)
Theorem C3_secondary_check_order (text : jsstring) (debug : bool) :
  let resp := secondary_response text debug in
  match extractCardNumberFromText text with
  | None =>
      status resp = 422%Z /\ get (body resp) "valid" = JBool false /\
      reason_of resp = JStr (js "card_number_not_found")
  | Some cn =>
      len cn = 12 /\ forallb isDigit cn = true /\
      match extractMrzLine2FromText text with
      | None =>
          status resp = 422%Z /\ get (body resp) "valid" = JBool false /\
          reason_of resp = JStr (js "mrz_line2_not_found") /\
          get (body resp) "card_number" = JStr cn
      | Some l2 =>
          if includes (normalizeMrz cn) (normalizeMrz l2)
          then
            status resp = 200%Z /\ get (body resp) "valid" = JBool true /\
            get (body resp) "method" = JStr METHOD_TESS /\
            get (body resp) "card_number" = JStr cn /\
            get (body resp) "mrz_line2" = JStr l2
          else
            status resp = 422%Z /\ get (body resp) "valid" = JBool false /\
            reason_of resp = JStr (js "card_number_mrz_mismatch")
      end
  end.
Proof.
  cbv zeta. unfold secondary_response, reason_of.
  destruct (extractCardNumberFromText text) as [cn|] eqn:Ecn.
  - destruct (extractCardNumber_digits _ _ Ecn) as [Hlen Hdig].
    cbn [falsy_opt]. rewrite Hlen. cbn [Nat.eqb].
    split; [reflexivity |]. split; [assumption |].
    destruct (extractMrzLine2FromText text) as [l2|] eqn:El2.
    + pose proof (extractMrzLine2_length _ _ El2) as Hl2.
      cbn [falsy_opt]. destruct (len l2 =? 0) eqn:Z; [apply Nat.eqb_eq in Z; lia |].
      cbn [text_of].
      destruct (includes (normalizeMrz cn) (normalizeMrz l2)); cbn [negb];
        repeat split; reflexivity.
    + cbn [falsy_opt]. repeat split; reflexivity.
  - cbn [falsy_opt]. repeat split; reflexivity.
Qed.

Example secondary_on_sample :
  status (secondary_response tesseract_text_ok false) = 200%Z /\
  get (body (secondary_response tesseract_text_ok false)) "card_number"
  = JStr (js "880692310285").
Proof. split; reflexivity. Qed.

(** ** Bodies on the wire *)

Lemma to_json_obj_cons (k : String.string) (x : jsval)
      (rest : list (String.string * jsval)) :
  to_json (JObj ((k, x) :: rest))
  = match to_json x, to_json (JObj rest) with
    | JUndefined, r => r
    | y, JObj fs => JObj ((k, y) :: fs)
    | y, _ => JObj [(k, y)]
    end.
Proof. cbn [to_json]. destruct (to_json x); reflexivity. Qed.

Lemma to_json_obj_is_obj (fields : list (String.string * jsval)) :
  exists fs, to_json (JObj fields) = JObj fs.
Proof. cbn [to_json]. eexists; reflexivity. Qed.

(** The first field of a key survives serialisation when it is defined. *)
Lemma wire_get (fields : list (String.string * jsval)) (k : String.string) (v : jsval) :
  assoc k fields = Some v -> to_json v <> JUndefined ->
  get (to_json (JObj fields)) k = to_json v.
Proof.
  induction fields as [|[k' x] rest IH]; [discriminate |].
  intros Hk Hv. rewrite to_json_obj_cons.
  destruct (to_json_obj_is_obj rest) as [fs Hfs]. rewrite Hfs in *.
  cbn [assoc] in Hk. destruct (String.eqb k k') eqn:E.
  - injection Hk as ->. destruct (to_json v) eqn:Ev; try contradiction;
      cbn [get assoc]; now rewrite E.
  - specialize (IH Hk Hv).
    destruct (to_json x); cbn [get assoc] in *; rewrite ?E; exact IH.
Qed.

Lemma wire_get_none (fields : list (String.string * jsval)) (k : String.string) :
  assoc k fields = None -> get (to_json (JObj fields)) k = JUndefined.
Proof.
  induction fields as [|[k' x] rest IH]; [reflexivity |].
  intro Hk. rewrite to_json_obj_cons.
  destruct (to_json_obj_is_obj rest) as [fs Hfs]. rewrite Hfs in *.
  cbn [assoc] in Hk. destruct (String.eqb k k') eqn:E; [discriminate |].
  specialize (IH Hk).
  destruct (to_json x); cbn [get assoc] in *; rewrite ?E; exact IH.
Qed.



(** ** Traces and results of the handler *)

Lemma appends_ret {A : Type} (P : Event -> Prop) (a : A) : appends P (ret a).
Proof. intros w tr r tr' [= <- <-]. exists []. now rewrite app_nil_r. Qed.

Lemma appends_throw {A : Type} (P : Event -> Prop) (e : Error) :
  appends P (@throw A e).
Proof. intros w tr r tr' [= <- <-]. exists []. now rewrite app_nil_r. Qed.

Lemma appends_ask {A : Type} (P : Event -> Prop) (proj : World -> A) :
  appends P (ask proj).
Proof. intros w tr r tr' [= <- <-]. exists []. now rewrite app_nil_r. Qed.

Lemma appends_bind {A B : Type} (P : Event -> Prop) (m : M A) (k : A -> M B) :
  appends P m -> (forall a, appends P (k a)) -> appends P (bind m k).
Proof.
  intros Hm Hk w tr r tr' H. unfold bind in H.
  destruct (m w tr) as [[e | a] tr1] eqn:E.
  - injection H as <- <-. exact (Hm _ _ _ _ E).
  - destruct (Hm _ _ _ _ E) as (evs1 & -> & F1).
    destruct (Hk a _ _ _ _ H) as (evs2 & -> & F2).
    exists (evs1 ++ evs2). split; [now rewrite app_assoc | now apply Forall_app].
Qed.

Lemma appends_try_catch {A : Type} (P : Event -> Prop) (m : M A) (h : Error -> M A) :
  appends P m -> (forall e, appends P (h e)) -> appends P (try_catch m h).
Proof.
  intros Hm Hh w tr r tr' H. unfold try_catch in H.
  destruct (m w tr) as [[e | a] tr1] eqn:E.
  - destruct (Hm _ _ _ _ E) as (evs1 & -> & F1).
    destruct (Hh e _ _ _ _ H) as (evs2 & -> & F2).
    exists (evs1 ++ evs2). split; [now rewrite app_assoc | now apply Forall_app].
  - injection H as <- <-. exact (Hm _ _ _ _ E).
Qed.

Lemma appends_one {A : Type} (P : Event -> Prop) (m : M A) (e : Event) :
  (forall w tr, snd (m w tr) = tr ++ [e]) -> P e -> appends P m.
Proof.
  intros Hm He w tr r tr' H. exists [e].
  specialize (Hm w tr). rewrite H in Hm. cbn [snd] in Hm.
  split; [assumption | now constructor].
Qed.

Lemma appends_run (P : Event -> Prop) (cmd : jsstring) (args : list jsstring) (t : Z) :
  P (EvSpawn cmd args t) -> appends P (run cmd args t).
Proof.
  apply appends_one. intros w tr. unfold run.
  destruct (spawn_outcome w tr cmd args t) as [[[| |]|] ? ?| |]; reflexivity.
Qed.

Lemma appends_first_accessible (tmpDir : jsstring) (cs : list jsstring) :
  appends primary_event (first_accessible tmpDir cs).
Proof.
  induction cs as [|c cs IH]; cbn [first_accessible]; [apply appends_ret |].
  apply appends_bind.
  - apply (appends_one _ _ (EvAccess (path_join tmpDir c))); [reflexivity | exact I].
  - intros [|]; [apply appends_ret | exact IH].
Qed.

(** The primary attempt spawns [pdftoppm] and [python3] and nothing else. *)
Lemma readMrz_appends (pdfPath tmpDir : jsstring) :
  appends primary_event (readMrzWithPassportEye pdfPath tmpDir).
Proof.
  unfold readMrzWithPassportEye.
  apply appends_bind; [apply appends_run; now left | intros _].
  apply appends_bind; [apply appends_first_accessible | intros found].
  apply appends_bind.
  - destruct found as [p|]; [apply appends_ret |].
    apply appends_bind.
    + apply (appends_one _ _ (EvReaddir tmpDir)); [reflexivity | exact I].
    + intros files. destruct (find _ files); [apply appends_ret | apply appends_throw].
  - intros imgPath. apply appends_bind; [apply appends_ask | intros script].
    apply appends_bind; [apply appends_run; now right | intros res].
    apply appends_bind; [apply appends_ask | intros parse].
    destruct (parse (trim (fst res))); [apply appends_ret | apply appends_throw].
Qed.

Lemma primary_event_not_fallback (e : Event) :
  primary_event e -> is_fallback_spawn e = false.
Proof.
  destruct e as [cmd args t| | | | | | | |]; cbn; try reflexivity; try contradiction.
  intros [-> | ->]; reflexivity.
Qed.

(** C2: when the primary engine returns [ok = true] with a non-empty
    card number, the handler answers 200 with the primary method at once,
    and no process of the fallback engine is spawned in that run. *)
Theorem C2_primary_success_skips_fallback
        (w : World) (req : Request) (tr0 : Trace) (buffer tmpDir : jsstring)
        (peye : jsval) (tr1 : Trace) (number : jsstring) :
  req_file req = Some buffer ->
  isPdfBuffer buffer = true ->
  primary_returns w tr0 buffer tmpDir peye tr1 ->
  get peye "ok" = JBool true ->
  get peye "number" = JStr number ->
  number <> [] ->
  exists evs,
    verify_id req w tr0 = (inr (primary_response peye), tr0 ++ evs) /\
    status (primary_response peye) = 200%Z /\
    get (wire (primary_response peye)) "valid" = JBool true /\
    get (wire (primary_response peye)) "method" = JStr METHOD_PEYE /\
    get (wire (primary_response peye)) "card_number" = JStr number /\
    forall e, In e evs -> is_fallback_spawn e = false.
Proof.
  intros Hfile Hpdf (Hmk & Hwr & Hrun) Hok Hnum Hne.
  destruct (readMrz_appends _ _ _ _ _ _ Hrun) as (evp & Htr1 & Hevp).
  set (prefix := path_join (os_tmpdir w) (js "verifid-")) in *.
  set (inPdf := path_join tmpDir (js "input.pdf")) in *.
  exists ([EvAcquire; EvMkdtemp prefix; EvWriteFile inPdf] ++ evp
          ++ [EvRelease; EvRm tmpDir]).
  assert (Htruthy : truthy (get peye "ok") && truthy (get peye "number") = true).
  { rewrite Hok, Hnum. cbn [truthy andb]. destruct number; [congruence | reflexivity]. }
  split; [| split; [reflexivity | split; [| split; [| split]]]].
  2: { unfold wire, primary_response. cbn [body].
       now rewrite (wire_get _ "valid" (JBool true)). }
  2: { unfold wire, primary_response. cbn [body].
       now rewrite (wire_get _ "method" (JStr METHOD_PEYE)). }
  - unfold verify_id. rewrite Hfile, Hpdf. cbn [negb].
    unfold bind at 1. unfold emit at 1. unfold bind at 1. unfold ask at 1.
    unfold bind at 1. unfold fs_mkdtemp at 1. fold prefix. rewrite Hmk.
    unfold finally, try_catch at 1. unfold verify_id_body. fold inPdf.
    unfold bind at 1. unfold fs_writeFile at 1.
    rewrite <- !app_assoc. cbn [app]. rewrite Hwr.
    unfold bind at 1. unfold try_catch at 1.
    replace ((tr0 ++ [EvAcquire; EvMkdtemp prefix]) ++ [EvWriteFile inPdf])
      with (tr0 ++ [EvAcquire; EvMkdtemp prefix; EvWriteFile inPdf])
      by (now rewrite <- app_assoc).
    rewrite Hrun, Htruthy. unfold ret. f_equal.
    rewrite Htr1, <- !app_assoc. reflexivity.
  - unfold wire, primary_response. cbn [body].
    rewrite (wire_get _ "card_number" (JStr number));
      [reflexivity | cbn [assoc String.eqb Ascii.eqb Bool.eqb]; now rewrite Hnum
       | discriminate].
  - intros e He. cbn [app In] in He.
    destruct He as [<- | [<- | [<- | He]]]; try reflexivity.
    apply in_app_or in He as [He | He].
    + apply primary_event_not_fallback. rewrite Forall_forall in Hevp. now apply Hevp.
    + destruct He as [<- | [<- | []]]; reflexivity.
Qed.

Lemma C2_witness :
  exists evs,
    verify_id sample_request (sample_world peye_stdout_ok) []
    = (inr (primary_response peye_value_ok), [] ++ evs) /\
    forall e, In e evs -> is_fallback_spawn e = false.
Proof.
  destruct (C2_primary_success_skips_fallback
              (sample_world peye_stdout_ok) sample_request []
              (PDF_MAGIC ++ js "-1.7 scan") (js "/tmp/verifid-a1b2c3")
              peye_value_ok
              (snd (readMrzWithPassportEye (js "/tmp/verifid-a1b2c3/input.pdf")
                      (js "/tmp/verifid-a1b2c3") (sample_world peye_stdout_ok)
                      [EvAcquire; EvMkdtemp (js "/tmp/verifid-");
                       EvWriteFile (js "/tmp/verifid-a1b2c3/input.pdf")]))
              (js "X4RTBPFW4"))
    as (evs & Hrun & _ & _ & _ & _ & Hev).
  - reflexivity.
  - reflexivity.
  - repeat split; reflexivity.
  - reflexivity.
  - reflexivity.
  - discriminate.
  - exists evs. split; assumption.
Defined.

Lemma returns_ret {A : Type} (Q : A -> Prop) (a : A) : Q a -> returns Q (ret a).
Proof. intros H w tr a' tr' [= <- _]. exact H. Qed.

Lemma returns_throw {A : Type} (Q : A -> Prop) (e : Error) : returns Q (@throw A e).
Proof. intros w tr a tr' H. discriminate H. Qed.

Lemma returns_any {A : Type} (m : M A) : returns (fun _ => True) m.
Proof. intros w tr a tr' _. exact I. Qed.

Lemma returns_bind {A B : Type} (Q1 : A -> Prop) (Q : B -> Prop)
      (m : M A) (k : A -> M B) :
  returns Q1 m -> (forall a, Q1 a -> returns Q (k a)) -> returns Q (bind m k).
Proof.
  intros Hm Hk w tr b tr' H. unfold bind in H.
  destruct (m w tr) as [[e | a] tr1] eqn:E; [discriminate |].
  exact (Hk a (Hm _ _ _ _ E) _ _ _ _ H).
Qed.

Lemma returns_try_catch {A : Type} (Q : A -> Prop) (m : M A) (h : Error -> M A) :
  returns Q m -> (forall e, returns Q (h e)) -> returns Q (try_catch m h).
Proof.
  intros Hm Hh w tr a tr' H. unfold try_catch in H.
  destruct (m w tr) as [[e | a0] tr1] eqn:E.
  - exact (Hh e _ _ _ _ H).
  - injection H as <- _. exact (Hm _ _ _ _ E).
Qed.

Lemma returns_finally {A : Type} (Q : A -> Prop) (m : M A) (f : Trace -> Trace) :
  returns Q m -> returns Q (finally m f).
Proof.
  intros Hm w tr a tr' H. unfold finally in H.
  destruct (m w tr) as [r tr1] eqn:E. injection H as -> _. exact (Hm _ _ _ _ E).
Qed.

(** Every response of the handler is one of the six the source builds. *)
Lemma verify_id_cases (req : Request) :
  returns (verify_id_response (req_debug req)) (verify_id req).
Proof.
  unfold verify_id. destruct (req_file req) as [buffer|];
    [| apply returns_ret; constructor].
  destruct (isPdfBuffer buffer); cbn [negb]; [| apply returns_ret; constructor].
  apply (returns_bind (fun _ => True)); [apply returns_any | intros _ _].
  apply (returns_bind (fun _ => True)); [apply returns_any | intros tmp _].
  apply (returns_bind (fun _ => True)); [apply returns_any | intros tmpDir _].
  apply returns_finally, returns_try_catch;
    [| intro e; apply returns_ret; constructor].
  unfold verify_id_body.
  apply (returns_bind (fun _ => True)); [apply returns_any | intros _ _].
  apply (returns_bind (fun _ => True)); [apply returns_any | intros peye _].
  destruct (truthy (get peye "ok") && truthy (get peye "number")) eqn:E.
  - apply andb_prop in E as [Hok Hnum]. apply returns_ret. now constructor.
  - apply (returns_bind
             (fun r => match r with
                       | inl resp => exists e, resp = ocr_failed_response peye e (req_debug req)
                       | inr _ => True
                       end)).
    + apply returns_try_catch.
      * apply (returns_bind (fun _ => True)); [apply returns_any | intros text _].
        apply returns_ret. exact I.
      * intro e. apply returns_ret. now exists e.
    + intros [resp | text] Hr; apply returns_ret.
      * destruct Hr as [e ->]. constructor.
      * constructor.
Qed.



Lemma str_eqb_eq (a b : jsstring) : str_eqb a b = true <-> a = b.
Proof.
  revert b; induction a as [|x a IH]; intros [|y b]; cbn [str_eqb];
    try (split; [discriminate | congruence]); [tauto |].
  rewrite andb_true_iff, Ascii.eqb_eq, IH. split; [intros [-> ->] | intros [= -> ->]]; auto.
Qed.












(** ** The Doctr node *)

(** The method tag of the Doctr node is none of the two of
    [/verify-id]; on the specimen card all its checksums hold. *)
Example doctr_on_specimen :
  exists out,
    doctr_main (JObj [("text", JStr sample_td1); ("page_count", JNum 1)])
    = Some (DoctrJson out) /\
    get out "method" = JStr (js "doctr_mrz") /\
    get out "card_number" = JStr (js "X4RTBPFW4") /\
    get out "confidence" = JStr (js "high") /\
    get out "date_of_birth" = JStr (js "1990-07-13").
Proof. eexists. split; [vm_compute; reflexivity | repeat split]. Qed.

(** A text without MRZ gives the last outcome, and a [null] item makes
    the script throw. *)
Example doctr_without_mrz :
  doctr_main (JObj [("text", JStr (js " no MRZ here "))])
  = Some (DoctrMrzNotFound JNull (js "no MRZ here")) /\
  doctr_main JNull = None.
Proof. split; reflexivity. Qed.

(* ================================================================== *)
(** * Further properties *)

(** ** The semaphore *)

(** What every reachable state of the semaphore satisfies, [n] handles
    having been used. *)
Lemma sem_run_invariant (ops : list sem_op) :
  forall s n s' n',
    (0 <= sem_max s)%Z ->
    sem_running s = (Z.of_nat (List.length (sem_resolved s)) - Z.of_nat n)%Z ->
    n <= List.length (sem_resolved s) ->
    (sem_running s <= sem_max s)%Z ->
    (sem_queue s <> [] -> sem_running s = sem_max s) ->
    sem_run s n ops = Some (s', n') ->
    sem_max s' = sem_max s /\
    sem_running s' = (Z.of_nat (List.length (sem_resolved s')) - Z.of_nat n')%Z /\
    n' <= List.length (sem_resolved s') /\
    (sem_running s' <= sem_max s')%Z /\
    (sem_queue s' <> [] -> sem_running s' = sem_max s') /\
    sem_resolved s' ++ sem_queue s' = (sem_resolved s ++ sem_queue s) ++ arrivals ops.
Proof.
  induction ops as [|op ops IH]; intros s n s' n' Hmax Hrun Hn Hle Hq H.
  - injection H as <- <-. rewrite app_nil_r. repeat split; auto.
  - destruct op as [id|]; cbn [sem_run arrivals] in H |- *.
    + unfold acquire, tryRun in H.
      destruct (sem_running s <? sem_max s)%Z eqn:E.
      * apply Z.ltb_lt in E.
        assert (Hempty : sem_queue s = []).
        { destruct (sem_queue s) as [|x q] eqn:Q; [reflexivity |].
          assert (sem_running s = sem_max s) by (apply Hq; discriminate). lia. }
        apply IH in H; cbn [sem_max sem_running sem_resolved sem_queue] in *.
        -- destruct H as (H1 & H2 & H3 & H4 & H5 & H6).
           repeat split; auto. rewrite H6, Hempty, !app_nil_r, <- app_assoc.
           reflexivity.
        -- assumption.
        -- rewrite length_app. cbn [List.length]. lia.
        -- rewrite length_app. cbn [List.length]. lia.
        -- lia.
        -- rewrite Hempty. congruence.
      * apply Z.ltb_ge in E.
        apply IH in H; cbn [sem_max sem_running sem_resolved sem_queue] in *.
        -- destruct H as (H1 & H2 & H3 & H4 & H5 & H6).
           repeat split; auto. rewrite H6, <- !app_assoc. reflexivity.
        -- assumption.
        -- assumption.
        -- assumption.
        -- assumption.
        -- intros _. lia.
    + destruct (n <? List.length (sem_resolved s)) eqn:E; [| discriminate].
      apply Nat.ltb_lt in E. unfold release in H.
      destruct (sem_queue s) as [|next rest] eqn:Q.
      * apply IH in H; cbn [sem_max sem_running sem_resolved sem_queue] in *.
        -- destruct H as (H1 & H2 & H3 & H4 & H5 & H6).
           repeat split; auto.
        -- assumption.
        -- lia.
        -- lia.
        -- lia.
        -- congruence.
      * assert (Hfull : sem_running s = sem_max s) by (apply Hq; discriminate).
        unfold tryRun in H. cbn [sem_max sem_running sem_resolved sem_queue] in H.
        assert (Hlt : (sem_running s - 1 <? sem_max s)%Z = true)
          by (apply Z.ltb_lt; lia).
        rewrite Hlt in H.
        apply IH in H; cbn [sem_max sem_running sem_resolved sem_queue] in *.
        -- destruct H as (H1 & H2 & H3 & H4 & H5 & H6).
           repeat split; auto. rewrite H6, <- !app_assoc. reflexivity.
        -- assumption.
        -- rewrite length_app. cbn [List.length]. lia.
        -- rewrite length_app. cbn [List.length]. lia.
        -- lia.
        -- intros _. lia.
Qed.

(** X1: whatever the order of the calls, the resolved calls that still hold
    their handle are counted by [running], and they are never more than
    [max]. *)
Theorem semaphore_never_exceeds_max (max : Z) (ops : list sem_op) (s : Sem) (n : nat) :
  (0 <= max)%Z ->
  sem_run (new_sem max) 0 ops = Some (s, n) ->
  sem_running s = Z.of_nat (List.length (sem_resolved s) - n) /\
  (0 <= sem_running s <= max)%Z.
Proof.
  intros Hmax H.
  destruct (sem_run_invariant ops (new_sem max) 0 s n Hmax eq_refl (le_n 0) Hmax
              (fun h => False_ind _ (h eq_refl)) H)
    as (H1 & H2 & H3 & H4 & _).
  cbn [new_sem sem_max] in H1. rewrite H1 in H4. lia.
Qed.

Lemma semaphore_never_exceeds_max_witness :
  sem_running (new_sem 2) = 0%Z /\
  exists s n,
    sem_run (new_sem 2) 0 [Acquire 1; Acquire 2; Acquire 3; Release; Acquire 4] = Some (s, n) /\
    (0 <= sem_running s <= 2)%Z.
Proof.
  split; [reflexivity |]. eexists _, _. split; [reflexivity |].
  refine (proj2 (semaphore_never_exceeds_max 2
                   [Acquire 1; Acquire 2; Acquire 3; Release; Acquire 4] _ _ _ eq_refl)).
  lia.
Defined.

(** X2: the calls are resolved in their order of arrival, the waiting ones
    queue in that order behind them, and a call waits only while all the
    slots are taken. *)
Theorem semaphore_is_fifo (max : Z) (ops : list sem_op) (s : Sem) (n : nat) :
  (0 <= max)%Z ->
  sem_run (new_sem max) 0 ops = Some (s, n) ->
  sem_resolved s ++ sem_queue s = arrivals ops /\
  (sem_queue s <> [] -> sem_running s = max).
Proof.
  intros Hmax H.
  destruct (sem_run_invariant ops (new_sem max) 0 s n Hmax eq_refl (le_n 0) Hmax
              (fun h => False_ind _ (h eq_refl)) H)
    as (H1 & _ & _ & _ & H5 & H6).
  cbn [new_sem sem_max sem_resolved sem_queue app] in H1, H6.
  rewrite H1 in H5. now split.
Qed.

Lemma semaphore_is_fifo_witness :
  exists s n,
    sem_run (new_sem 2) 0 [Acquire 1; Acquire 2; Acquire 3; Release; Acquire 4] = Some (s, n) /\
    sem_resolved s ++ sem_queue s = [1; 2; 3; 4].
Proof.
  eexists _, _. split; [reflexivity |].
  refine (proj1 (semaphore_is_fifo 2
                   [Acquire 1; Acquire 2; Acquire 3; Release; Acquire 4] _ _ _ eq_refl)).
  lia.
Defined.

(** ** Language check *)

Lemma has_lang_in (lang : jsstring) : has_lang lang = true <-> In lang SUPPORTED_LANGS.
Proof.
  unfold has_lang. rewrite existsb_exists. split.
  - intros (x & Hx & Heq). apply str_eqb_eq in Heq. now subst.
  - intro H. exists lang. split; [assumption | now apply str_eqb_eq].
Qed.

Lemma supported_lang_fixed (lang : jsstring) :
  In lang SUPPORTED_LANGS -> trim (toLowerCase lang) = lang.
Proof.
  intro H. cbn [SUPPORTED_LANGS In] in H.
  repeat (destruct H as [<- | H]; [reflexivity |]). contradiction.
Qed.

(** X3: what [sanitizeLang] returns is one of the supported codes, namely
    the input in small letters and trimmed; on such a code it changes
    nothing; what it throws carries the status 400. *)
Theorem sanitizeLang_result (raw : jsstring) :
  match sanitizeLang raw with
  | inr lang =>
      In lang SUPPORTED_LANGS /\ lang = trim (toLowerCase raw) /\
      sanitizeLang lang = inr lang
  | inl e => err_status e = 400%Z /\ ~ In (trim (toLowerCase raw)) SUPPORTED_LANGS
  end.
Proof.
  unfold sanitizeLang at 1.
  destruct (has_lang (trim (toLowerCase raw))) eqn:E; cbn [negb].
  - apply has_lang_in in E as Hin. split; [assumption |]. split; [reflexivity |].
    unfold sanitizeLang. rewrite (supported_lang_fixed _ Hin), E. reflexivity.
  - split; [reflexivity |]. intro Hin. apply has_lang_in in Hin. congruence.
Qed.

Example sanitizeLang_upper_padded : sanitizeLang (js " FRA ") = inr (js "fra").
Proof. reflexivity. Qed.

(** ** More on the checksum *)

Lemma icao_terms_app (a b : jsstring) :
  forall i, zsum (icao_terms i (a ++ b))
            = (zsum (icao_terms i a) + zsum (icao_terms (i + len a) b))%Z.
Proof.
  induction a as [|c a IH]; intro i.
  - cbn [app len List.length]. rewrite Nat.add_0_r.
    unfold icao_terms at 2. cbn. lia.
  - cbn [app]. rewrite !icao_terms_cons. unfold zsum in *. cbn [fold_right].
    rewrite IH. unfold len. cbn [List.length].
    replace (S i + List.length a) with (i + S (List.length a)) by lia. lia.
Qed.

Lemma icao_terms_fillers (n : nat) : forall i, zsum (icao_terms i (repeat LT n)) = 0%Z.
Proof.
  induction n as [|n IH]; intro i; [reflexivity |].
  cbn [repeat]. rewrite icao_terms_cons. unfold zsum in *. cbn [fold_right].
  rewrite IH. reflexivity.
Qed.

(** X4: fillers added behind a field do not change its check digit. *)
Theorem mrzChecksum_ignores_trailing_fillers (s : jsstring) (n : nat) :
  mrzChecksum (s ++ repeat LT n) = mrzChecksum s.
Proof.
  rewrite !mrzChecksum_icao. unfold icao_checksum.
  now rewrite icao_terms_app, icao_terms_fillers, Z.add_0_r.
Qed.

Lemma digit_values_differ (c1 c2 : ascii) (i : nat) :
  isDigit c1 = true -> isDigit c2 = true -> c1 <> c2 ->
  (((icao_value c1 - icao_value c2) * icao_weight i) mod 10 <> 0)%Z.
Proof.
  intros H1 H2 Hne.
  apply isDigit_cases in H1. apply isDigit_cases in H2.
  cbn [In String.list_ascii_of_string] in H1, H2.
  unfold icao_weight.
  repeat (destruct H1 as [<- | H1]; [| ]); try contradiction;
    repeat (destruct H2 as [<- | H2]; [| ]); try contradiction;
    try congruence;
    destruct (i mod 3) as [|[|k]]; vm_compute; discriminate.
Qed.

(** X5: replacing one digit of a field by another digit always changes
    the check digit. *)
Theorem mrzChecksum_detects_digit_substitution (a b : jsstring) (c1 c2 : ascii) :
  isDigit c1 = true -> isDigit c2 = true -> c1 <> c2 ->
  mrzChecksum (a ++ c1 :: b) <> mrzChecksum (a ++ c2 :: b).
Proof.
  intros H1 H2 Hne. rewrite !mrzChecksum_icao. unfold icao_checksum.
  rewrite !icao_terms_app, !icao_terms_cons. unfold zsum. cbn [fold_right].
  fold (zsum (icao_terms 0 a)). fold (zsum (icao_terms (S (0 + len a)) b)).
  set (A := zsum (icao_terms 0 a)). set (B := zsum (icao_terms (S (0 + len a)) b)).
  set (w := icao_weight (0 + len a)).
  intros [= Heq].
  pose proof (digit_values_differ c1 c2 (0 + len a) H1 H2 Hne) as Hd. fold w in Hd.
  apply Hd.
  replace ((icao_value c1 - icao_value c2) * w)%Z
    with ((A + (icao_value c1 * w + B)) - (A + (icao_value c2 * w + B)))%Z by ring.
  rewrite Zminus_mod, Heq, Z.sub_diag. reflexivity.
Qed.

Lemma mrzChecksum_detects_digit_substitution_witness :
  mrzChecksum (js "930430") <> mrzChecksum (js "930480").
Proof.
  apply (mrzChecksum_detects_digit_substitution (js "9304") (js "0") "3"%char "8"%char);
    [reflexivity | reflexivity | discriminate].
Defined.

(** ** Line normalisation *)

Lemma forallb_flat_map (P : ascii -> bool) (f : ascii -> jsstring) (l : jsstring) :
  (forall c, forallb P (f c) = true) -> forallb P (flat_map f l) = true.
Proof.
  intro H. induction l as [|c l IH]; [reflexivity |].
  cbn [flat_map]. now rewrite forallb_app, H, IH.
Qed.

Lemma forallb_map_impl (P Q : ascii -> bool) (g : ascii -> ascii) (l : jsstring) :
  (forall c, P c = true -> Q (g c) = true) ->
  forallb P l = true -> forallb Q (map g l) = true.
Proof.
  intro H. induction l as [|c l IH]; [reflexivity |].
  cbn [forallb map]. intro Hl. apply andb_prop in Hl as [Hc Hl].
  now rewrite (H c Hc), (IH Hl).
Qed.

Lemma forallb_filter_and (P q : ascii -> bool) (l : jsstring) :
  forallb P l = true -> forallb (fun c => P c && q c) (filter q l) = true.
Proof.
  induction l as [|c l IH]; [reflexivity |].
  cbn [forallb filter]. intro Hl. apply andb_prop in Hl as [Hc Hl].
  destruct (q c) eqn:E; [| now apply IH].
  cbn [forallb]. now rewrite Hc, E, (IH Hl).
Qed.

Lemma filter_all (q : ascii -> bool) (l : jsstring) :
  forallb q l = true -> filter q l = l.
Proof.
  induction l as [|c l IH]; [reflexivity |].
  cbn [forallb filter]. intro Hl. apply andb_prop in Hl as [Hc Hl].
  now rewrite Hc, (IH Hl).
Qed.

Lemma map_fixed (P : ascii -> bool) (g : ascii -> ascii) (l : jsstring) :
  (forall c, P c = true -> g c = c) -> forallb P l = true -> map g l = l.
Proof.
  intro H. induction l as [|c l IH]; [reflexivity |].
  cbn [forallb map]. intro Hl. apply andb_prop in Hl as [Hc Hl].
  now rewrite (H c Hc), (IH Hl).
Qed.

Lemma flat_map_fixed (P : ascii -> bool) (f : ascii -> jsstring) (l : jsstring) :
  (forall c, P c = true -> f c = [c]) -> forallb P l = true -> flat_map f l = l.
Proof.
  intro H. induction l as [|c l IH]; [reflexivity |].
  cbn [forallb flat_map]. intro Hl. apply andb_prop in Hl as [Hc Hl].
  now rewrite (H c Hc), (IH Hl).
Qed.

Lemma upperChar_no_lower (c : ascii) :
  forallb (fun x => negb (isLower x)) (upperChar c) = true.
Proof. ascii_cases c; reflexivity. Qed.

Lemma norm_char_step1 (c : ascii) :
  negb (isLower c) = true ->
  negb (isLower (if is_char "O"%char c then "0"%char else c))
  && negb (Ascii.eqb (if is_char "O"%char c then "0"%char else c) "O"%char) = true.
Proof. ascii_cases c; vm_compute; intro H; try reflexivity; discriminate H. Qed.

Lemma norm_char_step2 (c : ascii) :
  negb (isLower c) && negb (Ascii.eqb c "O"%char) = true ->
  negb (isLower (if is_char (chr 171) c || is_char (chr 187) c then LT else c))
  && negb (Ascii.eqb (if is_char (chr 171) c || is_char (chr 187) c then LT else c)
             "O"%char) = true.
Proof. ascii_cases c; vm_compute; intro H; try reflexivity; discriminate H. Qed.

Lemma norm_char_step3 (c : ascii) :
  (negb (isLower c) && negb (Ascii.eqb c "O"%char))
  && negb (negb (isWord c || is_char LT c)) = true ->
  isNormChar c = true.
Proof. ascii_cases c; vm_compute; intro H; try reflexivity; discriminate H. Qed.

Lemma isNormChar_fixed (c : ascii) :
  isNormChar c = true ->
  upperChar c = [c] /\ negb (isSpace c) = true /\
  (if is_char "O"%char c then "0"%char else c) = c /\
  (if is_char (chr 171) c || is_char (chr 187) c then LT else c) = c /\
  negb (negb (isWord c || is_char LT c)) = true.
Proof.
  ascii_cases c; vm_compute; intro H; try discriminate H; repeat split; reflexivity.
Qed.

Lemma normalizeLine_alphabet (line : jsstring) :
  forallb isNormChar (normalizeLine line) = true.
Proof.
  unfold normalizeLine, removeAll, replaceAll, toUpperCase.
  apply (forallb_impl _ _ _ norm_char_step3).
  apply forallb_filter_and.
  apply (forallb_map_impl _ _ _ _ norm_char_step2).
  apply (forallb_map_impl _ _ _ _ norm_char_step1).
  apply (forallb_impl (fun c => negb (isLower c) && negb (isSpace c))).
  - intros c H. now apply andb_prop in H as [H _].
  - apply forallb_filter_and. apply forallb_flat_map, upperChar_no_lower.
Qed.

Lemma normalizeLine_fixed (s : jsstring) :
  forallb isNormChar s = true -> normalizeLine s = s.
Proof.
  intro H. unfold normalizeLine, removeAll, replaceAll, toUpperCase.
  rewrite (flat_map_fixed isNormChar) by (assumption || (intros c Hc; apply isNormChar_fixed, Hc)).
  rewrite (filter_all (fun c => negb (isSpace c)))
    by (apply (forallb_impl isNormChar); [intros c Hc; apply isNormChar_fixed, Hc | assumption]).
  rewrite (map_fixed isNormChar (fun c => if is_char "O"%char c then "0"%char else c) s)
    by (assumption || (intros c Hc; apply isNormChar_fixed, Hc)).
  rewrite (map_fixed isNormChar) by (assumption || (intros c Hc; apply isNormChar_fixed, Hc)).
  apply filter_all.
  apply (forallb_impl isNormChar); [intros c Hc; apply isNormChar_fixed, Hc | assumption].
Qed.

(** X6: a normalised line holds digits, capitals other than the letter O,
    underscores and fillers only, and normalising it again changes
    nothing. *)
Theorem normalizeLine_alphabet_and_idempotent (line : jsstring) :
  forallb isNormChar (normalizeLine line) = true /\
  normalizeLine (normalizeLine line) = normalizeLine line.
Proof.
  split; [apply normalizeLine_alphabet |].
  apply normalizeLine_fixed, normalizeLine_alphabet.
Qed.

(** ** More on the TD1 parser *)

Lemma candidate_facts (rawText c : jsstring) :
  In c (candidates_of rawText) ->
  25 <= len c /\ forallb isLineChar c = true.
Proof.
  unfold candidates_of. intro H. apply filter_In in H as [Hin Hc].
  apply andb_prop in Hc as [Hlen Htest]. apply Nat.leb_le in Hlen.
  split; [assumption |].
  change re_mrz_line with re_mrz_only in Htest.
  apply test_mrz_only in Htest as [_ Hmrz].
  apply in_map_iff in Hin as (l & <- & _).
  pose proof (normalizeLine_alphabet l) as Hnorm.
  revert Hmrz Hnorm. generalize (normalizeLine l). intro s.
  induction s as [|x s IH]; [reflexivity |].
  cbn [forallb]. intros H1 H2.
  apply andb_prop in H1 as [Hx1 Hs1]. apply andb_prop in H2 as [Hx2 Hs2].
  rewrite (IH Hs1 Hs2), andb_true_r.
  revert Hx1 Hx2. clear. ascii_cases x; vm_compute; intros H1 H2;
    try reflexivity; try discriminate H1; discriminate H2.
Qed.

Lemma forallb_firstn (P : ascii -> bool) (n : nat) (l : jsstring) :
  forallb P l = true -> forallb P (firstn n l) = true.
Proof.
  revert n. induction l as [|c l IH]; intros [|n]; try reflexivity.
  cbn [forallb firstn]. intro H. apply andb_prop in H as [Hc Hl].
  now rewrite Hc, (IH n Hl).
Qed.

Lemma forallb_skipn (P : ascii -> bool) (n : nat) (l : jsstring) :
  forallb P l = true -> forallb P (skipn n l) = true.
Proof.
  revert n. induction l as [|c l IH]; intros [|n]; try reflexivity; [auto |].
  cbn [forallb skipn]. intro H. apply andb_prop in H as [Hc Hl]. now apply IH.
Qed.

Lemma forallb_repeat (P : ascii -> bool) (x : ascii) (n : nat) :
  P x = true -> forallb P (repeat x n) = true.
Proof. intro H. induction n as [|n IH]; [reflexivity |]. cbn. now rewrite H, IH. Qed.

Lemma fit30_alphabet (P : ascii -> bool) (c : jsstring) :
  P LT = true -> forallb P c = true -> forallb P (fit30 c) = true.
Proof.
  intros HLT Hc. unfold fit30. apply forallb_firstn.
  rewrite forallb_app, Hc. now apply forallb_repeat.
Qed.

Lemma startsWith_fit30 (c : jsstring) :
  2 <= len c -> startsWith (js "ID") (fit30 c) = startsWith (js "ID") c.
Proof.
  destruct c as [|x [|y t]]; cbn [len List.length]; try lia. intros _. reflexivity.
Qed.

Lemma decode_triplet_none (c1 c2 c3 : jsstring) :
  decode_triplet c1 c2 c3 = None <-> startsWith (js "ID") (fit30 c1) = false.
Proof.
  split.
  - intro H. destruct (startsWith (js "ID") (fit30 c1)) eqn:E; [| reflexivity].
    destruct (decode_triplet_accepts c1 c2 c3 E) as [r Hr]. congruence.
  - intro H. destruct (decode_triplet c1 c2 c3) as [r|] eqn:E; [| reflexivity].
    apply decode_triplet_inv in E as [Hid _]. congruence.
Qed.

(** The loop stops at the first window its body accepts. *)
Lemma scan_triplets_first (cs : list jsstring) (r : MrzRecord) :
  scan_triplets cs = Some r ->
  exists pre c1 c2 c3 post,
    cs = pre ++ c1 :: c2 :: c3 :: post /\ decode_triplet c1 c2 c3 = Some r /\
    forall pre' a b c post',
      cs = pre' ++ a :: b :: c :: post' -> List.length pre' < List.length pre ->
      decode_triplet a b c = None.
Proof.
  induction cs as [|c1 cs IH]; [discriminate |].
  destruct cs as [|c2 [|c3 rest]]; try discriminate.
  cbn [scan_triplets].
  destruct (decode_triplet c1 c2 c3) as [r'|] eqn:E.
  - intros [= <-]. exists [], c1, c2, c3, rest. repeat split; auto.
    intros pre' a b c post' _ Hlt. cbn in Hlt. lia.
  - intro H. destruct (IH H) as (pre & a & b & c & post & Hcs & Hd & Hfirst).
    exists (c1 :: pre), a, b, c, post. split; [now rewrite Hcs |]. split; [exact Hd |].
    intros pre' a' b' c' post' Hw Hlt.
    destruct pre' as [|x pre''].
    + cbn [app] in Hw. injection Hw as <- <- <- _. exact E.
    + cbn [app] in Hw. injection Hw as _ Hw. apply (Hfirst pre'' a' b' c' post' Hw).
      cbn [List.length] in Hlt. lia.
Qed.

Lemma scan_triplets_none (cs : list jsstring) :
  scan_triplets cs = None <->
  forall pre a b c post, cs = pre ++ a :: b :: c :: post -> decode_triplet a b c = None.
Proof.
  induction cs as [|c1 cs IH].
  - split; [| reflexivity]. intros _ [|? ?] a b c post H; discriminate H.
  - destruct cs as [|c2 [|c3 rest]].
    + split; [| reflexivity]. intros _ [|? [|? ?]] a b c post H; discriminate H.
    + split; [| reflexivity]. intros _ [|? [|? [|? ?]]] a b c post H; discriminate H.
    + cbn [scan_triplets]. destruct (decode_triplet c1 c2 c3) as [r'|] eqn:E.
      * split; [discriminate |]. intro H. specialize (H [] c1 c2 c3 rest eq_refl).
        congruence.
      * rewrite IH. split.
        -- intros H [|x pre] a b c post Hw.
           ++ cbn [app] in Hw. injection Hw as <- <- <- _. exact E.
           ++ cbn [app] in Hw. injection Hw as _ Hw. exact (H pre a b c post Hw).
        -- intros H pre a b c post Hw. apply (H (c1 :: pre) a b c post).
           now rewrite Hw.
Qed.

Lemma window_first_candidate (rawText : jsstring) (pre : list jsstring)
      (a b c : jsstring) (post : list jsstring) :
  candidates_of rawText = pre ++ a :: b :: c :: post ->
  startsWith (js "ID") (fit30 a) = startsWith (js "ID") a.
Proof.
  intro H. apply startsWith_fit30.
  assert (Hin : In a (candidates_of rawText)) by (rewrite H; apply in_elt).
  apply candidate_facts in Hin as [Hlen _]. lia.
Qed.

(** X7: the parser decodes the first three consecutive candidates whose
    first line starts with [ID], and returns [null] exactly when no three
    consecutive candidates start so. *)
Theorem parseMrzTD1_takes_first_ID_window (rawText : jsstring) :
  (parseMrzTD1 rawText = None <->
   forall pre a b c post,
     candidates_of rawText = pre ++ a :: b :: c :: post ->
     startsWith (js "ID") a = false) /\
  (forall r, parseMrzTD1 rawText = Some r ->
     exists pre c1 c2 c3 post,
       candidates_of rawText = pre ++ c1 :: c2 :: c3 :: post /\
       startsWith (js "ID") c1 = true /\
       decode_triplet c1 c2 c3 = Some r /\
       forall pre' a b c post',
         candidates_of rawText = pre' ++ a :: b :: c :: post' ->
         List.length pre' < List.length pre ->
         startsWith (js "ID") a = false).
Proof.
  unfold parseMrzTD1. split.
  - rewrite scan_triplets_none. split; intros H pre a b c post Hw.
    + rewrite <- (window_first_candidate _ _ _ _ _ _ Hw).
      apply (decode_triplet_none a b c), (H pre a b c post Hw).
    + apply decode_triplet_none.
      rewrite (window_first_candidate _ _ _ _ _ _ Hw). exact (H pre a b c post Hw).
  - intros r H.
    destruct (scan_triplets_first _ _ H) as (pre & c1 & c2 & c3 & post & Hcs & Hd & Hfirst).
    exists pre, c1, c2, c3, post. split; [exact Hcs |]. split; [| split; [exact Hd |]].
    + rewrite <- (window_first_candidate _ _ _ _ _ _ Hcs).
      exact (proj1 (decode_triplet_inv _ _ _ _ Hd)).
    + intros pre' a b c post' Hw Hlt.
      rewrite <- (window_first_candidate _ _ _ _ _ _ Hw).
      apply (decode_triplet_none a b c), (Hfirst pre' a b c post' Hw Hlt).
Qed.

Lemma parseMrzTD1_takes_first_ID_window_witness :
  exists r pre c1 c2 c3 post,
    parseMrzTD1 sample_td1 = Some r /\
    candidates_of sample_td1 = pre ++ c1 :: c2 :: c3 :: post /\
    startsWith (js "ID") c1 = true.
Proof.
  destruct (proj2 (parseMrzTD1_takes_first_ID_window sample_td1) _ eq_refl)
    as (pre & c1 & c2 & c3 & post & Hcs & Hid & _).
  eexists _, pre, c1, c2, c3, post. split; [reflexivity |]. split; assumption.
Defined.

Lemma parseMrzDate_some (s : jsstring) : len s = 6 -> parseMrzDate s <> None.
Proof. intro H. unfold parseMrzDate. rewrite H. discriminate. Qed.

Lemma slice_length_le (a b : nat) (s : jsstring) : len (slice a b s) <= b - a.
Proof. unfold slice, len. rewrite length_firstn. lia. Qed.

Lemma removeAll_length_le (cls : ascii -> bool) (s : jsstring) :
  len (removeAll cls s) <= len s.
Proof. unfold removeAll, len. apply filter_length_le. Qed.

Lemma removeAll_not_in (x : ascii) (s : jsstring) : ~ In x (removeAll (is_char x) s).
Proof.
  unfold removeAll. intro H. apply filter_In in H as [_ H].
  unfold is_char in H. now rewrite Ascii.eqb_refl in H.
Qed.

Lemma removeAll_alphabet (P cls : ascii -> bool) (s : jsstring) :
  forallb P s = true -> forallb P (removeAll cls s) = true.
Proof.
  intro H. unfold removeAll.
  apply (forallb_impl (fun c => P c && negb (cls c))).
  - intros c Hc. now apply andb_prop in Hc as [Hc _].
  - now apply forallb_filter_and.
Qed.

Lemma slice_alphabet (P : ascii -> bool) (a b : nat) (s : jsstring) :
  forallb P s = true -> forallb P (slice a b s) = true.
Proof. intro H. unfold slice. now apply forallb_firstn, forallb_skipn. Qed.

(** X8: in every parse result the three lines hold characters of
    [A-Z0-9<] other than the letter O and line 1 starts with [ID]; both
    dates are strings, never [null]; the sex is M, F or X; the card number
    has at most 9 characters and the nationality at most 3, neither with
    a filler. *)
Theorem parse_result_invariants (rawText : jsstring) (r : MrzRecord) :
  parseMrzTD1 rawText = Some r ->
  forallb isLineChar (mrz_line1 r) = true /\
  forallb isLineChar (mrz_line2 r) = true /\
  forallb isLineChar (mrz_line3 r) = true /\
  startsWith (js "ID") (mrz_line1 r) = true /\
  date_of_birth r <> None /\ expiration_date r <> None /\
  In (sex r) [js "M"; js "F"; js "X"] /\
  len (card_number r) <= 9 /\ ~ In LT (card_number r) /\
  forallb isLineChar (card_number r) = true /\
  len (nationality r) <= 3 /\ ~ In LT (nationality r) /\
  forallb isLineChar (nationality r) = true.
Proof.
  unfold parseMrzTD1. intro H.
  destruct (scan_triplets_inv _ _ H) as (pre & c1 & c2 & c3 & post & Hcs & Hd).
  destruct (decode_triplet_inv _ _ _ _ Hd)
    as (Hid & H1 & H2 & H3 & Hcard & Hnat & Hdob & Hexp & Hsex & _).
  assert (A1 : forallb isLineChar (fit30 c1) = true).
  { apply fit30_alphabet; [reflexivity |].
    apply (candidate_facts rawText). rewrite Hcs. apply in_elt. }
  assert (A2 : forallb isLineChar (fit30 c2) = true).
  { apply fit30_alphabet; [reflexivity |].
    apply (candidate_facts rawText). rewrite Hcs.
    apply in_or_app. right. right. now left. }
  assert (A3 : forallb isLineChar (fit30 c3) = true).
  { apply fit30_alphabet; [reflexivity |].
    apply (candidate_facts rawText). rewrite Hcs.
    apply in_or_app. right. right. right. now left. }
  assert (L6 : forall a, a + 6 <= 30 -> len (slice a (a + 6) (fit30 c2)) = 6).
  { intros a Ha. pose proof (fit30_length c2) as L. unfold slice, len in *.
    rewrite length_firstn, length_skipn. lia. }
  rewrite H1, H2, H3, Hcard, Hnat, Hdob, Hexp, Hsex.
  repeat split; try assumption.
  - apply parseMrzDate_some. apply (L6 0). lia.
  - apply parseMrzDate_some. apply (L6 8). lia.
  - destruct (str_eqb (at_index (fit30 c2) 7) (js "M")); [now left |].
    destruct (str_eqb (at_index (fit30 c2) 7) (js "F")); [right; now left |].
    right. right. now left.
  - etransitivity; [apply removeAll_length_le | apply (slice_length_le 5 14)].
  - apply removeAll_not_in.
  - now apply removeAll_alphabet, slice_alphabet.
  - etransitivity; [apply removeAll_length_le | apply (slice_length_le 2 5)].
  - apply removeAll_not_in.
  - now apply removeAll_alphabet, slice_alphabet.
Qed.

Lemma parse_result_invariants_witness :
  exists r, parseMrzTD1 sample_td1 = Some r /\ date_of_birth r <> None.
Proof.
  eexists. split; [reflexivity |].
  refine (proj1 (proj2 (proj2 (proj2 (proj2 (parse_result_invariants sample_td1 _ eq_refl)))))).
Defined.

(** ** The name line *)

Lemma try_down_step {A : Type} (f : nat -> option A) (lo k : nat) :
  lo <= S k -> f (S k) = None -> try_down f lo (S k) = try_down f lo k.
Proof.
  intros Hk Hf. cbn [try_down].
  destruct (S k <? lo) eqn:E; [apply Nat.ltb_lt in E; lia |]. now rewrite Hf.
Qed.

Lemma name_char_not_bar (c : ascii) : isNameChar c = true -> Ascii.eqb c "|"%char = false.
Proof. ascii_cases c; vm_compute; intro H; try reflexivity; discriminate H. Qed.

Lemma split_acc_no_sep (sep : ascii) (a rest : jsstring) :
  forall cur,
    forallb (fun c => negb (Ascii.eqb c sep)) a = true ->
    split_acc sep (a ++ rest) cur = split_acc sep rest (rev a ++ cur).
Proof.
  induction a as [|c a IH]; intros cur H; [reflexivity |].
  cbn [forallb] in H. apply andb_prop in H as [Hc Ha].
  cbn [app split_acc rev]. apply negb_true_iff in Hc. rewrite Hc, (IH _ Ha).
  now rewrite <- app_assoc.
Qed.

Lemma names_match_inner (body : jsstring) :
  forallb isNameChar body = true -> body <> [] ->
  match_items [Cls isNameChar 1 None; Cls (is_char LT) 2 (Some 2);
               Cls isNameChar 0 None; Cls isDot 0 None] None (body ++ js "<<")
  = Some [body; js "<<"; []; []].
Proof.
  intros Hall Hne. cbn [match_items].
  assert (Hrun : run_length isNameChar (body ++ js "<<") = S (S (List.length body))).
  { rewrite run_length_all.
    - unfold len. rewrite length_app. cbn. lia.
    - rewrite forallb_app, Hall. reflexivity. }
  assert (Hlen : 1 <= List.length body).
  { destruct body; [congruence | cbn; lia]. }
  rewrite Hrun. cbn [cap].
  assert (Hskip : forall k, skipn (k + List.length body) (body ++ js "<<") = skipn k (js "<<")).
  { intro k. rewrite skipn_app, skipn_all2 by lia.
    cbn [app]. f_equal. lia. }
  pose proof (Hskip 0) as Hs0. pose proof (Hskip 1) as Hs1. pose proof (Hskip 2) as Hs2.
  cbn [Nat.add] in Hs0, Hs1, Hs2.
  rewrite try_down_step; [| lia | cbv beta; rewrite Hs2; reflexivity].
  rewrite try_down_step; [| lia | cbv beta; rewrite Hs1; reflexivity].
  apply try_down_first; [assumption |].
  cbv beta. rewrite Hs0.
  rewrite firstn_app, Nat.sub_diag, firstn_O, app_nil_r, firstn_all.
  reflexivity.
Qed.

(** On a line of name characters that ends with two fillers the pattern
    backtracks to these last two fillers. *)
Lemma names_match_last_fillers (body : jsstring) :
  forallb isNameChar body = true -> body <> [] ->
  match_items re_names None (body ++ js "<<") = Some [[]; body; js "<<"; []; []].
Proof.
  intros Hall Hne. unfold re_names. cbn [match_items].
  change (match_items (Cls isNameChar 1 None :: ?r) None ?s) with
    (match_items (Cls isNameChar 1 None :: r) None s).
  pose proof (names_match_inner body Hall Hne) as H. cbn [match_items] in H.
  rewrite H. reflexivity.
Qed.

Lemma exec_from_hit (re : regex) (prev : option ascii) (s : jsstring) (i : nat)
      (segs : list jsstring) :
  match_items re prev s = Some segs -> exec_from re prev s i = Some (i, segs).
Proof. intro H. destruct s; cbn [exec_from]; now rewrite H. Qed.

Lemma namePart_last_fillers (body : jsstring) :
  forallb isNameChar body = true -> body <> [] ->
  namePart_of (body ++ js "<<") = body ++ js "|".
Proof.
  intros Hall Hne. unfold namePart_of, exec.
  assert (Hexec : exec_from re_names None (body ++ js "<<") 0
                  = Some (0, [[]; body; js "<<"; []; []])).
  { apply exec_from_hit, names_match_last_fillers; assumption. }
  rewrite Hexec. cbn [firstn group nth whole List.concat app Nat.add].
  rewrite !app_nil_r. unfold len. rewrite skipn_all, app_nil_r. reflexivity.
Qed.

Lemma decode_triplet_names (c1 c2 c3 : jsstring) (r : MrzRecord) :
  decode_triplet c1 c2 c3 = Some r ->
  let namePart := namePart_of (fit30 c3) in
  let parts := if includes (js "|") namePart then split "|"%char namePart
               else [namePart; []] in
  surname r = trim (replaceAll (is_char LT) " "%char (nth 0 parts [])) /\
  names r = trim (replaceAll (is_char LT) " "%char (nth 1 parts [])).
Proof.
  unfold decode_triplet. rewrite !pad_is_fit30.
  destruct (startsWith (js "ID") (fit30 c1)); cbn [negb]; [| discriminate].
  intros [= <-]. cbn. split; reflexivity.
Qed.

(** X9: when line 3 holds name characters only and ends with two fillers,
    as a filled name line does, the whole line but these two fillers goes
    to the surname and the given names are empty: the pattern cuts at the
    last pair of fillers. *)
Theorem names_cut_at_last_fillers (rawText : jsstring) (r : MrzRecord) (body : jsstring) :
  parseMrzTD1 rawText = Some r ->
  mrz_line3 r = body ++ js "<<" ->
  forallb isNameChar body = true ->
  names r = [] /\
  surname r = trim (replaceAll (is_char LT) " "%char body).
Proof.
  unfold parseMrzTD1. intros H Hl3 Hall.
  destruct (scan_triplets_inv _ _ H) as (pre & c1 & c2 & c3 & post & _ & Hd).
  destruct (decode_triplet_inv _ _ _ _ Hd) as (_ & _ & _ & H3 & _).
  destruct (decode_triplet_names _ _ _ _ Hd) as [Hsur Hnames].
  rewrite <- H3, Hl3 in Hsur, Hnames.
  assert (Hne : body <> []).
  { intros ->. pose proof (fit30_length c3) as L. rewrite <- H3, Hl3 in L.
    discriminate L. }
  rewrite (namePart_last_fillers body Hall Hne) in Hsur, Hnames.
  assert (Hinc : includes (js "|") (body ++ js "|") = true).
  { change (js "|") with ["|"%char]. apply includes_one, in_or_app. right. now left. }
  rewrite Hinc in Hsur, Hnames.
  assert (Hsplit : split "|"%char (body ++ js "|") = [body; []]).
  { unfold split. rewrite split_acc_no_sep.
    - cbn. now rewrite app_nil_r, rev_involutive.
    - apply (forallb_impl isNameChar); [| assumption].
      intros c Hc. now rewrite (name_char_not_bar c Hc). }
  rewrite Hsplit in Hsur, Hnames. cbn [nth] in Hsur, Hnames.
  split; [exact Hnames | exact Hsur].
Qed.

Lemma names_cut_at_last_fillers_witness :
  exists r, parseMrzTD1 sample_td1 = Some r /\
    names r = [] /\ surname r = js "MARTIN  MAELYS GAELLE MARIE".
Proof.
  eexists. split; [reflexivity |].
  apply (names_cut_at_last_fillers sample_td1 _ (js "MARTIN<<MAELYS<GAELLE<MARIE<"));
    reflexivity.
Defined.

(** ** More on the extractors of the fallback *)

Lemma startsWith_iff (p s : jsstring) :
  startsWith p s = true <-> exists post, s = p ++ post.
Proof.
  revert s. induction p as [|x p IH]; intro s.
  - split; [intros _; now exists s | reflexivity].
  - destruct s as [|y s]; cbn [startsWith].
    + split; [discriminate | intros [post H]; discriminate H].
    + rewrite andb_true_iff, Ascii.eqb_eq, IH. split.
      * intros [-> [post ->]]. now exists post.
      * intros [post [= -> ->]]. split; [reflexivity | now exists post].
Qed.

Lemma includes_iff (p s : jsstring) : includes p s = true <-> substring_of p s.
Proof.
  induction s as [|c s IH]; cbn [includes]; rewrite orb_true_iff, startsWith_iff.
  - split.
    + intros [[post H] | H]; [| discriminate]. exists [], post. exact H.
    + intros ([|? ?] & post & H); [left; now exists post | discriminate H].
  - rewrite IH. split.
    + intros [[post H] | (pre & post & H)].
      * exists [], post. exact H.
      * exists (c :: pre), post. now rewrite H.
    + intros ([|x pre] & post & H).
      * left. now exists post.
      * right. injection H as _ H. now exists pre, post.
Qed.

Lemma substring_trans (a b c : jsstring) :
  substring_of a b -> substring_of b c -> substring_of a c.
Proof.
  intros (p1 & q1 & ->) (p2 & q2 & ->). exists (p2 ++ p1), (q1 ++ q2).
  now rewrite <- !app_assoc.
Qed.

Lemma segment_substring (seg : jsstring) (segs : list jsstring) :
  In seg segs -> substring_of seg (whole segs).
Proof.
  intro H. apply in_split in H as (l1 & l2 & ->).
  exists (whole l1), (whole l2). unfold whole. rewrite concat_app. reflexivity.
Qed.

Lemma exec_from_substring (re : regex) :
  forall s prev i i' segs,
    exec_from re prev s i = Some (i', segs) -> substring_of (whole segs) s.
Proof.
  induction s as [|c s IH]; intros prev i i' segs H; cbn [exec_from] in H.
  - destruct (match_items re prev []) as [x|] eqn:E; [| discriminate].
    injection H as _ <-. destruct (match_items_sound _ _ _ _ E) as [_ Hpre].
    exists [], (skipn (len (whole x)) []). exact Hpre.
  - destruct (match_items re prev (c :: s)) as [x|] eqn:E.
    + injection H as _ <-. destruct (match_items_sound _ _ _ _ E) as [_ Hpre].
      exists [], (skipn (len (whole x)) (c :: s)). exact Hpre.
    + destruct (IH _ _ _ _ H) as (pre & post & ->). now exists (c :: pre), post.
Qed.

Lemma split_acc_substring (sep : ascii) (s : jsstring) :
  forall cur l, In l (split_acc sep s cur) -> substring_of l (rev cur ++ s).
Proof.
  induction s as [|c s IH]; intros cur l H; cbn [split_acc] in H.
  - destruct H as [<- | []]. exists [], []. now rewrite !app_nil_r.
  - destruct (Ascii.eqb c sep).
    + destruct H as [<- | H].
      * now exists [], (c :: s).
      * destruct (IH [] l H) as (pre & post & Hs). cbn [rev app] in Hs.
        exists (rev cur ++ c :: pre), post. rewrite Hs, <- app_assoc. reflexivity.
    + destruct (IH (c :: cur) l H) as (pre & post & Hs).
      cbn [rev] in Hs. rewrite <- app_assoc in Hs. now exists pre, post.
Qed.

Lemma split_substring (sep : ascii) (s l : jsstring) :
  In l (split sep s) -> substring_of l s.
Proof. intro H. exact (split_acc_substring sep s [] l H). Qed.

Lemma group_substring (re : regex) (s : jsstring) (i n : nat) (segs : list jsstring) :
  exec re s = Some (i, segs) -> n < List.length re ->
  substring_of (group n segs) s.
Proof.
  intros H Hn. apply (substring_trans _ (whole segs)).
  - apply segment_substring. unfold group. apply nth_In.
    rewrite <- (Forall2_length (exec_from_sound _ _ _ _ _ _ H)). exact Hn.
  - exact (exec_from_substring _ _ _ _ _ _ H).
Qed.

Lemma first_unlabelled_substring (lines : list jsstring) (cn : jsstring) :
  first_unlabelled lines = Some cn ->
  exists line, In line lines /\ substring_of cn line /\ ~ In LT line.
Proof.
  induction lines as [|line rest IH]; cbn [first_unlabelled]; [discriminate |].
  destruct (includes (js "<") line) eqn:Einc.
  - intro H. destruct (IH H) as (l & Hl & Hsub). exists l. split; [now right | exact Hsub].
  - destruct (exec re_twelve line) as [[i segs]|] eqn:E.
    + intros [= <-]. exists line. split; [now left |]. split.
      * apply (group_substring re_twelve line i 1 segs E). cbn. lia.
      * intro Hin. change (js "<") with [LT] in Einc.
        apply includes_one in Hin. congruence.
    + intro H. destruct (IH H) as (l & Hl & Hsub). exists l. split; [now right | exact Hsub].
Qed.

(** X10: the card number the extractor returns is a run of 12 digits that
    occurs in the text. *)
Theorem extractCardNumber_occurs_in_text (text cn : jsstring) :
  extractCardNumberFromText text = Some cn ->
  substring_of cn text /\ len cn = 12 /\ forallb isDigit cn = true.
Proof.
  intro H. split; [| exact (extractCardNumber_digits _ _ H)].
  unfold extractCardNumberFromText in H.
  destruct (exec re_label text) as [[i segs]|] eqn:E.
  - injection H as <-. apply (group_substring re_label text i 6 segs E). cbn. lia.
  - destruct (first_unlabelled (split NL text)) as [m|] eqn:F.
    + injection H as <-.
      destruct (first_unlabelled_substring _ _ F) as (line & Hline & Hsub & _).
      exact (substring_trans _ _ _ Hsub (split_substring _ _ _ Hline)).
    + destruct (exec re_twelve text) as [[i segs]|] eqn:G; [| discriminate].
      injection H as <-. apply (group_substring re_twelve text i 1 segs G). cbn. lia.
Qed.

Lemma extractCardNumber_occurs_in_text_witness :
  substring_of (js "880692310285") tesseract_text_ok.
Proof.
  apply (extractCardNumber_occurs_in_text tesseract_text_ok (js "880692310285")).
  reflexivity.
Defined.

Lemma clean_of_app (a b : jsstring) : clean_of (a ++ b) = clean_of a ++ clean_of b.
Proof.
  unfold clean_of, toUpperCase, removeAll. now rewrite filter_app, flat_map_app.
Qed.

Lemma clean_of_substring (l s : jsstring) :
  substring_of l s -> substring_of (clean_of l) (clean_of s).
Proof.
  intros (pre & post & ->). exists (clean_of pre), (clean_of post).
  now rewrite !clean_of_app.
Qed.

(** X11: the line the second-line extractor returns occurs in the cleaned
    text, has 25 characters or more, all of [0-9A-Z<], holds a filler and
    starts with 9 digits. *)
Theorem extractMrzLine2_result_shape (text m : jsstring) :
  extractMrzLine2FromText text = Some m ->
  substring_of m (clean_of text) /\
  25 <= len m /\ forallb isMrzChar m = true /\ In LT m /\
  forallb isDigit (firstn 9 m) = true.
Proof.
  intro H. destruct (first_line2 (split NL text)) as [m0|] eqn:E.
  - unfold extractMrzLine2FromText in H. rewrite E in H. injection H as <-.
    apply first_line2_some in E as (pre & line & post & Hsplit & -> & Hok & _).
    apply line2_ok_iff in Hok as (Hlen & Hall & Hdig & Hin).
    split.
    { apply clean_of_substring, (split_substring NL). rewrite Hsplit. apply in_elt. }
    split; [lia |]. split; [assumption |]. split; [assumption |].
    apply run_length_firstn. now apply digits_head_iff.
  - destruct (proj1 (line2_fallback text E) m H) as (Hsub & Hsh & _).
    split; [assumption |]. split; [now apply line2_shape_length |].
    split; [now apply line2_shape_mrz |].
    destruct Hsh as (a & b & c & -> & Ha & La & _).
    split.
    + apply in_or_app. right. apply in_or_app. right. now left.
    + rewrite firstn_app. unfold len in La.
      replace (9 - List.length a) with 0 by lia.
      rewrite firstn_O, app_nil_r. now apply forallb_firstn.
Qed.

Lemma extractMrzLine2_result_shape_witness :
  25 <= len (js "8806923102858CORINNE<<<<<<<6512068F6YY").
Proof.
  refine (proj1 (proj2 (extractMrzLine2_result_shape text_with_shape _ _))).
  reflexivity.
Defined.

Lemma upperChar_no_capital (c : ascii) :
  upper_in_range c = true ->
  forallb (fun x => negb (hasCapital x)) (upperChar c) = true.
Proof. ascii_cases c; vm_compute; intro H; try reflexivity; discriminate H. Qed.

Lemma forallb_flat_map_impl (P Q : ascii -> bool) (f : ascii -> jsstring) (l : jsstring) :
  (forall c, P c = true -> forallb Q (f c) = true) ->
  forallb P l = true -> forallb Q (flat_map f l) = true.
Proof.
  intro H. induction l as [|c l IH]; [reflexivity |].
  cbn [forallb flat_map]. intro Hl. apply andb_prop in Hl as [Hc Hl].
  now rewrite forallb_app, (H c Hc), (IH Hl).
Qed.

Lemma mrz_norm_step1 (c : ascii) :
  negb (hasCapital c) && negb (isSpace c) = true ->
  let d := if is_char "O"%char c then "0"%char else c in
  negb (hasCapital d) && negb (isSpace d) && negb (Ascii.eqb d "O"%char) = true.
Proof. ascii_cases c; vm_compute; intro H; try reflexivity; discriminate H. Qed.

Lemma mrz_norm_step2 (c : ascii) :
  negb (hasCapital c) && negb (isSpace c) && negb (Ascii.eqb c "O"%char) = true ->
  let d := if is_char "I"%char c then "1"%char else c in
  negb (hasCapital d) && negb (isSpace d) && negb (Ascii.eqb d "O"%char)
  && negb (Ascii.eqb d "I"%char) = true.
Proof. ascii_cases c; vm_compute; intro H; try reflexivity; discriminate H. Qed.

Lemma mrz_norm_step3 (c : ascii) :
  negb (hasCapital c) && negb (isSpace c) && negb (Ascii.eqb c "O"%char)
  && negb (Ascii.eqb c "I"%char) = true ->
  isMrzNormChar (if is_char "B"%char c then "8"%char else c) = true.
Proof. ascii_cases c; vm_compute; intro H; try reflexivity; discriminate H. Qed.

Lemma isMrzNormChar_fixed (c : ascii) :
  isMrzNormChar c = true ->
  upperChar c = [c] /\ negb (isSpace c) = true /\
  (if is_char "O"%char c then "0"%char else c) = c /\
  (if is_char "I"%char c then "1"%char else c) = c /\
  (if is_char "B"%char c then "8"%char else c) = c.
Proof.
  ascii_cases c; vm_compute; intro H; try discriminate H; repeat split; reflexivity.
Qed.

Lemma digit_is_mrz_norm (c : ascii) : isDigit c = true -> isMrzNormChar c = true.
Proof. ascii_cases c; vm_compute; intro H; try reflexivity; discriminate H. Qed.

Lemma normalizeMrz_alphabet (s : jsstring) :
  forallb upper_in_range s = true ->
  forallb isMrzNormChar (normalizeMrz s) = true.
Proof.
  intro Hs. unfold normalizeMrz, removeAll, replaceAll, toUpperCase.
  apply (forallb_map_impl _ _ _ _ mrz_norm_step3).
  apply (forallb_map_impl _ _ _ _ mrz_norm_step2).
  apply (forallb_map_impl _ _ _ _ mrz_norm_step1).
  apply forallb_filter_and.
  exact (forallb_flat_map_impl _ _ _ _ upperChar_no_capital Hs).
Qed.

Lemma normalizeMrz_fixed (s : jsstring) :
  forallb isMrzNormChar s = true -> normalizeMrz s = s.
Proof.
  intro H. unfold normalizeMrz, removeAll, replaceAll, toUpperCase.
  rewrite (flat_map_fixed isMrzNormChar)
    by (assumption || (intros c Hc; apply isMrzNormChar_fixed, Hc)).
  rewrite (filter_all (fun c => negb (isSpace c)))
    by (apply (forallb_impl isMrzNormChar);
        [intros c Hc; apply isMrzNormChar_fixed, Hc | assumption]).
  rewrite (map_fixed isMrzNormChar (fun c => if is_char "O"%char c then "0"%char else c) s)
    by (assumption || (intros c Hc; apply isMrzNormChar_fixed, Hc)).
  rewrite (map_fixed isMrzNormChar (fun c => if is_char "I"%char c then "1"%char else c) s)
    by (assumption || (intros c Hc; apply isMrzNormChar_fixed, Hc)).
  apply (map_fixed isMrzNormChar); [| assumption].
  intros c Hc. apply isMrzNormChar_fixed, Hc.
Qed.

Lemma normalizeMrz_digits (s : jsstring) :
  forallb isDigit s = true -> normalizeMrz s = s.
Proof.
  intro H. apply normalizeMrz_fixed.
  exact (forallb_impl _ _ _ digit_is_mrz_norm H).
Qed.

(** X12: on a text without the y with diaeresis and the micro sign, the
    two letters whose capital lies beyond the code units embedded here,
    [normalizeMrz] leaves no white space, no letter that has a capital
    ([a] to [z], the sharp s, the accented small letters) and none of the
    letters O, I and B, and applying it twice is applying it once; a
    string of digits is left as it is. *)
Theorem normalizeMrz_idempotent (s : jsstring) :
  forallb upper_in_range s = true ->
  forallb isMrzNormChar (normalizeMrz s) = true /\
  normalizeMrz (normalizeMrz s) = normalizeMrz s /\
  (forallb isDigit s = true -> normalizeMrz s = s).
Proof.
  intro Hs. split; [apply normalizeMrz_alphabet, Hs |].
  split; [apply normalizeMrz_fixed, normalizeMrz_alphabet, Hs | apply normalizeMrz_digits].
Qed.

Lemma normalizeMrz_idempotent_witness :
  forallb isMrzNormChar (normalizeMrz (js "88o69 231b2<<i")) = true /\
  normalizeMrz (js "88o69 231b2<<i") = js "8806923182<<1" /\
  normalizeMrz (normalizeMrz (js "88o69 231b2<<i")) = normalizeMrz (js "88o69 231b2<<i").
Proof.
  destruct (normalizeMrz_idempotent (js "88o69 231b2<<i") eq_refl) as (Ha & Hi & _).
  split; [exact Ha |]. split; [reflexivity | exact Hi].
Defined.

(** X13: a verified outcome of the fallback reports the card number and
    the second MRZ line the two extractors gave, and that card number
    occurs as it is in the line once the line's look-alikes are mapped. *)
Theorem secondary_verified_number_in_line (text : jsstring) (debug : bool) :
  status (secondary_response text debug) = 200%Z ->
  exists cn l2,
    extractCardNumberFromText text = Some cn /\
    extractMrzLine2FromText text = Some l2 /\
    substring_of cn (normalizeMrz l2) /\
    body (secondary_response text debug) = verified_secondary_body cn l2.
Proof.
  unfold secondary_response.
  destruct (extractCardNumberFromText text) as [cn|] eqn:Ecn; cbn [falsy_opt];
    [| discriminate].
  destruct (extractCardNumber_digits _ _ Ecn) as [Hlen Hdig].
  rewrite Hlen. cbn [Nat.eqb].
  destruct (extractMrzLine2FromText text) as [l2|] eqn:El2; cbn [falsy_opt];
    [| discriminate].
  pose proof (extractMrzLine2_length _ _ El2) as Hl2.
  destruct (len l2 =? 0) eqn:Z; [apply Nat.eqb_eq in Z; lia |].
  cbn [text_of]. rewrite (normalizeMrz_digits cn Hdig).
  destruct (includes cn (normalizeMrz l2)) eqn:Hinc; cbn [negb]; [| discriminate].
  intros _. exists cn, l2. repeat split. now apply includes_iff.
Qed.

Lemma secondary_verified_number_in_line_witness :
  exists cn l2,
    extractCardNumberFromText tesseract_text_ok = Some cn /\
    extractMrzLine2FromText tesseract_text_ok = Some l2 /\
    substring_of cn (normalizeMrz l2).
Proof.
  destruct (secondary_verified_number_in_line tesseract_text_ok false eq_refl)
    as (cn & l2 & H1 & H2 & H3 & _).
  now exists cn, l2.
Defined.

(** ** More on the [/verify-id] handler *)

Lemma isPdfBuffer_iff (buf : jsstring) :
  isPdfBuffer buf = true <-> exists rest, buf = PDF_MAGIC ++ rest.
Proof.
  unfold isPdfBuffer, slice. rewrite andb_true_iff, Nat.leb_le, str_eqb_eq.
  cbn [Nat.sub skipn]. split.
  - intros [Hlen Heq]. exists (skipn 4 buf).
    rewrite <- Heq. symmetry. apply firstn_skipn.
  - intros [rest ->]. split; [unfold len; rewrite length_app; cbn; lia | reflexivity].
Qed.



Lemma appends_mono {A : Type} (P Q : Event -> Prop) (m : M A) :
  (forall e, P e -> Q e) -> appends P m -> appends Q m.
Proof.
  intros HPQ Hm w tr r tr' H. destruct (Hm _ _ _ _ H) as (evs & -> & F).
  exists evs. split; [reflexivity |]. eapply Forall_impl; eassumption.
Qed.

Lemma primary_is_body_event (e : Event) : primary_event e -> body_event e.
Proof. destruct e; cbn; tauto. Qed.

Lemma sidecar_text_appends (outPdf outTxt : jsstring) :
  appends body_event
    (try_catch
       (bind (run (js "pdftotext") [js "-layout"; outPdf; outTxt] 30000)
             (fun _ => fs_readFile outTxt))
       (fun _ => try_catch (fs_readFile outTxt) (fun _ => ret []))).
Proof.
  apply appends_try_catch.
  - apply appends_bind; [apply appends_run; exact I | intros _].
    apply (appends_one _ _ (EvReadFile outTxt)); [reflexivity | exact I].
  - intros _. apply appends_try_catch; [| intros _; apply appends_ret].
    apply (appends_one _ _ (EvReadFile outTxt)); [reflexivity | exact I].
Qed.

Lemma tesseract_text_appends (inPdf tmpDir : jsstring) :
  appends body_event (tesseract_text inPdf tmpDir).
Proof.
  unfold tesseract_text.
  apply appends_bind; [apply appends_ask | intros timeout].
  apply appends_bind; [apply appends_run; exact I | intros _].
  apply sidecar_text_appends.
Qed.

Lemma verify_id_body_appends (buffer : jsstring) (debug : bool) (tmpDir : jsstring) :
  appends body_event (verify_id_body buffer debug tmpDir).
Proof.
  unfold verify_id_body.
  apply appends_bind.
  { apply (appends_one _ _ (EvWriteFile (path_join tmpDir (js "input.pdf"))));
      [reflexivity | exact I]. }
  intros _. apply appends_bind.
  { apply appends_try_catch; [| intros _; apply appends_ret].
    apply (appends_mono primary_event); [apply primary_is_body_event |].
    apply readMrz_appends. }
  intros peye. destruct (truthy (get peye "ok") && truthy (get peye "number"));
    [apply appends_ret |].
  apply appends_bind.
  - apply appends_try_catch; [| intros e; apply appends_ret].
    apply appends_bind; [apply tesseract_text_appends | intros text; apply appends_ret].
  - intros [resp | text]; apply appends_ret.
Qed.

(** The handler past its two checks. *)
Lemma verify_id_unfold (req : Request) (w : World) (tr0 : Trace) (buffer : jsstring) :
  req_file req = Some buffer ->
  isPdfBuffer buffer = true ->
  verify_id req w tr0
  = match mkdtemp_result w (tr0 ++ [EvAcquire]) (path_join (os_tmpdir w) (js "verifid-")) with
    | inl e =>
        (inl e, (tr0 ++ [EvAcquire]) ++ [EvMkdtemp (path_join (os_tmpdir w) (js "verifid-"))])
    | inr tmpDir =>
        let (r, tr') :=
          try_catch (verify_id_body buffer (req_debug req) tmpDir)
            (fun e => ret (json_error 500 e)) w
            ((tr0 ++ [EvAcquire]) ++ [EvMkdtemp (path_join (os_tmpdir w) (js "verifid-"))]) in
        (r, tr' ++ [EvRelease; EvRm tmpDir])
    end.
Proof.
  intros Hfile Hpdf. unfold verify_id. rewrite Hfile, Hpdf. cbn [negb].
  unfold bind, emit, ask, fs_mkdtemp, finally.
  destruct (mkdtemp_result w (tr0 ++ [EvAcquire]) (path_join (os_tmpdir w) (js "verifid-")));
    reflexivity.
Qed.

(** X15: once the slot is taken, the outcome hangs on the workspace.  If
    [mkdtemp] succeeds, a response is always sent, and the slot is
    released and the workspace removed exactly once, as the last two
    events, whatever happened in between.  If [mkdtemp] fails, its error
    escapes the handler: no response is sent and the slot is not
    released. *)
Theorem verify_id_release_and_cleanup
        (req : Request) (w : World) (tr0 : Trace) (buffer : jsstring) :
  req_file req = Some buffer ->
  isPdfBuffer buffer = true ->
  let prefix := path_join (os_tmpdir w) (js "verifid-") in
  match mkdtemp_result w (tr0 ++ [EvAcquire]) prefix with
  | inr tmpDir =>
      exists resp evs,
        verify_id req w tr0
        = (inr resp,
           tr0 ++ [EvAcquire; EvMkdtemp prefix] ++ evs ++ [EvRelease; EvRm tmpDir]) /\
        Forall body_event evs
  | inl e => verify_id req w tr0 = (inl e, tr0 ++ [EvAcquire; EvMkdtemp prefix])
  end.
Proof.
  intros Hfile Hpdf prefix.
  rewrite (verify_id_unfold req w tr0 buffer Hfile Hpdf). fold prefix.
  destruct (mkdtemp_result w (tr0 ++ [EvAcquire]) prefix) as [e | tmpDir].
  - rewrite <- app_assoc. reflexivity.
  - unfold try_catch.
    destruct (verify_id_body buffer (req_debug req) tmpDir w
                ((tr0 ++ [EvAcquire]) ++ [EvMkdtemp prefix])) as [[e | resp] tr1] eqn:E;
      destruct (verify_id_body_appends _ _ _ _ _ _ _ E) as (evs & -> & Hevs).
    + exists (json_error 500 e), evs. split; [| assumption].
      unfold ret. f_equal. cbn [app]. rewrite <- ?app_assoc. reflexivity.
    + exists resp, evs. split; [| assumption].
      f_equal. cbn [app]. rewrite <- ?app_assoc. reflexivity.
Qed.

Lemma verify_id_release_and_cleanup_witness :
  verify_id sample_request world_no_workspace []
  = (inl (js "ENOSPC: no space left on device"),
     [] ++ [EvAcquire; EvMkdtemp (js "/tmp/verifid-")]).
Proof.
  apply (verify_id_release_and_cleanup sample_request world_no_workspace []
           (PDF_MAGIC ++ js "-1.7 scan")); reflexivity.
Defined.

Lemma secondary_body_fields (text : jsstring) :
  exists fields,
    body (secondary_response text false) = JObj fields /\
    forall k, In k debug_keys -> assoc k fields = None.
Proof.
  unfold secondary_response.
  destruct (falsy_opt (extractCardNumberFromText text)).
  { eexists. split; [reflexivity |]. intros k Hk. cbn [debug_keys In] in Hk.
    repeat (destruct Hk as [<- | Hk]; [reflexivity |]). contradiction. }
  destruct (falsy_opt (extractMrzLine2FromText text)).
  { eexists. split; [reflexivity |]. intros k Hk. cbn [debug_keys In] in Hk.
    repeat (destruct Hk as [<- | Hk]; [reflexivity |]). contradiction. }
  destruct (negb _).
  { eexists. split; [reflexivity |]. intros k Hk. cbn [debug_keys In] in Hk.
    repeat (destruct Hk as [<- | Hk]; [reflexivity |]). contradiction. }
  eexists. split; [reflexivity |]. intros k Hk. cbn [debug_keys In] in Hk.
  repeat (destruct Hk as [<- | Hk]; [reflexivity |]). contradiction.
Qed.

(** X16: without the debug flag no response of [/verify-id] carries the
    raw OCR text or the error text of a tool. *)
Theorem verify_id_hides_raw_text_without_debug
        (req : Request) (w : World) (tr : Trace) (resp : Response) (tr' : Trace) :
  req_debug req = false ->
  verify_id req w tr = (inr resp, tr') ->
  forall k, In k debug_keys -> get (wire resp) k = JUndefined.
Proof.
  intros Hdebug Hrun k Hk.
  pose proof (verify_id_cases req w tr resp tr' Hrun) as Hcase.
  rewrite Hdebug in Hcase. unfold wire.
  destruct Hcase as [| |e|peye Hok Hnum|peye e|text].
  - apply wire_get_none. cbn [debug_keys In] in Hk.
    repeat (destruct Hk as [<- | Hk]; [reflexivity |]). contradiction.
  - apply wire_get_none. cbn [debug_keys In] in Hk.
    repeat (destruct Hk as [<- | Hk]; [reflexivity |]). contradiction.
  - apply wire_get_none. cbn [debug_keys In] in Hk.
    repeat (destruct Hk as [<- | Hk]; [reflexivity |]). contradiction.
  - apply wire_get_none. cbn [debug_keys In] in Hk.
    repeat (destruct Hk as [<- | Hk]; [reflexivity |]). contradiction.
  - apply wire_get_none. cbn [debug_keys In] in Hk.
    repeat (destruct Hk as [<- | Hk]; [reflexivity |]). contradiction.
  - destruct (secondary_body_fields text) as (fields & -> & Hnone).
    apply wire_get_none, Hnone, Hk.
Qed.

Lemma verify_id_hides_raw_text_without_debug_witness :
  get (wire (secondary_response tesseract_text_ok false)) "raw_text" = JUndefined.
Proof.
  apply (verify_id_hides_raw_text_without_debug sample_request
           (sample_world peye_stdout_none) []
           (secondary_response tesseract_text_ok false)
           (snd (verify_id sample_request (sample_world peye_stdout_none) []))).
  - reflexivity.
  - vm_compute. reflexivity.
  - now left.
Defined.

Lemma secondary_classes (text : jsstring) (debug : bool) :
  let resp := secondary_response text debug in
  (status resp = 200%Z /\ get (body resp) "valid" = JBool true /\
   get (body resp) "method" = JStr METHOD_TESS) \/
  (status resp = 422%Z /\ get (body resp) "valid" = JBool false /\
   get (body resp) "method" = JStr METHOD_TESS /\
   exists reason, reason_of resp = JStr reason /\ In reason rejection_reasons).
Proof.
  cbv zeta. unfold secondary_response, reason_of.
  destruct (falsy_opt (extractCardNumberFromText text)).
  { right. repeat split. eexists. split; [reflexivity |]. now left. }
  destruct (falsy_opt (extractMrzLine2FromText text)).
  { right. repeat split. eexists. split; [reflexivity |]. right. now left. }
  destruct (negb _).
  { right. repeat split. eexists. split; [reflexivity |]. right. right. now left. }
  left. repeat split.
Qed.

(** X17: every response of [/verify-id] is of one of four kinds: 200 with
    [valid = true] and one of the two methods; 422 with [valid = false],
    the fallback method and one of the three rejection reasons; 500 with
    [valid = false] and the reason [ocr_failed]; or 400, 415 or 500 with a
    body that holds an error text and nothing else. *)
Theorem verify_id_response_kinds
        (req : Request) (w : World) (tr : Trace) (resp : Response) (tr' : Trace) :
  verify_id req w tr = (inr resp, tr') ->
  (status resp = 200%Z /\ get (body resp) "valid" = JBool true /\
   (get (body resp) "method" = JStr METHOD_PEYE \/
    get (body resp) "method" = JStr METHOD_TESS)) \/
  (status resp = 422%Z /\ get (body resp) "valid" = JBool false /\
   get (body resp) "method" = JStr METHOD_TESS /\
   exists reason, reason_of resp = JStr reason /\ In reason rejection_reasons) \/
  (status resp = 500%Z /\ get (body resp) "valid" = JBool false /\
   reason_of resp = JStr (js "ocr_failed")) \/
  (In (status resp) [400; 415; 500]%Z /\
   exists msg, body resp = JObj [("error", JStr msg)]).
Proof.
  intro Hrun. pose proof (verify_id_cases req w tr resp tr' Hrun) as Hcase.
  destruct Hcase as [| |e|peye Hok Hnum|peye e|text].
  - right. right. right. split; [now left | eexists; reflexivity].
  - right. right. right. split; [right; now left | eexists; reflexivity].
  - right. right. right. split; [right; right; now left | eexists; reflexivity].
  - left. repeat split. now left.
  - right. right. left. repeat split.
  - destruct (secondary_classes text (req_debug req)) as [(H1 & H2 & H3) | H].
    + left. repeat split; auto.
    + right. left. exact H.
Qed.

Lemma verify_id_response_kinds_witness :
  status (secondary_response tesseract_text_ok false) = 200%Z.
Proof.
  destruct (verify_id_response_kinds sample_request (sample_world peye_stdout_none) []
              (secondary_response tesseract_text_ok false)
              (snd (verify_id sample_request (sample_world peye_stdout_none) [])))
    as [(H & _) | [(H & _) | [(H & _) | (_ & msg & H)]]].
  - vm_compute. reflexivity.
  - exact H.
  - discriminate H.
  - discriminate H.
  - discriminate H.
Defined.

Lemma run_trace (cmd : jsstring) (args : list jsstring) (t : Z) (w : World) (tr : Trace) :
  snd (run cmd args t w tr) = tr ++ [EvSpawn cmd args t].
Proof.
  unfold run. destruct (spawn_outcome w tr cmd args t) as [[[| |]|] ? ?| |]; reflexivity.
Qed.

(** The text of the fallback is always there once [ocrmypdf] has run. *)
Lemma sidecar_text_total (outPdf outTxt : jsstring) (w : World) (tr : Trace) :
  exists text evs,
    try_catch
      (bind (run (js "pdftotext") [js "-layout"; outPdf; outTxt] 30000)
            (fun _ => fs_readFile outTxt))
      (fun _ => try_catch (fs_readFile outTxt) (fun _ => ret [])) w tr
    = (inr text, tr ++ evs) /\ Forall body_event evs.
Proof.
  destruct (try_catch _ _ w tr) as [[e | text] tr'] eqn:E.
  - exfalso. unfold try_catch, bind, fs_readFile, ret in E.
    destruct (run _ _ _ w tr) as [[e1 | r1] tr1].
    + destruct (readFile_result w tr1 outTxt); discriminate E.
    + destruct (readFile_result w tr1 outTxt); [| discriminate E].
      destruct (readFile_result w (tr1 ++ [EvReadFile outTxt]) outTxt); discriminate E.
  - destruct (sidecar_text_appends outPdf outTxt w tr _ _ E) as (evs & -> & Hevs).
    now exists text, evs.
Qed.

Lemma tesseract_text_run (tmpDir : jsstring) (w : World) (tr : Trace) :
  tesseract_text (path_join tmpDir (js "input.pdf")) tmpDir w tr
  = match run (js "ocrmypdf") (ocrmypdf_args tmpDir) (OCR_TIMEOUT_MS w) w tr with
    | (inl e, tr2) => (inl e, tr2)
    | (inr _, tr2) =>
        try_catch
          (bind (run (js "pdftotext")
                   [js "-layout"; path_join tmpDir (js "output_ocr.pdf");
                    path_join tmpDir (js "output.txt")] 30000)
                (fun _ => fs_readFile (path_join tmpDir (js "output.txt"))))
          (fun _ => try_catch (fs_readFile (path_join tmpDir (js "output.txt")))
                      (fun _ => ret [])) w tr2
    end.
Proof. reflexivity. Qed.

(** The branch of the body taken when the primary attempt did not
    succeed. *)
Lemma verify_id_body_fallback (buffer : jsstring) (debug : bool) (tmpDir : jsstring)
      (w : World) (tr : Trace) (peye : jsval) (tr1 : Trace) :
  writeFile_result w tr (path_join tmpDir (js "input.pdf")) buffer = inr tt ->
  try_catch (readMrzWithPassportEye (path_join tmpDir (js "input.pdf")) tmpDir)
    (fun _ => ret JNull) w (tr ++ [EvWriteFile (path_join tmpDir (js "input.pdf"))])
  = (inr peye, tr1) ->
  truthy (get peye "ok") && truthy (get peye "number") = false ->
  verify_id_body buffer debug tmpDir w tr
  = match tesseract_text (path_join tmpDir (js "input.pdf")) tmpDir w tr1 with
    | (inl e, tr2) => (inr (ocr_failed_response peye e debug), tr2)
    | (inr text, tr2) => (inr (secondary_response text debug), tr2)
    end.
Proof.
  intros Hwr Hprim Hfail. unfold verify_id_body.
  unfold bind at 1. unfold fs_writeFile at 1. rewrite Hwr.
  unfold bind at 1. rewrite Hprim, Hfail.
  unfold bind, try_catch, ret.
  destruct (tesseract_text (path_join tmpDir (js "input.pdf")) tmpDir w tr1)
    as [[e | text] tr2]; reflexivity.
Qed.

(** X18: when the primary attempt does not succeed - the reader throws, or
    returns no truthy [ok] and [number] - [ocrmypdf] is spawned next.  If
    that run fails the answer is 500 with the reason [ocr_failed] and
    nothing else is run; if it succeeds the answer is the one the text
    decides, whether [pdftotext] worked or not. *)
Theorem verify_id_fallback_after_primary_failure
        (w : World) (req : Request) (tr0 : Trace) (buffer tmpDir : jsstring)
        (peye : jsval) (tr1 : Trace) :
  req_file req = Some buffer ->
  isPdfBuffer buffer = true ->
  primary_fails w tr0 buffer tmpDir peye tr1 ->
  let spawn := EvSpawn (js "ocrmypdf") (ocrmypdf_args tmpDir) (OCR_TIMEOUT_MS w) in
  match fst (run (js "ocrmypdf") (ocrmypdf_args tmpDir) (OCR_TIMEOUT_MS w) w tr1) with
  | inl e =>
      verify_id req w tr0
      = (inr (ocr_failed_response peye e (req_debug req)),
         tr1 ++ [spawn; EvRelease; EvRm tmpDir])
  | inr _ =>
      exists text evs,
        verify_id req w tr0
        = (inr (secondary_response text (req_debug req)),
           tr1 ++ spawn :: evs ++ [EvRelease; EvRm tmpDir]) /\
        Forall body_event evs
  end.
Proof.
  intros Hfile Hpdf (Hmk & Hwr & Hprim & Hfail) spawn.
  rewrite (verify_id_unfold req w tr0 buffer Hfile Hpdf), Hmk.
  set (prefix := path_join (os_tmpdir w) (js "verifid-")) in *.
  rewrite <- app_assoc. cbn [app].
  assert (Hprim' :
            try_catch (readMrzWithPassportEye (path_join tmpDir (js "input.pdf")) tmpDir)
              (fun _ => ret JNull) w
              ((tr0 ++ [EvAcquire; EvMkdtemp prefix])
               ++ [EvWriteFile (path_join tmpDir (js "input.pdf"))])
            = (inr peye, tr1)).
  { rewrite <- app_assoc. exact Hprim. }
  assert (Hbody :
            try_catch (verify_id_body buffer (req_debug req) tmpDir)
              (fun e => ret (json_error 500 e)) w (tr0 ++ [EvAcquire; EvMkdtemp prefix])
            = match run (js "ocrmypdf") (ocrmypdf_args tmpDir) (OCR_TIMEOUT_MS w) w tr1 with
              | (inl e, tr2) => (inr (ocr_failed_response peye e (req_debug req)), tr2)
              | (inr _, tr2) =>
                  match
                    try_catch
                      (bind (run (js "pdftotext")
                               [js "-layout"; path_join tmpDir (js "output_ocr.pdf");
                                path_join tmpDir (js "output.txt")] 30000)
                            (fun _ => fs_readFile (path_join tmpDir (js "output.txt"))))
                      (fun _ => try_catch (fs_readFile (path_join tmpDir (js "output.txt")))
                                  (fun _ => ret [])) w tr2
                  with
                  | (inl e, tr3) => (inr (ocr_failed_response peye e (req_debug req)), tr3)
                  | (inr text, tr3) => (inr (secondary_response text (req_debug req)), tr3)
                  end
              end).
  { unfold try_catch at 1.
    rewrite (verify_id_body_fallback buffer (req_debug req) tmpDir w _ peye tr1
               Hwr Hprim' Hfail).
    rewrite tesseract_text_run.
    destruct (run (js "ocrmypdf") (ocrmypdf_args tmpDir) (OCR_TIMEOUT_MS w) w tr1)
      as [[e | res] tr2]; [reflexivity |].
    destruct (try_catch _ _ w tr2) as [[e | text] tr3]; reflexivity. }
  rewrite Hbody. clear Hbody.
  pose proof (run_trace (js "ocrmypdf") (ocrmypdf_args tmpDir) (OCR_TIMEOUT_MS w) w tr1)
    as Htr.
  destruct (run (js "ocrmypdf") (ocrmypdf_args tmpDir) (OCR_TIMEOUT_MS w) w tr1)
    as [[e | res] tr2]; cbn [fst snd] in Htr |- *; subst tr2.
  - rewrite <- app_assoc. reflexivity.
  - destruct (sidecar_text_total (path_join tmpDir (js "output_ocr.pdf"))
                (path_join tmpDir (js "output.txt")) w (tr1 ++ [spawn]))
      as (text & evs & Htext & Hevs).
    exists text, evs. split; [| assumption].
    fold spawn. rewrite Htext.
    rewrite <- !app_assoc. reflexivity.
Qed.

Lemma verify_id_fallback_after_primary_failure_witness :
  verify_id sample_request world_ocr_fails []
  = (inr (ocr_failed_response peye_value_none
            (js "ocrmypdf exited 2: InputFileError") false),
     snd (try_catch
            (readMrzWithPassportEye (js "/tmp/verifid-a1b2c3/input.pdf")
               (js "/tmp/verifid-a1b2c3"))
            (fun _ => ret JNull) world_ocr_fails
            [EvAcquire; EvMkdtemp (js "/tmp/verifid-");
             EvWriteFile (js "/tmp/verifid-a1b2c3/input.pdf")])
     ++ [EvSpawn (js "ocrmypdf") (ocrmypdf_args (js "/tmp/verifid-a1b2c3")) 180000;
         EvRelease; EvRm (js "/tmp/verifid-a1b2c3")]).
Proof.
  apply (verify_id_fallback_after_primary_failure world_ocr_fails sample_request []
           (PDF_MAGIC ++ js "-1.7 scan") (js "/tmp/verifid-a1b2c3") peye_value_none).
  - reflexivity.
  - reflexivity.
  - repeat split; reflexivity.
Defined.

(* ------------------------------------------------------------------ *)
(** ** The handler and the normaliser together *)

Lemma normalize_not_valid (input : jsval) :
  truthy (get input "valid") = false ->
  get (normalize input) "valid" = JBool false.
Proof.
  intro H. unfold normalize. rewrite H.
  destruct (truthy (get input "error")); reflexivity.
Qed.

Lemma normalize_valid (input : jsval) :
  truthy (get input "error") = false ->
  truthy (get input "valid") = true ->
  get input "method" = JStr METHOD_PEYE \/ get input "method" = JStr METHOD_TESS ->
  get (normalize input) "valid" = JBool true.
Proof.
  intros He Hv [Hm | Hm]; unfold normalize; rewrite He, Hv, Hm; reflexivity.
Qed.

Lemma normalize_rejection (input : jsval) :
  truthy (get input "error") = false ->
  truthy (get input "valid") = false ->
  truthy (get input "reason") = true ->
  get (normalize input) "reason" = get input "reason".
Proof.
  intros He Hv Hr. unfold normalize, js_or. rewrite He, Hv, Hr. reflexivity.
Qed.

(** What travels of a response of the fallback. *)
Lemma secondary_wire (text : jsstring) (debug : bool) :
  let resp := secondary_response text debug in
  get (wire resp) "error" = JUndefined /\
  ((status resp = 200%Z /\ get (wire resp) "valid" = JBool true /\
    get (wire resp) "method" = JStr METHOD_TESS) \/
   (status resp = 422%Z /\ get (wire resp) "valid" = JBool false /\
    get (wire resp) "reason" = reason_of resp /\ truthy (reason_of resp) = true)).
Proof.
  cbv zeta. unfold secondary_response, reason_of, wire.
  destruct (falsy_opt (extractCardNumberFromText text)).
  { cbn [body status].
    split; [apply wire_get_none; destruct debug; reflexivity |].
    right. split; [reflexivity |].
    split; [apply (wire_get _ "valid" (JBool false)); [reflexivity | discriminate] |].
    split; [| reflexivity].
    apply (wire_get _ "reason" (JStr (js "card_number_not_found")));
      [reflexivity | discriminate]. }
  destruct (falsy_opt (extractMrzLine2FromText text)).
  { cbn [body status].
    split; [apply wire_get_none; destruct debug; reflexivity |].
    right. split; [reflexivity |].
    split; [apply (wire_get _ "valid" (JBool false)); [reflexivity | discriminate] |].
    split; [| reflexivity].
    apply (wire_get _ "reason" (JStr (js "mrz_line2_not_found")));
      [reflexivity | discriminate]. }
  destruct (negb _).
  { cbn [body status].
    split; [apply wire_get_none; destruct debug; reflexivity |].
    right. split; [reflexivity |].
    split; [apply (wire_get _ "valid" (JBool false)); [reflexivity | discriminate] |].
    split; [| reflexivity].
    apply (wire_get _ "reason" (JStr (js "card_number_mrz_mismatch")));
      [reflexivity | discriminate]. }
  cbn [body status].
  split; [apply wire_get_none; reflexivity |].
  left. split; [reflexivity |].
  split; [apply (wire_get _ "valid" (JBool true)); [reflexivity | discriminate] |].
  apply (wire_get _ "method" (JStr METHOD_TESS)); [reflexivity | discriminate].
Qed.

Lemma error_wire (st : Z) (msg : jsstring) :
  get (normalize (wire (json_error st msg))) "valid" = JBool false.
Proof. destruct msg; reflexivity. Qed.

Lemma primary_wire (peye : jsval) :
  get (normalize (wire (primary_response peye))) "valid" = JBool true.
Proof.
  apply normalize_valid; unfold wire, primary_response; cbn [body].
  - now rewrite wire_get_none.
  - now rewrite (wire_get _ "valid" (JBool true)).
  - left. now rewrite (wire_get _ "method" (JStr METHOD_PEYE)).
Qed.

Lemma ocr_failed_wire (peye : jsval) (e : Error) (debug : bool) :
  get (normalize (wire (ocr_failed_response peye e debug))) "valid" = JBool false.
Proof.
  apply normalize_not_valid. unfold wire, ocr_failed_response. cbn [body].
  now rewrite (wire_get _ "valid" (JBool false)).
Qed.

(** X19: the normaliser node agrees with the status of the service: fed
    with the body of any response of [/verify-id], it reports
    [valid = true] exactly when the status is 200; and it passes on the
    reason of every 422. *)
Theorem normalizer_agrees_with_status
        (req : Request) (w : World) (tr : Trace) (resp : Response) (tr' : Trace) :
  verify_id req w tr = (inr resp, tr') ->
  get (normalize (wire resp)) "valid" = JBool (status resp =? 200)%Z /\
  (status resp = 422%Z -> get (normalize (wire resp)) "reason" = reason_of resp).
Proof.
  intro Hrun. pose proof (verify_id_cases req w tr resp tr' Hrun) as Hcase.
  destruct Hcase as [| |e|peye Hok Hnum|peye e|text].
  - split; [apply error_wire | discriminate].
  - split; [apply error_wire | discriminate].
  - split; [apply error_wire | discriminate].
  - split; [apply primary_wire | discriminate].
  - split; [apply ocr_failed_wire | discriminate].
  - destruct (secondary_wire text (req_debug req))
      as [Herr [(Hst & Hv & Hm) | (Hst & Hv & Hr & Ht)]]; rewrite Hst.
    + split; [| discriminate].
      apply normalize_valid; [now rewrite Herr | now rewrite Hv | now right].
    + split.
      * apply normalize_not_valid. now rewrite Hv.
      * intros _. rewrite <- Hr. apply normalize_rejection.
        -- now rewrite Herr.
        -- now rewrite Hv.
        -- now rewrite Hr.
Qed.

Lemma normalizer_agrees_with_status_witness :
  get (normalize (wire (secondary_response tesseract_text_ok false))) "valid"
  = JBool true.
Proof.
  refine (proj1 (normalizer_agrees_with_status sample_request
                   (sample_world peye_stdout_none) []
                   (secondary_response tesseract_text_ok false)
                   (snd (verify_id sample_request (sample_world peye_stdout_none) []))
                   _)).
  vm_compute. reflexivity.
Defined.

(* ------------------------------------------------------------------ *)
(** ** The [/ocr] endpoint *)

Lemma sanitizeLang_error_status (raw : jsstring) (e : HttpError) :
  sanitizeLang raw = inl e -> err_status e = 400%Z.
Proof.
  unfold sanitizeLang. destruct (negb _); [| discriminate].
  intros [= <-]. reflexivity.
Qed.

(** X20: [/ocr] checks the request before it takes a slot: without upload
    the answer is 400, without the four bytes [%PDF] it is 415, and with a
    language that is not supported it is 400 with the text of
    [sanitizeLang]; in the three cases nothing has been done. *)
Theorem ocr_rejects_before_any_work
        (toBase64 : jsstring -> jsstring) (req : OcrRequest) (w : World) (tr : Trace) :
  (ocr_file req = None ->
   ocr_handler toBase64 req w tr = (inr (json_error 400 (js "Missing field 'file'")), tr)) /\
  (forall buffer,
      ocr_file req = Some buffer ->
      ~ (exists rest, buffer = PDF_MAGIC ++ rest) ->
      ocr_handler toBase64 req w tr
      = (inr (json_error 415 (js "File does not appear to be a valid PDF")), tr)) /\
  (forall buffer,
      ocr_file req = Some buffer ->
      (exists rest, buffer = PDF_MAGIC ++ rest) ->
      has_lang (trim (toLowerCase (lang_or_default (ocr_lang req)))) = false ->
      exists msg,
        ocr_handler toBase64 req w tr = (inr (json_error 400 msg), tr) /\
        startsWith (js "Unsupported lang: '") msg = true).
Proof.
  split; [| split].
  - intro H. unfold ocr_handler. now rewrite H.
  - intros buffer H Hnot. unfold ocr_handler. rewrite H.
    destruct (isPdfBuffer buffer) eqn:E; [| reflexivity].
    exfalso. apply Hnot. now apply isPdfBuffer_iff.
  - intros buffer H Hpdf Hlang. apply isPdfBuffer_iff in Hpdf.
    unfold ocr_handler. rewrite H, Hpdf. cbn [negb].
    unfold sanitizeLang. rewrite Hlang. cbn [negb err_status err_message status_or_400 Z.eqb].
    eexists. split; reflexivity.
Qed.

Lemma ocr_rejects_before_any_work_witness :
  exists msg,
    ocr_handler sample_base64
      {| ocr_file := Some (PDF_MAGIC ++ js "-1.7 scan");
         ocr_lang := Some (js "klingon"); ocr_return_pdf := false |}
      (sample_world peye_stdout_ok) []
    = (inr (json_error 400 msg), []) /\
    startsWith (js "Unsupported lang: '") msg = true.
Proof.
  apply (proj2 (proj2 (ocr_rejects_before_any_work sample_base64
                  {| ocr_file := Some (PDF_MAGIC ++ js "-1.7 scan");
                     ocr_lang := Some (js "klingon"); ocr_return_pdf := false |}
                  (sample_world peye_stdout_ok) [])) (PDF_MAGIC ++ js "-1.7 scan")).
  - reflexivity.
  - exists (js "-1.7 scan"). reflexivity.
  - reflexivity.
Defined.

Lemma page_count_total (outPdf : jsstring) (w : World) (tr : Trace) :
  exists count,
    try_catch
      (bind (run (js "pdfinfo") [outPdf] PDFINFO_TIMEOUT_MS)
            (fun res => ret (page_count_of (fst res))))
      (fun _ => ret None) w tr
    = (inr count, tr ++ [EvSpawn (js "pdfinfo") [outPdf] PDFINFO_TIMEOUT_MS]).
Proof.
  unfold try_catch, bind, ret.
  pose proof (run_trace (js "pdfinfo") [outPdf] PDFINFO_TIMEOUT_MS w tr) as Htr.
  destruct (run (js "pdfinfo") [outPdf] PDFINFO_TIMEOUT_MS w tr) as [[e | res] tr1];
    cbn [snd] in Htr; subst tr1; eexists; reflexivity.
Qed.


(** The handler past its three checks. *)
Lemma ocr_handler_unfold (toBase64 : jsstring -> jsstring) (req : OcrRequest)
      (w : World) (tr0 : Trace) (buffer lang : jsstring) :
  ocr_file req = Some buffer ->
  isPdfBuffer buffer = true ->
  sanitizeLang (lang_or_default (ocr_lang req)) = inr lang ->
  ocr_handler toBase64 req w tr0
  = match mkdtemp_result w (tr0 ++ [EvAcquire]) (path_join (os_tmpdir w) (js "ocr-")) with
    | inl e =>
        (inr (json_error 500 e),
         ((tr0 ++ [EvAcquire]) ++ [EvMkdtemp (path_join (os_tmpdir w) (js "ocr-"))])
         ++ [EvRelease])
    | inr tmpDir =>
        match runOcr_body toBase64 buffer lang (ocr_return_pdf req) tmpDir w
                ((tr0 ++ [EvAcquire]) ++ [EvMkdtemp (path_join (os_tmpdir w) (js "ocr-"))])
        with
        | (inl e, tr') => (inr (json_error 500 e), (tr' ++ [EvRm tmpDir]) ++ [EvRelease])
        | (inr result, tr') =>
            (inr {| status := 200; body := result_json result |},
             (tr' ++ [EvRm tmpDir]) ++ [EvRelease])
        end
    end.
Proof.
  intros Hfile Hpdf Hlang. unfold ocr_handler. rewrite Hfile, Hpdf, Hlang. cbn [negb].
  unfold runOcr, bind, emit, ask, fs_mkdtemp, finally, try_catch, ret.
  destruct (mkdtemp_result w (tr0 ++ [EvAcquire]) (path_join (os_tmpdir w) (js "ocr-")));
    [reflexivity |].
  destruct (runOcr_body _ _ _ _ _ w _) as [[e | result] tr']; reflexivity.
Qed.



Lemma runOcr_body_run (toBase64 : jsstring -> jsstring) (buffer lang tmpDir : jsstring)
      (w : World) (tr : Trace) :
  writeFile_result w tr (path_join tmpDir (js "input.pdf")) buffer = inr tt ->
  runOcr_body toBase64 buffer lang false tmpDir w tr
  = match run (js "ocrmypdf") (ocr_args lang tmpDir) (OCR_TIMEOUT_MS w) w
            (tr ++ [EvWriteFile (path_join tmpDir (js "input.pdf"))]) with
    | (inl e, tr2) => (inl e, tr2)
    | (inr _, tr2) =>
        match
          try_catch
            (bind (run (js "pdftotext")
                     [js "-layout"; path_join tmpDir (js "output_ocr.pdf");
                      path_join tmpDir (js "output.txt")] 30000)
                  (fun _ => fs_readFile (path_join tmpDir (js "output.txt"))))
            (fun _ => try_catch (fs_readFile (path_join tmpDir (js "output.txt")))
                        (fun _ => ret [])) w tr2
        with
        | (inl e, tr3) => (inl e, tr3)
        | (inr text, tr3) =>
            match
              try_catch
                (bind (run (js "pdfinfo") [path_join tmpDir (js "output_ocr.pdf")]
                         PDFINFO_TIMEOUT_MS)
                      (fun res => ret (page_count_of (fst res))))
                (fun _ => ret None) w tr3
            with
            | (inl e, tr4) => (inl e, tr4)
            | (inr count, tr4) =>
                (inr {| ocr_text := trim text; ocr_page_count := count;
                        ocr_pdf_base64 := None |}, tr4)
            end
        end
    end.
Proof.
  intro Hwr. unfold runOcr_body.
  unfold bind at 1. unfold fs_writeFile at 1. rewrite Hwr.
  unfold bind at 1. unfold ask at 1.
  unfold bind at 1.
  destruct (run (js "ocrmypdf") _ _ w _) as [[e | res] tr2]; [reflexivity |].
  unfold bind at 1.
  destruct (try_catch _ _ w tr2) as [[e | text] tr3]; [reflexivity |].
  unfold bind at 1.
  destruct (try_catch _ _ w tr3) as [[e | count] tr4]; reflexivity.
Qed.

(** X22: of the three tools of [runOcr] only [ocrmypdf] matters for the
    status.  If it fails the answer is 500 with its error and neither
    [pdftotext] nor [pdfinfo] is run; if it succeeds and the PDF is not
    asked back, the answer is 200 with a text and a page count, whatever
    [pdftotext], the sidecar file and [pdfinfo] do; the last process run
    is [pdfinfo]. *)
Theorem ocr_side_tools_not_fatal
        (toBase64 : jsstring -> jsstring) (req : OcrRequest) (w : World) (tr0 : Trace)
        (buffer lang tmpDir : jsstring) :
  ocr_file req = Some buffer ->
  isPdfBuffer buffer = true ->
  sanitizeLang (lang_or_default (ocr_lang req)) = inr lang ->
  ocr_return_pdf req = false ->
  let prefix := path_join (os_tmpdir w) (js "ocr-") in
  let inPdf := path_join tmpDir (js "input.pdf") in
  let outPdf := path_join tmpDir (js "output_ocr.pdf") in
  mkdtemp_result w (tr0 ++ [EvAcquire]) prefix = inr tmpDir ->
  writeFile_result w (tr0 ++ [EvAcquire; EvMkdtemp prefix]) inPdf buffer = inr tt ->
  let tr1 := tr0 ++ [EvAcquire; EvMkdtemp prefix; EvWriteFile inPdf] in
  let spawn := EvSpawn (js "ocrmypdf") (ocr_args lang tmpDir) (OCR_TIMEOUT_MS w) in
  match fst (run (js "ocrmypdf") (ocr_args lang tmpDir) (OCR_TIMEOUT_MS w) w tr1) with
  | inl e =>
      ocr_handler toBase64 req w tr0
      = (inr (json_error 500 e), tr1 ++ [spawn; EvRm tmpDir; EvRelease])
  | inr _ =>
      exists text count evs,
        ocr_handler toBase64 req w tr0
        = (inr {| status := 200;
                  body := JObj [("text", JStr (trim text));
                                ("page_count", count_json count)] |},
           tr1 ++ spawn :: evs
           ++ [EvSpawn (js "pdfinfo") [outPdf] PDFINFO_TIMEOUT_MS;
               EvRm tmpDir; EvRelease]) /\
        Forall body_event evs
  end.
Proof.
  intros Hfile Hpdf Hlang Hret prefix inPdf outPdf Hmk Hwr tr1 spawn.
  assert (Hrun :
            ocr_handler toBase64 req w tr0
            = match runOcr_body toBase64 buffer lang false tmpDir w
                      (tr0 ++ [EvAcquire; EvMkdtemp prefix]) with
              | (inl e, tr') => (inr (json_error 500 e), tr' ++ [EvRm tmpDir; EvRelease])
              | (inr result, tr') =>
                  (inr {| status := 200; body := result_json result |},
                   tr' ++ [EvRm tmpDir; EvRelease])
              end).
  { rewrite (ocr_handler_unfold toBase64 req w tr0 buffer lang Hfile Hpdf Hlang).
    fold prefix. rewrite Hmk, Hret. rewrite <- app_assoc. cbn [app].
    destruct (runOcr_body _ _ _ _ _ w _) as [[e | result] tr'];
      rewrite <- app_assoc; reflexivity. }
  rewrite Hrun. clear Hrun.
  rewrite (runOcr_body_run toBase64 buffer lang tmpDir w _ Hwr).
  fold inPdf. rewrite <- app_assoc. cbn [app]. fold tr1.
  pose proof (run_trace (js "ocrmypdf") (ocr_args lang tmpDir) (OCR_TIMEOUT_MS w) w tr1)
    as Htr.
  destruct (run (js "ocrmypdf") (ocr_args lang tmpDir) (OCR_TIMEOUT_MS w) w tr1)
    as [[e | res] tr2]; cbn [fst snd] in Htr |- *; subst tr2.
  - rewrite <- app_assoc. reflexivity.
  - destruct (sidecar_text_total (path_join tmpDir (js "output_ocr.pdf"))
                (path_join tmpDir (js "output.txt")) w (tr1 ++ [spawn]))
      as (text & evs & Htext & Hevs).
    fold spawn. rewrite Htext.
    destruct (page_count_total outPdf w ((tr1 ++ [spawn]) ++ evs)) as (count & Hcount).
    fold outPdf. rewrite Hcount.
    exists text, count, evs. split; [| assumption].
    f_equal. rewrite <- !app_assoc. reflexivity.
Qed.

Lemma ocr_side_tools_not_fatal_witness :
  exists text count evs,
    ocr_handler sample_base64 sample_ocr_request world_side_tools_fail []
    = (inr {| status := 200;
              body := JObj [("text", JStr (trim text));
                            ("page_count", count_json count)] |},
       ([] ++ [EvAcquire; EvMkdtemp (js "/tmp/ocr-");
               EvWriteFile (js "/tmp/ocr-a1b2c3/input.pdf")])
       ++ EvSpawn (js "ocrmypdf") (ocr_args (js "fra") (js "/tmp/ocr-a1b2c3")) 180000
       :: evs
       ++ [EvSpawn (js "pdfinfo") [js "/tmp/ocr-a1b2c3/output_ocr.pdf"] PDFINFO_TIMEOUT_MS;
           EvRm (js "/tmp/ocr-a1b2c3"); EvRelease]) /\
    Forall body_event evs.
Proof.
  apply (ocr_side_tools_not_fatal sample_base64 sample_ocr_request world_side_tools_fail []
           (PDF_MAGIC ++ js "-1.7 scan") (js "fra") (js "/tmp/ocr-a1b2c3"));
    reflexivity.
Defined.

(* ------------------------------------------------------------------ *)
(** ** No command is run twice *)

Lemma spawn_count_app (cmd : jsstring) (a b : Trace) :
  spawn_count cmd (a ++ b) = spawn_count cmd a + spawn_count cmd b.
Proof. unfold spawn_count. now rewrite filter_app, length_app. Qed.

Lemma spawns_le_ret {A : Type} (cmd : jsstring) (a : A) : spawns_le cmd 0 (ret a).
Proof.
  intros w tr r tr' [= <- <-]. exists []. split; [now rewrite app_nil_r | apply le_n].
Qed.

Lemma spawns_le_throw {A : Type} (cmd : jsstring) (e : Error) :
  spawns_le cmd 0 (@throw A e).
Proof.
  intros w tr r tr' [= <- <-]. exists []. split; [now rewrite app_nil_r | apply le_n].
Qed.

Lemma spawns_le_ask {A : Type} (cmd : jsstring) (proj : World -> A) :
  spawns_le cmd 0 (ask proj).
Proof.
  intros w tr r tr' [= <- <-]. exists []. split; [now rewrite app_nil_r | apply le_n].
Qed.

Lemma spawns_le_mono {A : Type} (cmd : jsstring) (a b : nat) (m : M A) :
  spawns_le cmd a m -> a <= b -> spawns_le cmd b m.
Proof.
  intros Hm Hab w tr r tr' H. destruct (Hm _ _ _ _ H) as (evs & -> & Hn).
  exists evs. split; [reflexivity | lia].
Qed.

Lemma spawns_le_bind {A B : Type} (cmd : jsstring) (a b : nat) (m : M A) (k : A -> M B) :
  spawns_le cmd a m -> (forall x, spawns_le cmd b (k x)) ->
  spawns_le cmd (a + b) (bind m k).
Proof.
  intros Hm Hk w tr r tr' H. unfold bind in H.
  destruct (m w tr) as [[e | x] tr1] eqn:E;
    destruct (Hm _ _ _ _ E) as (evs1 & -> & H1).
  - injection H as <- <-. exists evs1. split; [reflexivity | lia].
  - destruct (Hk x _ _ _ _ H) as (evs2 & -> & H2).
    exists (evs1 ++ evs2). split; [now rewrite app_assoc |].
    rewrite spawn_count_app. lia.
Qed.

Lemma spawns_le_try_catch {A : Type} (cmd : jsstring) (a b : nat)
      (m : M A) (h : Error -> M A) :
  spawns_le cmd a m -> (forall e, spawns_le cmd b (h e)) ->
  spawns_le cmd (a + b) (try_catch m h).
Proof.
  intros Hm Hh w tr r tr' H. unfold try_catch in H.
  destruct (m w tr) as [[e | x] tr1] eqn:E;
    destruct (Hm _ _ _ _ E) as (evs1 & -> & H1).
  - destruct (Hh e _ _ _ _ H) as (evs2 & -> & H2).
    exists (evs1 ++ evs2). split; [now rewrite app_assoc |].
    rewrite spawn_count_app. lia.
  - injection H as <- <-. exists evs1. split; [reflexivity | lia].
Qed.

Lemma spawns_le_finally {A : Type} (cmd : jsstring) (a : nat) (m : M A) (evs : Trace) :
  spawn_count cmd evs = 0 -> spawns_le cmd a m ->
  spawns_le cmd a (finally m (fun tr => tr ++ evs)).
Proof.
  intros H0 Hm w tr r tr' H. unfold finally in H.
  destruct (m w tr) as [r1 tr1] eqn:E. injection H as <- <-.
  destruct (Hm _ _ _ _ E) as (evs1 & -> & H1).
  exists (evs1 ++ evs). split; [now rewrite app_assoc |].
  rewrite spawn_count_app. lia.
Qed.

Lemma spawns_le_one {A : Type} (cmd : jsstring) (m : M A) (e : Event) :
  (forall w tr, snd (m w tr) = tr ++ [e]) ->
  spawns_le cmd (if is_spawn_of cmd e then 1 else 0) m.
Proof.
  intros Hm w tr r tr' H. exists [e].
  specialize (Hm w tr). rewrite H in Hm. cbn [snd] in Hm.
  split; [assumption |].
  unfold spawn_count. cbn [filter]. destruct (is_spawn_of cmd e); apply le_n.
Qed.

Lemma spawns_le_run (cmd c : jsstring) (args : list jsstring) (t : Z) :
  spawns_le cmd (if str_eqb c cmd then 1 else 0) (run c args t).
Proof.
  apply (spawns_le_one cmd _ (EvSpawn c args t)). intros w tr. apply run_trace.
Qed.

Lemma spawns_le_first_accessible (cmd tmpDir : jsstring) (cs : list jsstring) :
  spawns_le cmd 0 (first_accessible tmpDir cs).
Proof.
  induction cs as [|c cs IH]; cbn [first_accessible]; [apply spawns_le_ret |].
  apply (spawns_le_bind cmd 0 0).
  - apply (spawns_le_one cmd _ (EvAccess (path_join tmpDir c))). reflexivity.
  - intros [|]; [apply spawns_le_ret | exact IH].
Qed.

Lemma spawns_le_sidecar (cmd outPdf outTxt : jsstring) :
  spawns_le cmd (if str_eqb (js "pdftotext") cmd then 1 else 0)
    (try_catch
       (bind (run (js "pdftotext") [js "-layout"; outPdf; outTxt] 30000)
             (fun _ => fs_readFile outTxt))
       (fun _ => try_catch (fs_readFile outTxt) (fun _ => ret []))).
Proof.
  eapply spawns_le_mono.
  - eapply (spawns_le_try_catch cmd _ 0).
    + eapply (spawns_le_bind cmd _ 0); [apply spawns_le_run | intros _].
      apply (spawns_le_one cmd _ (EvReadFile outTxt)). reflexivity.
    + intros _. apply (spawns_le_try_catch cmd 0 0); [| intros _; apply spawns_le_ret].
      apply (spawns_le_one cmd _ (EvReadFile outTxt)). reflexivity.
  - lia.
Qed.

Lemma spawns_le_readMrz (cmd pdfPath tmpDir : jsstring) :
  spawns_le cmd ((if str_eqb (js "pdftoppm") cmd then 1 else 0)
                 + (if str_eqb (js "python3") cmd then 1 else 0))
    (readMrzWithPassportEye pdfPath tmpDir).
Proof.
  unfold readMrzWithPassportEye.
  apply spawns_le_bind; [apply spawns_le_run | intros _].
  apply (spawns_le_bind cmd 0); [apply spawns_le_first_accessible | intros found].
  apply (spawns_le_bind cmd 0).
  { destruct found as [p|]; [apply spawns_le_ret |].
    apply (spawns_le_bind cmd 0 0).
    - apply (spawns_le_one cmd _ (EvReaddir tmpDir)). reflexivity.
    - intros files. destruct (find _ files); [apply spawns_le_ret | apply spawns_le_throw]. }
  intros imgPath.
  apply (spawns_le_bind cmd 0); [apply spawns_le_ask | intros script].
  eapply spawns_le_mono.
  - eapply (spawns_le_bind cmd _ 0); [apply spawns_le_run | intros res].
    apply (spawns_le_bind cmd 0 0); [apply spawns_le_ask | intros parse].
    destruct (parse _); [apply spawns_le_ret | apply spawns_le_throw].
  - lia.
Qed.

Lemma spawns_le_tesseract (cmd inPdf tmpDir : jsstring) :
  spawns_le cmd ((if str_eqb (js "ocrmypdf") cmd then 1 else 0)
                 + (if str_eqb (js "pdftotext") cmd then 1 else 0))
    (tesseract_text inPdf tmpDir).
Proof.
  unfold tesseract_text.
  apply (spawns_le_bind cmd 0); [apply spawns_le_ask | intros timeout].
  apply spawns_le_bind; [apply spawns_le_run | intros _].
  apply spawns_le_sidecar.
Qed.

Lemma spawns_le_verify_id_body (cmd buffer : jsstring) (debug : bool) (tmpDir : jsstring) :
  spawns_le cmd
    ((if str_eqb (js "pdftoppm") cmd then 1 else 0)
     + (if str_eqb (js "python3") cmd then 1 else 0)
     + ((if str_eqb (js "ocrmypdf") cmd then 1 else 0)
        + (if str_eqb (js "pdftotext") cmd then 1 else 0)))
    (verify_id_body buffer debug tmpDir).
Proof.
  unfold verify_id_body.
  apply (spawns_le_bind cmd 0).
  { apply (spawns_le_one cmd _ (EvWriteFile (path_join tmpDir (js "input.pdf")))).
    reflexivity. }
  intros _. apply spawns_le_bind.
  { eapply spawns_le_mono.
    - eapply (spawns_le_try_catch cmd _ 0);
        [apply spawns_le_readMrz | intros _; apply spawns_le_ret].
    - lia. }
  intros peye. destruct (truthy (get peye "ok") && truthy (get peye "number")).
  { eapply spawns_le_mono; [apply spawns_le_ret | lia]. }
  eapply spawns_le_mono.
  - eapply (spawns_le_bind cmd _ 0); [| intros [resp | text]; apply spawns_le_ret].
    eapply (spawns_le_try_catch cmd _ 0); [| intros e; apply spawns_le_ret].
    eapply (spawns_le_bind cmd _ 0); [apply spawns_le_tesseract |].
    intros text. apply spawns_le_ret.
  - lia.
Qed.

Lemma spawns_le_runOcr_body (toBase64 : jsstring -> jsstring) (cmd buffer lang : jsstring)
      (returnPdf : bool) (tmpDir : jsstring) :
  spawns_le cmd
    ((if str_eqb (js "ocrmypdf") cmd then 1 else 0)
     + ((if str_eqb (js "pdftotext") cmd then 1 else 0)
        + (if str_eqb (js "pdfinfo") cmd then 1 else 0)))
    (runOcr_body toBase64 buffer lang returnPdf tmpDir).
Proof.
  unfold runOcr_body.
  apply (spawns_le_bind cmd 0).
  { apply (spawns_le_one cmd _ (EvWriteFile (path_join tmpDir (js "input.pdf")))).
    reflexivity. }
  intros _. apply (spawns_le_bind cmd 0); [apply spawns_le_ask | intros timeout].
  apply spawns_le_bind; [apply spawns_le_run | intros _].
  apply spawns_le_bind; [apply spawns_le_sidecar | intros text].
  eapply spawns_le_mono.
  - eapply (spawns_le_bind cmd _ 0).
    + eapply (spawns_le_try_catch cmd _ 0); [| intros _; apply spawns_le_ret].
      eapply (spawns_le_bind cmd _ 0); [apply spawns_le_run |].
      intros res. apply spawns_le_ret.
    + intros count. destruct returnPdf; [| apply spawns_le_ret].
      apply (spawns_le_bind cmd 0 0); [| intros pdfBuf; apply spawns_le_ret].
      apply (spawns_le_one cmd _ (EvReadFile (path_join tmpDir (js "output_ocr.pdf")))).
      reflexivity.
  - lia.
Qed.

Lemma once_if_in_verify_id (cmd : jsstring) :
  (if str_eqb (js "pdftoppm") cmd then 1 else 0)
  + (if str_eqb (js "python3") cmd then 1 else 0)
  + ((if str_eqb (js "ocrmypdf") cmd then 1 else 0)
     + (if str_eqb (js "pdftotext") cmd then 1 else 0))
  <= once_if_in verify_id_commands cmd.
Proof.
  unfold once_if_in, verify_id_commands. cbn [existsb].
  destruct (str_eqb (js "pdftoppm") cmd) eqn:E1;
    destruct (str_eqb (js "python3") cmd) eqn:E2;
    destruct (str_eqb (js "ocrmypdf") cmd) eqn:E3;
    destruct (str_eqb (js "pdftotext") cmd) eqn:E4;
    cbn [orb Nat.add]; try apply le_n;
    exfalso;
    repeat match goal with
           | H : str_eqb _ cmd = true |- _ => apply str_eqb_eq in H; vm_compute in H
           end; congruence.
Qed.

Lemma once_if_in_ocr (cmd : jsstring) :
  (if str_eqb (js "ocrmypdf") cmd then 1 else 0)
  + ((if str_eqb (js "pdftotext") cmd then 1 else 0)
     + (if str_eqb (js "pdfinfo") cmd then 1 else 0))
  <= once_if_in ocr_commands cmd.
Proof.
  unfold once_if_in, ocr_commands. cbn [existsb].
  destruct (str_eqb (js "ocrmypdf") cmd) eqn:E1;
    destruct (str_eqb (js "pdftotext") cmd) eqn:E2;
    destruct (str_eqb (js "pdfinfo") cmd) eqn:E3;
    cbn [orb Nat.add]; try apply le_n;
    exfalso;
    repeat match goal with
           | H : str_eqb _ cmd = true |- _ => apply str_eqb_eq in H; vm_compute in H
           end; congruence.
Qed.

(** X23: no request makes a command run twice.  In any run of
    [/verify-id] each of [pdftoppm], [python3], [ocrmypdf] and [pdftotext]
    is spawned at most once and no other command is spawned at all; the
    same holds of [/ocr] with [ocrmypdf], [pdftotext] and [pdfinfo]. *)
Theorem no_command_runs_twice
        (toBase64 : jsstring -> jsstring) (cmd : jsstring) :
  (forall req, spawns_le cmd (once_if_in verify_id_commands cmd) (verify_id req)) /\
  (forall req, spawns_le cmd (once_if_in ocr_commands cmd) (ocr_handler toBase64 req)).
Proof.
  split; intro req.
  - unfold verify_id. destruct (req_file req) as [buffer|];
      [| eapply spawns_le_mono; [apply spawns_le_ret | lia]].
    destruct (isPdfBuffer buffer); cbn [negb];
      [| eapply spawns_le_mono; [apply spawns_le_ret | lia]].
    apply (spawns_le_bind cmd 0);
      [apply (spawns_le_one cmd _ EvAcquire); reflexivity | intros _].
    apply (spawns_le_bind cmd 0); [apply spawns_le_ask | intros tmp].
    apply (spawns_le_bind cmd 0);
      [apply (spawns_le_one cmd _ (EvMkdtemp (path_join tmp (js "verifid-")))); reflexivity
      | intros tmpDir].
    apply spawns_le_finally; [reflexivity |].
    eapply spawns_le_mono.
    + eapply (spawns_le_try_catch cmd _ 0);
        [apply spawns_le_verify_id_body | intros e; apply spawns_le_ret].
    + rewrite Nat.add_0_r. apply once_if_in_verify_id.
  - unfold ocr_handler. destruct (ocr_file req) as [buffer|];
      [| eapply spawns_le_mono; [apply spawns_le_ret | lia]].
    destruct (isPdfBuffer buffer); cbn [negb];
      [| eapply spawns_le_mono; [apply spawns_le_ret | lia]].
    destruct (sanitizeLang _) as [e | lang];
      [eapply spawns_le_mono; [apply spawns_le_ret | lia] |].
    apply (spawns_le_bind cmd 0);
      [apply (spawns_le_one cmd _ EvAcquire); reflexivity | intros _].
    apply spawns_le_finally; [reflexivity |].
    eapply spawns_le_mono.
    + eapply (spawns_le_try_catch cmd _ 0); [| intros e; apply spawns_le_ret].
      eapply (spawns_le_bind cmd _ 0); [| intros result; apply spawns_le_ret].
      unfold runOcr.
      apply (spawns_le_bind cmd 0); [apply spawns_le_ask | intros tmp].
      apply (spawns_le_bind cmd 0);
        [apply (spawns_le_one cmd _ (EvMkdtemp (path_join tmp (js "ocr-")))); reflexivity
        | intros tmpDir].
      apply spawns_le_finally; [reflexivity |].
      apply spawns_le_runOcr_body.
    + rewrite !Nat.add_0_r. apply once_if_in_ocr.
Qed.

Lemma no_command_runs_twice_witness :
  exists evs,
    snd (verify_id sample_request (sample_world peye_stdout_none) []) = [] ++ evs /\
    spawn_count (js "ocrmypdf") evs <= once_if_in verify_id_commands (js "ocrmypdf").
Proof.
  apply (proj1 (no_command_runs_twice sample_base64 (js "ocrmypdf")) sample_request
           (sample_world peye_stdout_none) []
           (fst (verify_id sample_request (sample_world peye_stdout_none) []))).
  apply surjective_pairing.
Defined.

(* ------------------------------------------------------------------ *)
(** ** The page count read from [pdfinfo] *)

Lemma parseDigits_value (ds : jsstring) :
  forall a,
    forallb isDigit ds = true ->
    parseDigits ds (Some a)
    = Some (fold_left (fun a c => (a * 10 + digitVal c)%Z) ds a).
Proof.
  induction ds as [|c ds IH]; intros a H; [reflexivity |].
  cbn [forallb] in H. apply andb_prop in H as [Hc Hd].
  cbn [parseDigits fold_left]. rewrite Hc. apply IH, Hd.
Qed.

Lemma digit_is_plain (c : ascii) :
  isDigit c = true ->
  isSpace c = false /\ Ascii.eqb c "-"%char = false /\ Ascii.eqb c "+"%char = false /\
  Ascii.eqb c ":"%char = false /\ Ascii.eqb c NL = false.
Proof.
  ascii_cases c; vm_compute; intro H; try discriminate H; repeat split; reflexivity.
Qed.

Lemma parseInt_digits (ds : jsstring) :
  ds <> [] -> forallb isDigit ds = true -> parseInt ds = Some (decimal_value ds).
Proof.
  destruct ds as [|c ds]; [congruence |]. intros _ H.
  cbn [forallb] in H. apply andb_prop in H as [Hc Hd].
  destruct (digit_is_plain c Hc) as (Hs & Hm & Hp & _).
  unfold parseInt. cbn [dropWhile]. rewrite Hs, Hm, Hp.
  cbn [parseDigits]. rewrite Hc, (parseDigits_value ds _ Hd). reflexivity.
Qed.

Lemma dropWhile_spaces (k : nat) (s : jsstring) :
  dropWhile isSpace (repeat " "%char k ++ s) = dropWhile isSpace s.
Proof. induction k as [|k IH]; [reflexivity | exact IH]. Qed.

Lemma dropWhile_digits (ds : jsstring) :
  forallb isDigit ds = true -> dropWhile isSpace ds = ds.
Proof.
  destruct ds as [|c ds]; [reflexivity |]. intro H.
  cbn [forallb] in H. apply andb_prop in H as [Hc _].
  destruct (digit_is_plain c Hc) as (Hs & _). cbn [dropWhile]. now rewrite Hs.
Qed.

Lemma trim_padded_digits (k : nat) (ds : jsstring) :
  forallb isDigit ds = true -> trim (repeat " "%char k ++ ds) = ds.
Proof.
  intro H. unfold trim. rewrite dropWhile_spaces, (dropWhile_digits ds H).
  rewrite dropWhile_digits; [apply rev_involutive |].
  apply forallb_forall. intros c Hc. apply in_rev in Hc.
  exact (proj1 (forallb_forall _ _) H c Hc).
Qed.

Lemma split_acc_piece (sep : ascii) (a s : jsstring) :
  forallb (fun c => negb (Ascii.eqb c sep)) a = true ->
  split_acc sep (a ++ sep :: s) [] = a :: split_acc sep s [].
Proof.
  intro H. rewrite (split_acc_no_sep sep a (sep :: s) [] H).
  cbn [split_acc]. rewrite Ascii.eqb_refl, app_nil_r, rev_involutive. reflexivity.
Qed.

Lemma split_acc_last (sep : ascii) (a : jsstring) :
  forallb (fun c => negb (Ascii.eqb c sep)) a = true ->
  split_acc sep a [] = [a].
Proof.
  intro H. rewrite <- (app_nil_r a) at 1. rewrite (split_acc_no_sep sep a [] [] H).
  cbn [split_acc]. now rewrite app_nil_r, rev_involutive.
Qed.

Lemma split_unlines (pre : list jsstring) (s : jsstring) :
  Forall (fun l => forallb (fun c => negb (Ascii.eqb c NL)) l = true) pre ->
  split NL (unlines pre ++ s) = pre ++ split NL s.
Proof.
  unfold split. induction 1 as [|l pre Hl Hpre IH]; [reflexivity |].
  cbn [unlines flat_map app]. rewrite <- !app_assoc. cbn [app].
  rewrite (split_acc_piece NL l _ Hl). f_equal. exact IH.
Qed.

Lemma find_after (f : jsstring -> bool) (pre : list jsstring) (x : jsstring)
      (rest : list jsstring) :
  Forall (fun l => f l = false) pre -> f x = true ->
  find f (pre ++ x :: rest) = Some x.
Proof.
  intros Hpre Hx. induction Hpre as [|l pre Hl _ IH]; cbn [app find].
  - now rewrite Hx.
  - now rewrite Hl.
Qed.

Lemma label_without (label : jsstring) (sep : ascii) :
  toLowerCase label = js "pages" -> lowerChar sep = sep -> ~ In sep (js "pages") ->
  forallb (fun c => negb (Ascii.eqb c sep)) label = true.
Proof.
  intros Hl Hsep Hnot. apply forallb_forall. intros c Hc.
  destruct (Ascii.eqb_spec c sep) as [-> | _]; [| reflexivity].
  exfalso. apply Hnot. rewrite <- Hl, <- Hsep. unfold toLowerCase. now apply in_map.
Qed.

Lemma forallb_spaces (p : ascii -> bool) (k : nat) :
  p " "%char = true -> forallb p (repeat " "%char k) = true.
Proof. intro H. induction k as [|k IH]; [reflexivity |]. cbn [repeat forallb]. now rewrite H. Qed.

Lemma digits_without (ds : jsstring) (sep : ascii) :
  sep = ":"%char \/ sep = NL ->
  forallb isDigit ds = true ->
  forallb (fun c => negb (Ascii.eqb c sep)) ds = true.
Proof.
  intros Hsep H. apply forallb_forall. intros c Hc.
  pose proof (proj1 (forallb_forall _ _) H c Hc) as Hd.
  destruct (digit_is_plain c Hd) as (_ & _ & _ & H1 & H2).
  destruct Hsep as [-> | ->]; [now rewrite H1 | now rewrite H2].
Qed.

(** X24: the page count is read from the first line of the output of
    [pdfinfo] that begins with [pages:] in any case: when that line holds
    the label, a colon, spaces and a run of digits that writes a number
    of at most 2^53, the count is that number, whatever stands on the
    other lines. *)
Theorem page_count_reads_pages_line
        (pre : list jsstring) (label : jsstring) (k : nat) (ds rest : jsstring) :
  Forall (fun l => forallb (fun c => negb (Ascii.eqb c NL)) l = true /\
                   startsWith (js "pages:") (toLowerCase l) = false) pre ->
  toLowerCase label = js "pages" ->
  ds <> [] ->
  forallb isDigit ds = true ->
  (decimal_value ds <= MAX_EXACT)%Z ->
  page_count_of (unlines pre ++ (label ++ js ":" ++ repeat " "%char k ++ ds) ++ NL :: rest)
  = Some (Some (decimal_value ds)).
Proof.
  intros Hpre Hlabel Hne Hds _.
  set (line := label ++ js ":" ++ repeat " "%char k ++ ds).
  assert (Hline : forallb (fun c => negb (Ascii.eqb c NL)) line = true).
  { unfold line. rewrite !forallb_app.
    rewrite (label_without label NL Hlabel eq_refl),
            (forallb_spaces _ k eq_refl), (digits_without ds NL (or_intror eq_refl) Hds);
      [reflexivity |].
    cbn. intuition discriminate. }
  assert (Hstart : startsWith (js "pages:") (toLowerCase line) = true).
  { unfold line, toLowerCase. rewrite map_app. fold (toLowerCase label).
    rewrite Hlabel. reflexivity. }
  assert (Hlen : (len line =? 0) = false).
  { apply Nat.eqb_neq. unfold line, len. rewrite !length_app. cbn. lia. }
  assert (Hcut : nth 1 (split_acc ":"%char line []) [] = repeat " "%char k ++ ds).
  { unfold line. change (js ":") with [":"%char]. cbn [app].
    rewrite split_acc_piece.
    - rewrite split_acc_last; [reflexivity |].
      rewrite forallb_app, (forallb_spaces _ k eq_refl).
      exact (digits_without ds ":"%char (or_introl eq_refl) Hds).
    - apply (label_without label ":"%char Hlabel eq_refl). cbn. intuition discriminate. }
  unfold page_count_of.
  rewrite split_unlines.
  2:{ eapply Forall_impl; [| exact Hpre]. cbv beta. tauto. }
  unfold split. rewrite (split_acc_piece NL line rest Hline).
  rewrite (find_after _ pre line).
  - rewrite Hlen, Hcut, (trim_padded_digits k ds Hds), (parseInt_digits ds Hne Hds).
    reflexivity.
  - eapply Forall_impl; [| exact Hpre]. cbv beta. tauto.
  - exact Hstart.
Qed.

Lemma page_count_reads_pages_line_witness :
  page_count_of (unlines [js "Title:          scan"; js "Producer:       ocrmypdf"]
                 ++ (js "Pages" ++ js ":" ++ repeat " "%char 10 ++ js "12")
                 ++ NL :: js "Encrypted:      no")
  = Some (Some 12%Z).
Proof.
  apply (page_count_reads_pages_line
           [js "Title:          scan"; js "Producer:       ocrmypdf"]
           (js "Pages") 10 (js "12") (js "Encrypted:      no")).
  - repeat constructor.
  - reflexivity.
  - discriminate.
  - reflexivity.
  - discriminate.
Defined.

Lemma lowerChar_colon (c : ascii) :
  Ascii.eqb ":"%char (lowerChar c) = true -> c = ":"%char.
Proof. ascii_cases c; vm_compute; intro H; try discriminate H; reflexivity. Qed.

Lemma lowerChar_letter (x c : ascii) :
  isLower x = true -> Ascii.eqb x (lowerChar c) = true -> Ascii.eqb c ":"%char = false.
Proof.
  intros Hx H. destruct (Ascii.eqb_spec c ":"%char) as [-> | _]; [| reflexivity].
  apply Ascii.eqb_eq in H. subst x. discriminate Hx.
Qed.

Lemma startsWith_app (a b : jsstring) : startsWith a (a ++ b) = true.
Proof.
  induction a as [|x a IH]; [reflexivity |]. cbn [startsWith app].
  now rewrite Ascii.eqb_refl.
Qed.

Lemma split_acc_nonempty (sep : ascii) (s : jsstring) :
  forall cur, split_acc sep s cur <> [].
Proof.
  induction s as [|c s IH]; intro cur; cbn [split_acc]; [discriminate |].
  destruct (Ascii.eqb c sep); [discriminate | apply IH].
Qed.

Lemma split_acc_head_prefix (sep : ascii) (s : jsstring) :
  forall cur dflt, startsWith (nth 0 (split_acc sep s cur) dflt) (rev cur ++ s) = true.
Proof.
  induction s as [|c s IH]; intros cur dflt; cbn [split_acc nth].
  - apply startsWith_app.
  - destruct (Ascii.eqb c sep); cbn [nth]; [apply startsWith_app |].
    specialize (IH (c :: cur) dflt). cbn [rev] in IH. now rewrite <- app_assoc in IH.
Qed.

(** X25: a line that begins with [pages:] in any case always has a second
    piece when cut at its colons, so that the page count never reads an
    [undefined]: the first piece is the label and the second is what
    follows its colon. *)
Theorem pages_line_has_second_piece (line : jsstring) :
  startsWith (js "pages:") (toLowerCase line) = true ->
  exists label tail pieces,
    line = label ++ ":"%char :: tail /\
    toLowerCase label = js "pages" /\
    split ":"%char line = label :: pieces /\
    pieces <> [] /\
    startsWith (nth 0 pieces []) tail = true.
Proof.
  intro H.
  destruct line as [|c1 [|c2 [|c3 [|c4 [|c5 [|c6 tail]]]]]];
    cbn [toLowerCase map startsWith String.list_ascii_of_string] in H;
    repeat (apply andb_prop in H as [?H H]); try discriminate H.
  pose proof (lowerChar_colon c6 H5) as ->.
  exists [c1; c2; c3; c4; c5], tail.
  pose proof (lowerChar_letter "p"%char c1 eq_refl H0) as E1.
  pose proof (lowerChar_letter "a"%char c2 eq_refl H1) as E2.
  pose proof (lowerChar_letter "g"%char c3 eq_refl H2) as E3.
  pose proof (lowerChar_letter "e"%char c4 eq_refl H3) as E4.
  pose proof (lowerChar_letter "s"%char c5 eq_refl H4) as E5.
  unfold split. cbn [split_acc]. rewrite E1, E2, E3, E4, E5. cbn [Ascii.eqb Bool.eqb rev app].
  eexists. split; [reflexivity |].
  split.
  { apply Ascii.eqb_eq in H0, H1, H2, H3, H4. cbn [toLowerCase map].
    now rewrite <- H0, <- H1, <- H2, <- H3, <- H4. }
  split; [reflexivity |].
  split; [apply split_acc_nonempty |].
  apply (split_acc_head_prefix ":"%char tail [] []).
Qed.

Lemma pages_line_has_second_piece_witness :
  exists label tail pieces,
    js "PAGES:3:x" = label ++ ":"%char :: tail /\
    toLowerCase label = js "pages" /\
    split ":"%char (js "PAGES:3:x") = label :: pieces /\
    pieces <> [] /\
    startsWith (nth 0 pieces []) tail = true.
Proof. apply (pages_line_has_second_piece (js "PAGES:3:x")). reflexivity. Defined.

(* ------------------------------------------------------------------ *)
(** ** The process runner and the reader *)

(** X26: [run] spawns its command once; it resolves exactly when the child
    closes with the exit code 0, and then with both streams as the child
    wrote them; any other end - another code, a signal, the timer, a spawn
    error - is an error whose text begins with the name of the command. *)
Theorem run_resolves_on_exit_zero
        (cmd : jsstring) (args : list jsstring) (t : Z) (w : World) (tr : Trace) :
  snd (run cmd args t w tr) = tr ++ [EvSpawn cmd args t] /\
  (forall out err,
      fst (run cmd args t w tr) = inr (out, err) <->
      spawn_outcome w tr cmd args t = Exited (Some 0%Z) out err) /\
  (forall e, fst (run cmd args t w tr) = inl e -> startsWith cmd e = true).
Proof.
  split; [apply run_trace |]. unfold run.
  destruct (spawn_outcome w tr cmd args t) as [[[| p | p] |] o e' | | msg]; cbn [fst];
    (split;
     [intros out err; split; intro H; try discriminate H;
      try (injection H as <- <-; reflexivity)
     | intros e H; try discriminate H; injection H as <-; apply startsWith_app]).
Qed.

Lemma run_resolves_on_exit_zero_witness :
  startsWith (js "ocrmypdf")
    (js "ocrmypdf exited 2: InputFileError") = true.
Proof.
  apply (proj2 (proj2 (run_resolves_on_exit_zero (js "ocrmypdf") [] 1000 world_ocr_fails []))).
  reflexivity.
Defined.

(** X27: when [pdftoppm] has run and, tried in their order, none of
    [page-1.png], [page-01.png] and [page-001.png] can be accessed, the
    reader lists the workspace; if no file there begins with [page] and
    ends with [.png], it throws and [python3] is never run.  Nothing is
    asked of any other file of the workspace. *)
Theorem reader_without_image
        (pdfPath tmpDir : jsstring) (w : World) (tr : Trace)
        (out err : jsstring) (files : list jsstring) :
  let args := [js "-r"; js "300"; js "-png"; js "-f"; js "1"; js "-l"; js "1"; pdfPath;
               path_join tmpDir (js "page")] in
  let p1 := path_join tmpDir (js "page-1.png") in
  let p2 := path_join tmpDir (js "page-01.png") in
  let p3 := path_join tmpDir (js "page-001.png") in
  let tr1 := tr ++ [EvSpawn (js "pdftoppm") args 30000] in
  spawn_outcome w tr (js "pdftoppm") args 30000 = Exited (Some 0%Z) out err ->
  access_result w tr1 p1 = false ->
  access_result w (tr1 ++ [EvAccess p1]) p2 = false ->
  access_result w ((tr1 ++ [EvAccess p1]) ++ [EvAccess p2]) p3 = false ->
  readdir_result w (((tr1 ++ [EvAccess p1]) ++ [EvAccess p2]) ++ [EvAccess p3]) tmpDir
  = inr files ->
  find (fun f => startsWith (js "page") f && endsWith (js ".png") f) files = None ->
  readMrzWithPassportEye pdfPath tmpDir w tr
  = (inl (js "pdftoppm n'a produit aucun fichier PNG"),
     tr ++ [EvSpawn (js "pdftoppm") args 30000;
            EvAccess p1; EvAccess p2; EvAccess p3; EvReaddir tmpDir]).
Proof.
  intros args p1 p2 p3 tr1 Hppm H1 H2 H3 Hdir Hnone.
  unfold readMrzWithPassportEye. fold args.
  unfold bind at 1. unfold run at 1. rewrite Hppm. fold tr1.
  unfold bind at 1. cbn [first_accessible]. fold p1 p2 p3.
  unfold bind at 1. unfold fs_access at 1. rewrite H1.
  unfold bind at 1. unfold fs_access at 1. rewrite H2.
  unfold bind at 1. unfold fs_access at 1. rewrite H3.
  unfold ret at 1.
  unfold bind at 1. unfold bind at 1. unfold fs_readdir at 1. rewrite Hdir, Hnone.
  unfold throw, tr1. rewrite <- !app_assoc. reflexivity.
Qed.

Lemma reader_without_image_witness :
  readMrzWithPassportEye (js "/tmp/w/input.pdf") (js "/tmp/w") world_no_image []
  = (inl (js "pdftoppm n'a produit aucun fichier PNG"),
     [] ++ [EvSpawn (js "pdftoppm")
              [js "-r"; js "300"; js "-png"; js "-f"; js "1"; js "-l"; js "1";
               js "/tmp/w/input.pdf"; path_join (js "/tmp/w") (js "page")] 30000;
            EvAccess (path_join (js "/tmp/w") (js "page-1.png"));
            EvAccess (path_join (js "/tmp/w") (js "page-01.png"));
            EvAccess (path_join (js "/tmp/w") (js "page-001.png"));
            EvReaddir (js "/tmp/w")]).
Proof.
  apply (reader_without_image (js "/tmp/w/input.pdf") (js "/tmp/w") world_no_image []
           [] [] [js "input.pdf"; js "pages.txt"]); reflexivity.
Defined.
